(** * A walkable 3D art gallery: player controller, artwork registry, picking

    Shallow embedding of [PlayerController] (src/unnamed/part_000), [Artwork]
    (src/unnamed/part_001) and the event handlers of src/main.js.

    JavaScript numbers are kept behind the interface [JS.Number], and every
    function of the program is written once against that interface.  Two
    instances are given: [JS.Real], exact real arithmetic, in which the geometry
    of the program is studied, and [JS.Binary64], IEEE 754 double precision as
    the language really computes, in which results are evaluated bit for bit.
    Objects of the 3D engine live in a store indexed by object identity, so that
    the reference comparisons of the source ([===], [includes]) keep their
    meaning. *)

From Stdlib Require Import Reals Lra ZArith Floats.
From stdpp Require Import base option list strings gmap.

Set Default Proof Using "Type".

(* ===================================================================== *)
(** ** JavaScript numbers *)
(* ===================================================================== *)

Module JS.

(** What the program asks of a number: the four operations, [Math.sqrt],
    [Math.sin], [Math.cos], [Math.PI], the comparison [>], the truthiness test
    behind [x || 0], and integer literals. *)
Class Number : Type := {
  num : Type;
  add : num -> num -> num;
  sub : num -> num -> num;
  mul : num -> num -> num;
  div : num -> num -> num;
  neg : num -> num;
  gt : num -> num -> bool;
  truthy : num -> bool;
  int : Z -> num;
  Math_sqrt : num -> num;
  Math_sin : num -> num;
  Math_cos : num -> num;
  Math_PI : num
}.

Declare Scope js_scope.
Delimit Scope js_scope with js.
Bind Scope js_scope with num.

Notation "a + b" := (add a b) : js_scope.
Notation "a - b" := (sub a b) : js_scope.
Notation "a * b" := (mul a b) : js_scope.
Notation "a / b" := (div a b) : js_scope.
Notation "- a" := (neg a) : js_scope.

Section Literals.
Context {N : Number}.

(** The decimal literal [m / 10^e], e.g. [0.002] is [dec 2 3].  For the small
      [m] and [e] of this program both operands are exact, and a correctly
      rounded quotient is the double the literal denotes. *)
Definition dec (m : Z) (e : nat) : num := (int m / int (10 ^ Z.of_nat e))%js.

(** [x || 0] on a number. *)
Definition or_zero (x : num) : num := if truthy x then x else int 0.

(** [x || 0] on a property that may be [undefined]. *)
Definition or0 (x : option num) : num :=
    match x with
    | Some v => or_zero v
    | None => int 0
    end.

(** [x || 1], as used by [Vector3.normalize]. *)
Definition or_one (x : num) : num := if truthy x then x else int 1.
End Literals.

(** Exact real arithmetic.  No NaN and no infinities: [truthy] only excludes
    zero. *)
#[export] Instance Real : Number := {|
  num := R;
  add := Rplus;
  sub := Rminus;
  mul := Rmult;
  div := Rdiv;
  neg := Ropp;
  gt a b := if Rgt_dec a b then true else false;
  truthy x := if Req_dec_T x 0 then false else true;
  int := IZR;
  Math_sqrt := R_sqrt.sqrt;
  Math_sin := sin;
  Math_cos := cos;
  Math_PI := PI
|}.

(** IEEE 754 binary64.  The kernel's primitive floats round to nearest even,
    as JavaScript does.  [Math.sin] and [Math.cos] are left to the host (the
    language only asks for an approximation), hence the two parameters. *)
Definition float_of_Z (z : Z) : float :=
  match z with
  | Z0 => PrimFloat.zero
  | Zpos _ => PrimFloat.of_uint63 (Uint63.of_Z z)
  | Zneg p => PrimFloat.opp (PrimFloat.of_uint63 (Uint63.of_Z (Zpos p)))
  end.

Definition float_truthy (x : float) : bool :=
  negb (PrimFloat.eqb x PrimFloat.zero) && PrimFloat.eqb x x.

Definition Binary64 (host_sin host_cos : float -> float) : Number := {|
  num := float;
  add := PrimFloat.add;
  sub := PrimFloat.sub;
  mul := PrimFloat.mul;
  div := PrimFloat.div;
  neg := PrimFloat.opp;
  gt a b := PrimFloat.ltb b a;
  truthy := float_truthy;
  int := float_of_Z;
  Math_sqrt := PrimFloat.sqrt;
  Math_sin := host_sin;
  Math_cos := host_cos;
  Math_PI := 0x1.921fb54442d18p+1%float
|}.

End JS.

Import JS.
Local Open Scope js_scope.

(* ===================================================================== *)
(** ** The engine's vectors (three.js [Vector3]) *)
(* ===================================================================== *)

(** three.js is a dependency of the gallery, not part of it.  Its vector
    methods are written here as three.js defines them. *)
Module Vector3.
Section WithNumber.
Context {N : Number}.

Record t : Type := set { x : num; y : num; z : num }.

(** [new THREE.Vector3()] *)
Definition new : t := set (int 0) (int 0) (int 0).

(** [v.add(w)] and [v.sub(w)] *)
Definition add (v w : t) : t := set (x v + x w) (y v + y w) (z v + z w).
Definition sub (v w : t) : t := set (x v - x w) (y v - y w) (z v - z w).

(** [v.multiplyScalar(s)] *)
Definition multiplyScalar (v : t) (s : num) : t :=
  set (x v * s) (y v * s) (z v * s).

(** [v.divideScalar(s)] is [v.multiplyScalar(1 / s)]. *)
Definition divideScalar (v : t) (s : num) : t := multiplyScalar v (int 1 / s).

(** [v.lengthSq()] and [v.length()] *)
Definition lengthSq (v : t) : num := x v * x v + y v * y v + z v * z v.
Definition length (v : t) : num := Math_sqrt (lengthSq v).

(** [v.normalize()] is [v.divideScalar(v.length() || 1)]. *)
Definition normalize (v : t) : t := divideScalar v (or_one (length v)).

End WithNumber.
End Vector3.

(* ===================================================================== *)
(** ** The browser: pointer lock, promises, the page *)
(* ===================================================================== *)

Module Dom.

(** A native entry point of the pointer-lock API, standard or prefixed. *)
Inductive NativeFn : Type := StandardApi | MozApi | WebkitApi.

(** The state of a promise. *)
Inductive Settlement : Type :=
| Pending
| Fulfilled
| Rejected (message : string).

(** The closures [lock] and [unlock] register for ['pointerlockchange'], each
    holding the promise it settles. *)
Inductive Listener : Type :=
| OnLock (promise : nat)
| OnUnlock (promise : nat).

Inductive ElementRef : Type := Canvas | OtherElement.

(** [renderer.domElement], the controller's [domElement]. *)
Record Element : Type := {
  requestPointerLock : option NativeFn;
  mozRequestPointerLock : option NativeFn;
  webkitRequestPointerLock : option NativeFn;
  canvas_listeners : list Listener
}.

(** [document].  An element looked up by id is [None] when the page lacks it;
    [blocker] and [crosshair] hold [style.display], [title] and [artist] hold
    [textContent], [info_panel] holds whether the class [visible] is set. *)
Record Document : Type := {
  exitPointerLock : option NativeFn;
  mozExitPointerLock : option NativeFn;
  webkitExitPointerLock : option NativeFn;
  pointerLockElement : option ElementRef;
  document_listeners : list Listener;
  blocker : option string;
  crosshair : option string;
  title : option string;
  artist : option string;
  info_panel : option bool;
  cursor : string
}.

Record World : Type := {
  canvas : Element;
  document : Document;
  promises : list Settlement;
  lock_requests : nat;
  exit_requests : nat;
  console_error : list string;
  timers : list nat;
  next_timer : nat
}.

(** [a || b] on values that are a function or [undefined]. *)
Definition or_else {A : Type} (a b : option A) : option A :=
  match a with
  | Some _ => a
  | None => b
  end.

(** Assignments to one part of the page. *)
Definition with_canvas (e : Element) (w : World) : World :=
  {| canvas := e; document := document w; promises := promises w;
     lock_requests := lock_requests w; exit_requests := exit_requests w;
     console_error := console_error w; timers := timers w;
     next_timer := next_timer w |}.

Definition with_document (d : Document) (w : World) : World :=
  {| canvas := canvas w; document := d; promises := promises w;
     lock_requests := lock_requests w; exit_requests := exit_requests w;
     console_error := console_error w; timers := timers w;
     next_timer := next_timer w |}.

Definition with_promises (ps : list Settlement) (w : World) : World :=
  {| canvas := canvas w; document := document w; promises := ps;
     lock_requests := lock_requests w; exit_requests := exit_requests w;
     console_error := console_error w; timers := timers w;
     next_timer := next_timer w |}.

(** [new Promise(...)]: the promise is pending and known by its position. *)
Definition new_promise (w : World) : nat * World :=
  (length (promises w), with_promises (promises w ++ [Pending]) w).

(** [resolve()] and [reject(err)] settle a pending promise and do nothing to
    a settled one. *)
Definition settle (p : nat) (s : Settlement) (w : World) : World :=
  match promises w !! p with
  | Some Pending => with_promises (<[p := s]> (promises w)) w
  | _ => w
  end.

(** [console.error(msg)] *)
Definition log_error (msg : string) (w : World) : World :=
  {| canvas := canvas w; document := document w; promises := promises w;
     lock_requests := lock_requests w; exit_requests := exit_requests w;
     console_error := console_error w ++ [msg]; timers := timers w;
     next_timer := next_timer w |}.

(** [domElement.requestPointerLock = f] *)
Definition set_requestPointerLock (f : option NativeFn) (e : Element) : Element :=
  {| requestPointerLock := f;
     mozRequestPointerLock := mozRequestPointerLock e;
     webkitRequestPointerLock := webkitRequestPointerLock e;
     canvas_listeners := canvas_listeners e |}.

Definition set_canvas_listeners (ls : list Listener) (e : Element) : Element :=
  {| requestPointerLock := requestPointerLock e;
     mozRequestPointerLock := mozRequestPointerLock e;
     webkitRequestPointerLock := webkitRequestPointerLock e;
     canvas_listeners := ls |}.

(** [domElement.requestPointerLock()]: the request goes to the browser, which
    answers later with an event. *)
Definition call_requestPointerLock (w : World) : World :=
  {| canvas := canvas w; document := document w; promises := promises w;
     lock_requests := S (lock_requests w); exit_requests := exit_requests w;
     console_error := console_error w; timers := timers w;
     next_timer := next_timer w |}.

Definition call_exitPointerLock (w : World) : World :=
  {| canvas := canvas w; document := document w; promises := promises w;
     lock_requests := lock_requests w; exit_requests := S (exit_requests w);
     console_error := console_error w; timers := timers w;
     next_timer := next_timer w |}.

Definition set_exitPointerLock (f : option NativeFn) (d : Document) : Document :=
  {| exitPointerLock := f;
     mozExitPointerLock := mozExitPointerLock d;
     webkitExitPointerLock := webkitExitPointerLock d;
     pointerLockElement := pointerLockElement d;
     document_listeners := document_listeners d;
     blocker := blocker d; crosshair := crosshair d;
     title := title d; artist := artist d; info_panel := info_panel d;
     cursor := cursor d |}.

Definition set_document_listeners (ls : list Listener) (d : Document) : Document :=
  {| exitPointerLock := exitPointerLock d;
     mozExitPointerLock := mozExitPointerLock d;
     webkitExitPointerLock := webkitExitPointerLock d;
     pointerLockElement := pointerLockElement d;
     document_listeners := ls;
     blocker := blocker d; crosshair := crosshair d;
     title := title d; artist := artist d; info_panel := info_panel d;
     cursor := cursor d |}.

Definition set_pointerLockElement (e : option ElementRef) (d : Document) : Document :=
  {| exitPointerLock := exitPointerLock d;
     mozExitPointerLock := mozExitPointerLock d;
     webkitExitPointerLock := webkitExitPointerLock d;
     pointerLockElement := e;
     document_listeners := document_listeners d;
     blocker := blocker d; crosshair := crosshair d;
     title := title d; artist := artist d; info_panel := info_panel d;
     cursor := cursor d |}.

(** [el.style.display = v] for [#blocker] and [#crosshair], skipped when the
    element is missing. *)
Definition set_displays (b c : string) (d : Document) : Document :=
  {| exitPointerLock := exitPointerLock d;
     mozExitPointerLock := mozExitPointerLock d;
     webkitExitPointerLock := webkitExitPointerLock d;
     pointerLockElement := pointerLockElement d;
     document_listeners := document_listeners d;
     blocker := (fun _ => b) <$> blocker d;
     crosshair := (fun _ => c) <$> crosshair d;
     title := title d; artist := artist d; info_panel := info_panel d;
     cursor := cursor d |}.

(** [document.body.style.cursor = v] *)
Definition set_cursor (v : string) (d : Document) : Document :=
  {| exitPointerLock := exitPointerLock d;
     mozExitPointerLock := mozExitPointerLock d;
     webkitExitPointerLock := webkitExitPointerLock d;
     pointerLockElement := pointerLockElement d;
     document_listeners := document_listeners d;
     blocker := blocker d; crosshair := crosshair d;
     title := title d; artist := artist d; info_panel := info_panel d;
     cursor := v |}.

(** The info panel: both texts and the [visible] class. *)
Definition set_info (t a : option string) (p : option bool) (d : Document) : Document :=
  {| exitPointerLock := exitPointerLock d;
     mozExitPointerLock := mozExitPointerLock d;
     webkitExitPointerLock := webkitExitPointerLock d;
     pointerLockElement := pointerLockElement d;
     document_listeners := document_listeners d;
     blocker := blocker d; crosshair := crosshair d;
     title := t; artist := a; info_panel := p;
     cursor := cursor d |}.

(** [setTimeout(f, 5000)] hands out a fresh, non-zero id; [clearTimeout(id)]
    forgets it.  [timers] are the pending timers of [showArtworkInfo], the
    only ones the gallery logic starts or clears. *)
Definition setTimeout (w : World) : nat * World :=
  (next_timer w,
   {| canvas := canvas w; document := document w; promises := promises w;
      lock_requests := lock_requests w; exit_requests := exit_requests w;
      console_error := console_error w; timers := next_timer w :: timers w;
      next_timer := S (next_timer w) |}).

Definition clearTimeout (id : nat) (w : World) : World :=
  {| canvas := canvas w; document := document w; promises := promises w;
     lock_requests := lock_requests w; exit_requests := exit_requests w;
     console_error := console_error w;
     timers := filter (fun i => i ≠ id) (timers w);
     next_timer := next_timer w |}.

End Dom.

(* ===================================================================== *)
(** ** PlayerController (src/unnamed/part_000) *)
(* ===================================================================== *)

Module PlayerController.
Section WithNumber.
Context {N : Number}.

(** The camera as the controller uses it: a position, and the point it was
    last told to look at ([camera.lookAt(target)]). *)
Record Camera : Type := { position : Vector3.t; lookAt : Vector3.t }.

(** The fields of a controller.  [yaw] is never initialised by the
    constructor: it is [undefined] ([None]) until the first mouse move. *)
Record t : Type := {
  camera : Camera;
  moveSpeed : num;
  rotationSpeed : num;
  moveForward : bool;
  moveBackward : bool;
  moveLeft : bool;
  moveRight : bool;
  isLocked : bool;
  velocity : Vector3.t;
  direction : Vector3.t;
  target : Vector3.t;
  yaw : option num
}.

(** Assignments to one field of the controller. *)
Definition set_camera (v : Camera) (c : t) : t :=
  {| camera := v; moveSpeed := moveSpeed c; rotationSpeed := rotationSpeed c;
     moveForward := moveForward c; moveBackward := moveBackward c;
     moveLeft := moveLeft c; moveRight := moveRight c;
     isLocked := isLocked c; velocity := velocity c;
     direction := direction c; target := target c; yaw := yaw c |}.

Definition set_moveForward (v : bool) (c : t) : t :=
  {| camera := camera c; moveSpeed := moveSpeed c;
     rotationSpeed := rotationSpeed c; moveForward := v;
     moveBackward := moveBackward c; moveLeft := moveLeft c;
     moveRight := moveRight c; isLocked := isLocked c;
     velocity := velocity c; direction := direction c; target := target c;
     yaw := yaw c |}.

Definition set_moveBackward (v : bool) (c : t) : t :=
  {| camera := camera c; moveSpeed := moveSpeed c;
     rotationSpeed := rotationSpeed c; moveForward := moveForward c;
     moveBackward := v; moveLeft := moveLeft c; moveRight := moveRight c;
     isLocked := isLocked c; velocity := velocity c;
     direction := direction c; target := target c; yaw := yaw c |}.

Definition set_moveLeft (v : bool) (c : t) : t :=
  {| camera := camera c; moveSpeed := moveSpeed c;
     rotationSpeed := rotationSpeed c; moveForward := moveForward c;
     moveBackward := moveBackward c; moveLeft := v; moveRight := moveRight c;
     isLocked := isLocked c; velocity := velocity c;
     direction := direction c; target := target c; yaw := yaw c |}.

Definition set_moveRight (v : bool) (c : t) : t :=
  {| camera := camera c; moveSpeed := moveSpeed c;
     rotationSpeed := rotationSpeed c; moveForward := moveForward c;
     moveBackward := moveBackward c; moveLeft := moveLeft c; moveRight := v;
     isLocked := isLocked c; velocity := velocity c;
     direction := direction c; target := target c; yaw := yaw c |}.

Definition set_isLocked (v : bool) (c : t) : t :=
  {| camera := camera c; moveSpeed := moveSpeed c;
     rotationSpeed := rotationSpeed c; moveForward := moveForward c;
     moveBackward := moveBackward c; moveLeft := moveLeft c;
     moveRight := moveRight c; isLocked := v; velocity := velocity c;
     direction := direction c; target := target c; yaw := yaw c |}.

Definition set_velocity (v : Vector3.t) (c : t) : t :=
  {| camera := camera c; moveSpeed := moveSpeed c;
     rotationSpeed := rotationSpeed c; moveForward := moveForward c;
     moveBackward := moveBackward c; moveLeft := moveLeft c;
     moveRight := moveRight c; isLocked := isLocked c; velocity := v;
     direction := direction c; target := target c; yaw := yaw c |}.

Definition set_direction (v : Vector3.t) (c : t) : t :=
  {| camera := camera c; moveSpeed := moveSpeed c;
     rotationSpeed := rotationSpeed c; moveForward := moveForward c;
     moveBackward := moveBackward c; moveLeft := moveLeft c;
     moveRight := moveRight c; isLocked := isLocked c;
     velocity := velocity c; direction := v; target := target c;
     yaw := yaw c |}.

Definition set_target (v : Vector3.t) (c : t) : t :=
  {| camera := camera c; moveSpeed := moveSpeed c;
     rotationSpeed := rotationSpeed c; moveForward := moveForward c;
     moveBackward := moveBackward c; moveLeft := moveLeft c;
     moveRight := moveRight c; isLocked := isLocked c;
     velocity := velocity c; direction := direction c; target := v;
     yaw := yaw c |}.

Definition set_yaw (v : option num) (c : t) : t :=
  {| camera := camera c; moveSpeed := moveSpeed c;
     rotationSpeed := rotationSpeed c; moveForward := moveForward c;
     moveBackward := moveBackward c; moveLeft := moveLeft c;
     moveRight := moveRight c; isLocked := isLocked c;
     velocity := velocity c; direction := direction c; target := target c;
     yaw := v |}.

(** [updateTarget()]: the direction of the yaw, the point one unit ahead of
    the camera, and the camera turned towards it. *)
Definition updateTarget (c : t) : t :=
  let d := Vector3.normalize
             (Vector3.set (Math_sin (or0 (yaw c))) (int 0)
                          (Math_cos (or0 (yaw c)))) in
  let tg := Vector3.add (position (camera c)) d in
  set_camera {| position := position (camera c); lookAt := tg |}
    (set_target tg (set_direction d c)).

(** [new PlayerController(camera, domElement)].  The listeners it registers
    are the handlers below, dispatched by [Main.step]. *)
Definition new (cam : Camera) : t :=
  updateTarget
    {| camera := {| position := Vector3.set (int 0) (dec 16 1) (int 5);
                    lookAt := lookAt cam |};
       moveSpeed := dec 1 1;
       rotationSpeed := dec 2 3;
       moveForward := false;
       moveBackward := false;
       moveLeft := false;
       moveRight := false;
       isLocked := false;
       velocity := Vector3.new;
       direction := Vector3.new;
       target := Vector3.new;
       yaw := None |}.

(** [case 'a': case 'b':] of a [switch (event.code)]. *)
Definition is_code (code : string) (cases : list string) : bool :=
  bool_decide (code ∈ cases).

(** [onKeyUp(event)], on [event.code]. *)
Definition onKeyUp (code : string) (c : t) : t :=
  if is_code code ["KeyW"; "ArrowUp"]%string then set_moveForward false c
  else if is_code code ["KeyS"; "ArrowDown"]%string then set_moveBackward false c
  else if is_code code ["KeyA"; "ArrowLeft"]%string then set_moveRight false c
  else if is_code code ["KeyD"; "ArrowRight"]%string then set_moveLeft false c
  else c.

(** The closure [onLock] of [lock()], run when ['pointerlockchange'] reaches
    the canvas. *)
Definition onLock (p : nat) (w : Dom.World) (c : t) : Dom.World * t :=
  (Dom.settle p Dom.Fulfilled w, set_isLocked true c).

(** [lock()].  The executor of the promise runs at once; the result is the
    promise. *)
Definition lock (w : Dom.World) (c : t) : Dom.World * t * nat :=
  let '(p, w) := Dom.new_promise w in
  let f := Dom.or_else (Dom.requestPointerLock (Dom.canvas w))
             (Dom.or_else (Dom.mozRequestPointerLock (Dom.canvas w))
                          (Dom.webkitRequestPointerLock (Dom.canvas w))) in
  let w := Dom.with_canvas (Dom.set_requestPointerLock f (Dom.canvas w)) w in
  match f with
  | Some _ =>
      let w := Dom.with_canvas
                 (Dom.set_canvas_listeners
                    (Dom.canvas_listeners (Dom.canvas w) ++ [Dom.OnLock p])
                    (Dom.canvas w)) w in
      (Dom.call_requestPointerLock w, c, p)
  | None =>
      (Dom.settle p (Dom.Rejected "Pointer Lock API not supported") w, c, p)
  end.

(** The closure [onUnlock] of [unlock()]. *)
Definition onUnlock (p : nat) (w : Dom.World) (c : t) : Dom.World * t :=
  (Dom.settle p Dom.Fulfilled w, set_isLocked false c).

(** [unlock()] *)
Definition unlock (w : Dom.World) (c : t) : Dom.World * t * nat :=
  let '(p, w) := Dom.new_promise w in
  let f := Dom.or_else (Dom.exitPointerLock (Dom.document w))
             (Dom.or_else (Dom.mozExitPointerLock (Dom.document w))
                          (Dom.webkitExitPointerLock (Dom.document w))) in
  let w := Dom.with_document (Dom.set_exitPointerLock f (Dom.document w)) w in
  match f with
  | Some _ =>
      let w := Dom.with_document
                 (Dom.set_document_listeners
                    (Dom.document_listeners (Dom.document w) ++ [Dom.OnUnlock p])
                    (Dom.document w)) w in
      (Dom.call_exitPointerLock w, c, p)
  | None =>
      (Dom.settle p Dom.Fulfilled w, set_isLocked false c, p)
  end.

(** [onKeyDown(event)], on [event.code]. *)
Definition onKeyDown (code : string) (w : Dom.World) (c : t) : Dom.World * t :=
  if is_code code ["KeyW"; "ArrowUp"]%string then (w, set_moveForward true c)
  else if is_code code ["KeyS"; "ArrowDown"]%string then (w, set_moveBackward true c)
  else if is_code code ["KeyA"; "ArrowLeft"]%string then (w, set_moveRight true c)
  else if is_code code ["KeyD"; "ArrowRight"]%string then (w, set_moveLeft true c)
  else if is_code code ["Escape"]%string then
    let '(w, c, _) := unlock w c in (w, c)
  else (w, c).

(** [onPointerlockChange()] *)
Definition onPointerlockChange (w : Dom.World) (c : t) : Dom.World * t :=
  let wasLocked := isLocked c in
  let now := match Dom.pointerLockElement (Dom.document w) with
             | Some Dom.Canvas => true
             | _ => false
             end in
  let c := set_isLocked now c in
  if negb (Bool.eqb wasLocked now)
  then (Dom.with_document
          (Dom.set_displays (if now then "none" else "block")
                            (if now then "block" else "none")
                            (Dom.document w)) w, c)
  else (w, c).

(** [onPointerlockError()] *)
Definition onPointerlockError (w : Dom.World) : Dom.World :=
  Dom.log_error "PointerLockControls: Unable to use Pointer Lock API" w.

(** [onMouseMove(event)], on [event.movementX]. *)
Definition onMouseMove (movementX : option num) (c : t) : t :=
  if negb (isLocked c) then c
  else
    let movementX := or0 movementX in
    let c := set_yaw (Some (or0 (yaw c) - movementX * rotationSpeed c)) c in
    updateTarget c.

(** [update(delta)] *)
Definition update (delta : num) (c : t) : t :=
  if negb (isLocked c) then c
  else
    let v := Vector3.set (int 0) (int 0) (int 0) in
    let forward :=
      Vector3.normalize
        (Vector3.set (Math_sin (or0 (yaw c))) (int 0)
                     (Math_cos (or0 (yaw c)))) in
    let right :=
      Vector3.normalize
        (Vector3.set (Math_sin (or0 (yaw c) + Math_PI / int 2)) (int 0)
                     (Math_cos (or0 (yaw c) + Math_PI / int 2))) in
    let v := if moveForward c then Vector3.add v forward else v in
    let v := if moveBackward c then Vector3.sub v forward else v in
    let v := if moveLeft c then Vector3.sub v right else v in
    let v := if moveRight c then Vector3.add v right else v in
    if gt (Vector3.lengthSq v) (int 0)
    then
      let v := Vector3.multiplyScalar (Vector3.normalize v) (moveSpeed c) in
      let cam := {| position := Vector3.add (position (camera c)) v;
                    lookAt := lookAt (camera c) |} in
      updateTarget (set_camera cam (set_velocity v c))
    else set_velocity v c.

End WithNumber.
End PlayerController.

(* ===================================================================== *)
(** ** The scene graph (three.js [Object3D]) *)
(* ===================================================================== *)

(** Nodes of the scene are objects with an identity; the source compares
    them by reference.  The store keeps the nodes the gallery itself creates
    (the group, frame and picture of every artwork) under their identity.
    Any other identity is scenery (floor, lights, visitors): a node whose
    [userData] is the empty object every three.js node starts with. *)
Module Scene.

Abbreviation ObjId := nat.

(** An entry of [ARTWORKS]. *)
Record ArtworkData : Type := {
  image : string;
  title : string;
  artist : string
}.

(** [{ type: 'artwork', data: this.data }] *)
Record UserData : Type := { type : string; data : ArtworkData }.

Section WithNumber.
Context {N : Number}.

Inductive Geometry : Type :=
| BoxGeometry (width height depth : num)
| PlaneGeometry (width height : num).

(** The local transform of a node as the engine last baked it into
    [matrixWorld]: three.js does so when a frame is rendered and at the start
    of [Object3D.lookAt], not when [position] or [scale] are assigned. *)
Record Pose : Type := {
  pose_position : Vector3.t;
  pose_lookAt : option Vector3.t;
  pose_scale : Vector3.t
}.

(** A node.  Of a mesh's material the model keeps the two colours the
    gallery sets, [color] and [emissive]. *)
Record Object3D : Type := {
  position : Vector3.t;
  lookAt : option Vector3.t;
  scale : Vector3.t;
  matrixWorld : Pose;
  geometry : option Geometry;
  color : option Z;
  emissive : option Z;
  userData : option UserData;
  children : list ObjId
}.

Record Store : Type := { objects : gmap ObjId Object3D; next : ObjId }.

(** An entry of the array [raycaster.intersectObjects] returns. *)
Record Intersection : Type := { distance : num; object : ObjId }.

(** The world matrix of a node never baked: the identity. *)
Definition identity_pose : Pose :=
  {| pose_position := Vector3.new; pose_lookAt := None;
     pose_scale := Vector3.set (int 1) (int 1) (int 1) |}.

(** [new THREE.Group()] and [new THREE.Mesh(geometry, material)]: a node at
    the origin, unscaled, without children, with the empty [userData]. *)
Definition fresh_node (g : option Geometry) (col emi : option Z) : Object3D :=
  {| position := Vector3.new; lookAt := None;
     scale := Vector3.set (int 1) (int 1) (int 1);
     matrixWorld := identity_pose;
     geometry := g; color := col; emissive := emi;
     userData := None; children := [] |}.

(** A new node gets the next identity; [modify] is an assignment to a field
    of the node with a given identity. *)
Definition alloc (o : Object3D) (s : Store) : ObjId * Store :=
  (next s, {| objects := <[next s := o]> (objects s); next := S (next s) |}).

Definition modify (f : Object3D -> Object3D) (id : ObjId) (s : Store) : Store :=
  {| objects := alter f id (objects s); next := next s |}.

Definition set_position (v : Vector3.t) (o : Object3D) : Object3D :=
  {| position := v; lookAt := lookAt o; scale := scale o;
     matrixWorld := matrixWorld o; geometry := geometry o; color := color o;
     emissive := emissive o; userData := userData o; children := children o |}.

Definition set_scale (v : Vector3.t) (o : Object3D) : Object3D :=
  {| position := position o; lookAt := lookAt o; scale := v;
     matrixWorld := matrixWorld o; geometry := geometry o; color := color o;
     emissive := emissive o; userData := userData o; children := children o |}.

Definition set_emissive (hex : Z) (o : Object3D) : Object3D :=
  {| position := position o; lookAt := lookAt o; scale := scale o;
     matrixWorld := matrixWorld o; geometry := geometry o; color := color o;
     emissive := (fun _ => hex) <$> emissive o;
     userData := userData o; children := children o |}.

Definition set_userData (u : UserData) (o : Object3D) : Object3D :=
  {| position := position o; lookAt := lookAt o; scale := scale o;
     matrixWorld := matrixWorld o; geometry := geometry o; color := color o;
     emissive := emissive o; userData := Some u; children := children o |}.

(** [parent.add(child)] *)
Definition add_child (child : ObjId) (o : Object3D) : Object3D :=
  {| position := position o; lookAt := lookAt o; scale := scale o;
     matrixWorld := matrixWorld o; geometry := geometry o; color := color o;
     emissive := emissive o; userData := userData o;
     children := children o ++ [child] |}.

(** [parent.remove(child)]: the child is looked up with [indexOf] and, when
    found, spliced out of [children]. *)
Definition remove_child (child : ObjId) (o : Object3D) : Object3D :=
  {| position := position o; lookAt := lookAt o; scale := scale o;
     matrixWorld := matrixWorld o; geometry := geometry o; color := color o;
     emissive := emissive o; userData := userData o;
     children := match list_find (fun c => c = child) (children o) with
                 | Some (index, _) => delete index (children o)
                 | None => children o
                 end |}.

(** What [updateMatrixWorld] bakes for one node. *)
Definition bake (o : Object3D) : Object3D :=
  {| position := position o; lookAt := lookAt o; scale := scale o;
     matrixWorld := {| pose_position := position o; pose_lookAt := lookAt o;
                       pose_scale := scale o |};
     geometry := geometry o; color := color o;
     emissive := emissive o; userData := userData o; children := children o |}.

(** [node.lookAt(x, y, z)]: bake the world matrix, then turn the node. *)
Definition look_at (v : Vector3.t) (o : Object3D) : Object3D :=
  let o := bake o in
  {| position := position o; lookAt := Some v; scale := scale o;
     matrixWorld := matrixWorld o; geometry := geometry o; color := color o;
     emissive := emissive o; userData := userData o; children := children o |}.

(** [renderer.render(scene, camera)] bakes every node. *)
Definition render (s : Store) : Store :=
  {| objects := bake <$> objects s; next := next s |}.

(** What a ray cast can see of a node: where it was last baked, its shape,
    its children. *)
Record Rendered : Type := {
  rendered_matrixWorld : Pose;
  rendered_geometry : option Geometry;
  rendered_children : list ObjId
}.

Definition rendered (o : Object3D) : Rendered :=
  {| rendered_matrixWorld := matrixWorld o;
     rendered_geometry := geometry o;
     rendered_children := children o |}.

(** [o.userData && o.userData.type === 'artwork'] *)
Definition is_artwork (s : Store) (id : ObjId) : bool :=
  match objects s !! id with
  | Some o =>
      match userData o with
      | Some u => bool_decide (type u = "artwork"%string)
      | None => false
      end
  | None => false
  end.

Definition children_of (s : Store) (id : ObjId) : list ObjId :=
  match objects s !! id with
  | Some o => children o
  | None => []
  end.

End WithNumber.
End Scene.

(* ===================================================================== *)
(** ** Artwork (src/unnamed/part_001) *)
(* ===================================================================== *)

Module Artwork.
Section WithNumber.
Context {N : Number}.

Record t : Type := {
  data : Scene.ArtworkData;
  index : nat;
  total : nat;
  radius : num;
  group : Scene.ObjId;
  frame : Scene.ObjId;
  artwork : Scene.ObjId;
  isHovered : bool;
  originalScale : num;
  highlightScale : num;
  highlightColor : Z;
  originalColor : Z
}.

(** The angle of [createArtwork]: [(this.index / this.total) * Math.PI * 2]. *)
Definition angle (index total : nat) : num :=
  int (Z.of_nat index) / int (Z.of_nat total) * Math_PI * int 2.

(** [new Artwork(data, index, total, radius = 15)]: the constructor and the
    [createArtwork()] it ends with.  [radius] is [None] when the caller
    leaves it out. *)
Definition new (d : Scene.ArtworkData) (index total : nat)
    (radius : option num) (s : Scene.Store) : t * Scene.Store :=
  let radius := default (int 15) radius in
  let '(group, s) := Scene.alloc (Scene.fresh_node None None None) s in
  let x := Math_sin (angle index total) * radius in
  let z := Math_cos (angle index total) * radius in
  let s := Scene.modify
             (Scene.set_position (Vector3.set x (dec 16 1) z)) group s in
  let s := Scene.modify
             (Scene.look_at (Vector3.set (int 0) (dec 16 1) (int 0))) group s in
  let '(frame, s) :=
    Scene.alloc
      (Scene.fresh_node
         (Some (Scene.BoxGeometry (dec 32 1) (dec 22 1) (dec 1 1)))
         (Some 0x333333%Z) (Some 0x000000%Z)) s in
  let s := Scene.modify (Scene.add_child frame) group s in
  let '(artwork, s) :=
    Scene.alloc
      (Scene.fresh_node (Some (Scene.PlaneGeometry (int 3) (int 2)))
         (Some 0xffffff%Z) (Some 0x000000%Z)) s in
  let s := Scene.modify
             (Scene.set_position (Vector3.set (int 0) (int 0) (dec 6 2)))
             artwork s in
  let s := Scene.modify
             (Scene.set_userData
                {| Scene.type := "artwork"; Scene.data := d |}) artwork s in
  let s := Scene.modify (Scene.add_child artwork) group s in
  ({| data := d; index := index; total := total; radius := radius;
      group := group; frame := frame; artwork := artwork;
      isHovered := false;
      originalScale := int 1; highlightScale := dec 105 2;
      highlightColor := 0xffffff%Z; originalColor := 0x333333%Z |}, s).

Definition set_isHovered (b : bool) (a : t) : t :=
  {| data := data a; index := index a; total := total a; radius := radius a;
     group := group a; frame := frame a; artwork := artwork a;
     isHovered := b;
     originalScale := originalScale a; highlightScale := highlightScale a;
     highlightColor := highlightColor a; originalColor := originalColor a |}.

(** [setHighlight(highlight)] *)
Definition setHighlight (highlight : bool) (a : t) (s : Scene.Store)
    : t * Scene.Store :=
  if highlight && negb (isHovered a) then
    let s := Scene.modify
               (Scene.set_scale
                  (Vector3.set (highlightScale a) (highlightScale a)
                               (highlightScale a))) (group a) s in
    let s := Scene.modify (Scene.set_emissive 0x333333%Z) (frame a) s in
    (set_isHovered true a, s)
  else if negb highlight && isHovered a then
    let s := Scene.modify
               (Scene.set_scale (Vector3.set (int 1) (int 1) (int 1)))
               (group a) s in
    let s := Scene.modify (Scene.set_emissive 0x000000%Z) (frame a) s in
    (set_isHovered false a, s)
  else (a, s).

(** [showInfo()] *)
Definition showInfo (a : t) : string * string :=
  (Scene.title (data a), Scene.artist (data a)).

(** [getGroup()] *)
Definition getGroup (a : t) : Scene.ObjId := group a.

(** [dispose()].  Disposing of a geometry or of a material releases what the
    renderer holds for it and leaves the node as it is; the two meshes are
    then taken out of the group. *)
Definition dispose (a : t) (s : Scene.Store) : Scene.Store :=
  let s := Scene.modify (Scene.remove_child (artwork a)) (group a) s in
  Scene.modify (Scene.remove_child (frame a)) (group a) s.

End WithNumber.
End Artwork.

(* ===================================================================== *)
(** ** The gallery (src/main.js) *)
(* ===================================================================== *)

Module Main.

(** [ARTWORKS], the manifest of the gallery. *)
Definition ARTWORKS : list Scene.ArtworkData :=
  [ {| Scene.image := "socrates.jpg"; Scene.title := "The Death of Socrates";
       Scene.artist := "Jacques-Louis David" |};
    {| Scene.image := "stars.jpg"; Scene.title := "Starry Night";
       Scene.artist := "Vincent Van Gogh" |};
    {| Scene.image := "wave.jpg"; Scene.title := "The Great Wave off Kanagawa";
       Scene.artist := "Katsushika Hokusai" |};
    {| Scene.image := "spring.jpg"; Scene.title := "Effect of Spring, Giverny";
       Scene.artist := "Claude Monet" |};
    {| Scene.image := "mountain.jpg"; Scene.title := "Mount Corcoran";
       Scene.artist := "Albert Bierstadt" |};
    {| Scene.image := "sunday.jpg"; Scene.title := "A Sunday on La Grande Jatte";
       Scene.artist := "George Seurat" |} ].

Section WithNumber.
Context {N : Number}.

(** [THREE.Vector2], for [state.mouse]. *)
Record Vector2 : Type := { x : num; y : num }.

(** The ray cast of the engine, [raycaster.setFromCamera(mouse, camera)]
    followed by [raycaster.intersectObjects(scene.children, true)]: from the
    pointer in normalised device coordinates, the camera, the children of the
    scene and what is baked of every node, the hits by ascending distance.
    The gallery works with any such function. *)
Definition Raycaster : Type :=
  Vector2 -> PlayerController.Camera -> list Scene.ObjId ->
  gmap Scene.ObjId Scene.Rendered -> list Scene.Intersection.

Variable intersectObjects : Raycaster.

(** The object [state].  [state.camera] and the controller's [camera] are one
    object, kept in the controller; without a controller nothing reads it.
    [innerWidth] and [innerHeight] are the window's.  The visitors
    ([state.visitors], their nodes and their timers) and the frame counter
    are left out: they work on objects of their own and write neither to the
    controller, the artworks, [state.mouse] nor [state.infoTimeout]. *)
Record State : Type := {
  player : option PlayerController.t;
  artworks : list Artwork.t;
  store : Scene.Store;
  scene : list Scene.ObjId;
  mouse : Vector2;
  infoTimeout : option nat;
  innerWidth : num;
  innerHeight : num;
  world : Dom.World
}.

(** Assignments to one field of [state]. *)
Definition set_player (c : PlayerController.t) (st : State) : State :=
  {| player := Some c; artworks := artworks st; store := store st;
     scene := scene st; mouse := mouse st; infoTimeout := infoTimeout st;
     innerWidth := innerWidth st; innerHeight := innerHeight st;
     world := world st |}.

Definition set_world (w : Dom.World) (st : State) : State :=
  {| player := player st; artworks := artworks st; store := store st;
     scene := scene st; mouse := mouse st; infoTimeout := infoTimeout st;
     innerWidth := innerWidth st; innerHeight := innerHeight st;
     world := w |}.

Definition set_mouse (m : Vector2) (st : State) : State :=
  {| player := player st; artworks := artworks st; store := store st;
     scene := scene st; mouse := m; infoTimeout := infoTimeout st;
     innerWidth := innerWidth st; innerHeight := innerHeight st;
     world := world st |}.

Definition set_gallery (arts : list Artwork.t) (s : Scene.Store)
    (sc : list Scene.ObjId) (st : State) : State :=
  {| player := player st; artworks := arts; store := s;
     scene := sc; mouse := mouse st; infoTimeout := infoTimeout st;
     innerWidth := innerWidth st; innerHeight := innerHeight st;
     world := world st |}.

Definition set_infoTimeout (t : option nat) (st : State) : State :=
  {| player := player st; artworks := artworks st; store := store st;
     scene := scene st; mouse := mouse st; infoTimeout := t;
     innerWidth := innerWidth st; innerHeight := innerHeight st;
     world := world st |}.

Definition set_window (w h : num) (st : State) : State :=
  {| player := player st; artworks := artworks st; store := store st;
     scene := scene st; mouse := mouse st; infoTimeout := infoTimeout st;
     innerWidth := w; innerHeight := h;
     world := world st |}.

(** The body of [ARTWORKS.forEach((artworkData, index) => ...)] in
    [createArtworks], from position [index] on. *)
Fixpoint forEach_artwork (items : list Scene.ArtworkData) (index total : nat)
    (st : State) : State :=
  match items with
  | [] => st
  | artworkData :: rest =>
      let '(artwork, s) :=
        Artwork.new artworkData index total None (store st) in
      forEach_artwork rest (S index) total
        (set_gallery (artworks st ++ [artwork]) s
           (scene st ++ [Artwork.getGroup artwork]) st)
  end.

(** [createArtworks()], for a manifest [items]. *)
Definition createArtworks (items : list Scene.ArtworkData) (st : State) : State :=
  forEach_artwork items 0 (length items) st.

(** [setupPlayer()] *)
Definition setupPlayer (cam : PlayerController.Camera) (st : State) : State :=
  set_player (PlayerController.new cam) st.

(** [state.artworks.forEach(artwork => artwork.setHighlight(false))] *)
Fixpoint reset_highlights (arts : list Artwork.t) (s : Scene.Store)
    : list Artwork.t * Scene.Store :=
  match arts with
  | [] => ([], s)
  | a :: rest =>
      let '(a, s) := Artwork.setHighlight false a s in
      let '(rest, s) := reset_highlights rest s in
      (a :: rest, s)
  end.

(** The test of [state.artworks.find] in [onPointerMove]:
    [art.getGroup().children.some(child => child === object ||
    child.children.includes(object))]. *)
Definition owns (s : Scene.Store) (object : Scene.ObjId) (art : Artwork.t) : bool :=
  existsb
    (fun child =>
       Nat.eqb child object
       || existsb (Nat.eqb object) (Scene.children_of s child))
    (Scene.children_of s (Artwork.getGroup art)).

(** The [for (const intersect of intersects)] loop of [onPointerMove].  The
    result tells whether an artwork was highlighted, and which. *)
Fixpoint hover_loop (intersects : list Scene.Intersection)
    (arts : list Artwork.t) (s : Scene.Store)
    : option nat * list Artwork.t * Scene.Store :=
  match intersects with
  | [] => (None, arts, s)
  | intersect :: rest =>
      if Scene.is_artwork s (Scene.object intersect) then
        match list_find (fun art => owns s (Scene.object intersect) art = true) arts with
        | Some (k, artwork) =>
            let '(artwork, s) := Artwork.setHighlight true artwork s in
            (Some k, <[k := artwork]> arts, s)
        | None => hover_loop rest arts s
        end
      else hover_loop rest arts s
  end.

(** The pointer in normalised device coordinates, as both passes compute it. *)
Definition pointer (clientX clientY : num) (st : State) : Vector2 :=
  {| x := clientX / innerWidth st * int 2 - int 1;
     y := - (clientY / innerHeight st) * int 2 + int 1 |}.

(** The hits of the ray through [state.mouse]. *)
Definition cast (c : PlayerController.t) (st : State) : list Scene.Intersection :=
  intersectObjects (mouse st) (PlayerController.camera c) (scene st)
    (Scene.rendered <$> Scene.objects (store st)).

(** The body of [onPointerMove(event)] once the player is known to be
    locked, on [event.clientX] and [event.clientY]; with the state it leaves,
    the position in [state.artworks] of the artwork it highlighted, if any. *)
Definition hover_pass (clientX clientY : num) (c : PlayerController.t)
    (st : State) : option nat * State :=
  let st := set_mouse (pointer clientX clientY st) st in
  let '(arts, s) := reset_highlights (artworks st) (store st) in
  let st := set_gallery arts s (scene st) st in
  let intersects := cast c st in
  let '(found, arts, s) := hover_loop intersects (artworks st) (store st) in
  let st := set_gallery arts s (scene st) st in
  (found,
   set_world
     (Dom.with_document
        (Dom.set_cursor
           (match found with Some _ => "pointer" | None => "default" end)
           (Dom.document (world st))) (world st)) st).

(** [onPointerMove(event)] *)
Definition onPointerMove (clientX clientY : num) (st : State) : State :=
  match player st with
  | None => st
  | Some c =>
      if negb (PlayerController.isLocked c) then st
      else (hover_pass clientX clientY c st).2
  end.

(** [x || fallback] on a string. *)
Definition or_string (x fallback : string) : string :=
  if bool_decide (x = EmptyString) then fallback else x.

(** [showArtworkInfo(title, artist)] *)
Definition showArtworkInfo (title artist : string) (st : State) : State :=
  let d := Dom.document (world st) in
  match Dom.title d, Dom.artist d, Dom.info_panel d with
  | Some _, Some _, Some _ =>
      let st :=
        match infoTimeout st with
        | Some (S _ as id) =>
            set_infoTimeout None (set_world (Dom.clearTimeout id (world st)) st)
        | _ => st
        end in
      let d := Dom.set_info (Some (or_string title "Untitled"))
                 (Some (or_string artist "Unknown Artist")) (Some true)
                 (Dom.document (world st)) in
      let '(id, w) := Dom.setTimeout (Dom.with_document d (world st)) in
      set_infoTimeout (Some id) (set_world w st)
  | _, _, _ => st
  end.

(** The [for (const intersect of intersects)] loop of [handleArtworkClick]:
    the hit it stops at. *)
Fixpoint click_loop (intersects : list Scene.Intersection) (s : Scene.Store)
    : option Scene.Intersection :=
  match intersects with
  | [] => None
  | intersect :: rest =>
      if Scene.is_artwork s (Scene.object intersect) then Some intersect
      else click_loop rest s
  end.

(** [intersect.object.userData.data] *)
Definition userData_data (s : Scene.Store) (id : Scene.ObjId)
    : option Scene.ArtworkData :=
  o ← Scene.objects s !! id; u ← Scene.userData o; Some (Scene.data u).

(** The hit [handleArtworkClick(event)] stops at, if any, once the player is
    known to be locked. *)
Definition click_pass (clientX clientY : num) (c : PlayerController.t)
    (st : State) : option Scene.Intersection :=
  let st := set_mouse (pointer clientX clientY st) st in
  click_loop (cast c st) (store st).

(** [handleArtworkClick(event)] *)
Definition handleArtworkClick (clientX clientY : num) (st : State) : State :=
  match player st with
  | None => st
  | Some c =>
      if negb (PlayerController.isLocked c) then st
      else
        match click_pass clientX clientY c st with
        | Some intersect =>
            let st := set_mouse (pointer clientX clientY st) st in
            match userData_data (store st) (Scene.object intersect) with
            | Some artworkData =>
                showArtworkInfo (Scene.title artworkData)
                  (Scene.artist artworkData) st
            | None => st
            end
        | None => set_mouse (pointer clientX clientY st) st
        end
  end.

(** [state.player.lock().catch(handler)], with a handler that logs the
    error behind [prefix].  [lock] settles its promise before it returns only
    when it rejects, and the handler runs before the next event. *)
Definition lock_catch (prefix : string) (st : State) : State :=
  match player st with
  | None => st
  | Some c =>
      let '(w, c, p) := PlayerController.lock (world st) c in
      let w := match Dom.promises w !! p with
               | Some (Dom.Rejected err) => Dom.log_error (prefix +:+ err) w
               | _ => w
               end in
      set_world w (set_player c st)
  end.

(** The same for [unlock]. *)
Definition unlock_catch (st : State) : State :=
  match player st with
  | None => st
  | Some c =>
      let '(w, c, p) := PlayerController.unlock (world st) c in
      let w := match Dom.promises w !! p with
               | Some (Dom.Rejected err) => Dom.log_error err w
               | _ => w
               end in
      set_world w (set_player c st)
  end.

(** [state.player && state.player.isLocked] *)
Definition locked (st : State) : bool :=
  match player st with
  | Some c => PlayerController.isLocked c
  | None => false
  end.

(** A handler of the controller, which sees the controller and the page. *)
Definition on_player
    (h : Dom.World -> PlayerController.t -> Dom.World * PlayerController.t)
    (st : State) : State :=
  match player st with
  | None => st
  | Some c => let '(w, c) := h (world st) c in set_world w (set_player c st)
  end.

(** What the browser delivers. *)
Inductive Event : Type :=
| Frame (delta : num)
| KeyDown (code key : string)
| KeyUp (code : string)
| MouseMove (movementX : option num) (clientX clientY : num)
| Click (button : Z) (clientX clientY : num)
| ContextMenu (clientX clientY : num)
| InstructionsClick (button : Z)
| PointerLockChange (element : option Dom.ElementRef)
| CanvasPointerLockChange
| PointerLockError
| Resize (width height : num)
| Timeout (id : nat).

(** Run the closures registered for ['pointerlockchange'], each once. *)
Definition run_listener (l : Dom.Listener) (st : State) : State :=
  match l with
  | Dom.OnLock p => on_player (PlayerController.onLock p) st
  | Dom.OnUnlock p => on_player (PlayerController.onUnlock p) st
  end.

(** [animate()]: the controller moves, then the frame is rendered.  The
    visitors' [update()] in between sways their own figures and turns their
    thought bubbles to the camera, which it only reads; it is left out with
    them. *)
Definition animate (delta : num) (st : State) : State :=
  let st := match player st with
            | Some c => set_player (PlayerController.update delta c) st
            | None => st
            end in
  set_gallery (artworks st) (Scene.render (store st)) (scene st) st.

(** One event, through the listeners in the order they were registered:
    those of the controller ([setupPlayer]) before those of
    [setupEventListeners]. *)
Definition step (ev : Event) (st : State) : State :=
  match ev with
  | Frame delta => animate delta st
  | KeyDown code key =>
      let st := on_player (PlayerController.onKeyDown code) st in
      let st := if bool_decide (key = "Escape"%string) && locked st
                then unlock_catch st else st in
      if locked st then on_player (PlayerController.onKeyDown code) st else st
  | KeyUp code =>
      let up := fun w c => (w, PlayerController.onKeyUp code c) in
      on_player up (on_player up st)
  | MouseMove movementX clientX clientY =>
      let move := fun w c => (w, PlayerController.onMouseMove movementX c) in
      onPointerMove clientX clientY (on_player move st)
  | Click button clientX clientY =>
      let st := on_player
                  (fun w c => let '(w, c, _) := PlayerController.lock w c in (w, c))
                  st in
      if bool_decide (button = 0%Z) then
        if negb (locked st) then lock_catch "Failed to lock pointer: " st
        else handleArtworkClick clientX clientY st
      else st
  | ContextMenu clientX clientY =>
      if locked st then handleArtworkClick clientX clientY st
      else lock_catch EmptyString st
  | InstructionsClick button =>
      if bool_decide (button = 0%Z) && negb (locked st)
      then lock_catch EmptyString st else st
  | PointerLockChange element =>
      let w := Dom.with_document
                 (Dom.set_pointerLockElement element (Dom.document (world st)))
                 (world st) in
      let st := on_player PlayerController.onPointerlockChange (set_world w st) in
      let ls := Dom.document_listeners (Dom.document (world st)) in
      let w := Dom.with_document
                 (Dom.set_document_listeners [] (Dom.document (world st)))
                 (world st) in
      foldl (fun st l => run_listener l st) (set_world w st) ls
  | CanvasPointerLockChange =>
      let ls := Dom.canvas_listeners (Dom.canvas (world st)) in
      let w := Dom.with_canvas
                 (Dom.set_canvas_listeners [] (Dom.canvas (world st)))
                 (world st) in
      foldl (fun st l => run_listener l st) (set_world w st) ls
  | PointerLockError =>
      set_world (PlayerController.onPointerlockError (world st)) st
  | Resize width height => set_window width height st
  | Timeout id =>
      if bool_decide (id ∈ Dom.timers (world st)) then
        let w := Dom.clearTimeout id (world st) in
        let d := Dom.document w in
        let d := Dom.set_info (Dom.title d) (Dom.artist d)
                   ((fun _ => false) <$> Dom.info_panel d) d in
        set_infoTimeout None (set_world (Dom.with_document d w) st)
      else st
  end.

(** A session: the events in the order the browser delivers them. *)
Definition run (evs : list Event) (st : State) : State :=
  foldl (fun st ev => step ev st) st evs.

(** [init()], as far as the gallery logic goes: an empty registry, then
    [createArtworks()] and [setupPlayer()].  [first] is the identity of the
    first node the registry creates, [w] the page the script is loaded in. *)
Definition init (items : list Scene.ArtworkData) (first : Scene.ObjId)
    (scenery : list Scene.ObjId) (cam : PlayerController.Camera)
    (width height : num) (w : Dom.World) : State :=
  setupPlayer cam
    (createArtworks items
       {| player := None; artworks := [];
          store := {| Scene.objects := ∅; Scene.next := first |};
          scene := scenery;
          mouse := {| x := int 0; y := int 0 |};
          infoTimeout := None;
          innerWidth := width; innerHeight := height;
          world := w |}).

End WithNumber.
End Main.

(* ===================================================================== *)
(** ** GalleryVisitor (src/unnamed/part_000): the lines of a thought bubble *)
(* ===================================================================== *)

(** Of a visitor the model keeps the text layout of [updateThoughtBubble]:
    how a thought is broken into the lines that are drawn.  A string is the
    sequence of its code units; [String.length] and [substring] count them
    as [length] and [substring] do in the source. *)
Module GalleryVisitor.

(** [THOUGHTS] *)
Definition THOUGHTS : list string :=
  [ "What an interesting piece...";
    "Fascinating artwork!";
    "I love the colors in this one.";
    "This reminds me of something...";
    "How creative!";
    "I could look at this all day.";
    "The artist is very talented.";
    "This speaks to me.";
    "What was the inspiration?";
    "I wonder how long this took " ]%string.

(** [text.split(sep)] for a separator of one unit: the pieces between the
    separators, empty pieces included; the empty string gives one empty
    piece. *)
Fixpoint split (sep : Ascii.ascii) (text : string) : list string :=
  match text with
  | EmptyString => [EmptyString]
  | String c rest =>
      if Ascii.eqb c sep then EmptyString :: split sep rest
      else match split sep rest with
           | word :: words => String c word :: words
           | [] => [String c EmptyString]
           end
  end.

(** [lines.join(sep)], the inverse the statements compare with. *)
Fixpoint join (sep : string) (lines : list string) : string :=
  match lines with
  | [] => EmptyString
  | [line] => line
  | line :: rest => line +:+ sep +:+ join sep rest
  end.

(** A string in a condition: the empty string is falsy. *)
Definition nonempty (s : string) : bool := negb (bool_decide (s = EmptyString)).

Section WithNumber.
Context {N : Number}.

(** The comparison [a <= b] of the numbers, and [ctx.measureText(s).width]
    for the font the bubble is drawn in: both belong to the host. *)
Variable le : num -> num -> bool.
Variable measureText : string -> num.

(** [maxWidth] and [maxLines] of [updateThoughtBubble]. *)
Definition maxWidth : num := int 300.
Definition maxLines : nat := 3.

(** The loop [for (const word of words)]: the words still to place, the
    [line] being filled and the [lines] already closed.  The loop ends with
    the words, or at the [break] once [maxLines] lines are closed. *)
Fixpoint wrap_loop (words : list string) (line : string) (lines : list string)
    : string * list string :=
  match words with
  | [] => (line, lines)
  | word :: rest =>
      let testLine := if nonempty line then line +:+ " " +:+ word else word in
      if le (measureText testLine) maxWidth || bool_decide (line = EmptyString)
      then wrap_loop rest testLine lines
      else
        let lines := lines ++ [line] in
        let line := word in
        if bool_decide (maxLines <= length lines)%nat then (line, lines)
        else wrap_loop rest line lines
  end.

(** The lines [updateThoughtBubble(text)] draws: the loop, then the last
    line is added if there is room for it, or else the last closed line is
    cut to 15 units and an ellipsis. *)
Definition wrap (text : string) : list string :=
  let words := split Ascii.Space text in
  let '(line, lines) := wrap_loop words EmptyString [] in
  if nonempty line && bool_decide (length lines < maxLines)%nat
  then lines ++ [line]
  else if bool_decide (maxLines <= length lines)%nat then
    match last lines with
    | Some lastLine =>
        if bool_decide (15 < String.length lastLine)%nat
        then <[(length lines - 1)%nat := (String.substring 0 15 lastLine +:+ "...")%string]> lines
        else lines
    | None => lines
    end
  else lines.

End WithNumber.
End GalleryVisitor.

(* ===================================================================== *)
(** ** Notions used by the statements *)
(* ===================================================================== *)

Section Notions.
Context {N : Number}.

(** What of a controller the player experiences: where the camera stands and
    which way it is turned. *)
Definition stance (c : PlayerController.t) : Vector3.t * option num :=
  (PlayerController.position (PlayerController.camera c), PlayerController.yaw c).

(** The page offers no way to request the pointer. *)
Definition capture_unavailable (w : Dom.World) : Prop :=
  Dom.requestPointerLock (Dom.canvas w) = None
  /\ Dom.mozRequestPointerLock (Dom.canvas w) = None
  /\ Dom.webkitRequestPointerLock (Dom.canvas w) = None.

(** The artworks whose hover state is [Highlighted]. *)
Definition highlighted (arts : list Artwork.t) : list Artwork.t :=
  filter (fun a => Artwork.isHovered a = true) arts.

(** The stance of the player of a state, if there is a player. *)
Definition player_stance (st : Main.State) : option (Vector3.t * option num) :=
  stance <$> Main.player st.

(** A page after [lock()] was refused: it holds one more promise, rejected. *)
Definition refused (w : Dom.World) : Dom.World :=
  Dom.with_promises
    (Dom.promises w ++ [Dom.Rejected "Pointer Lock API not supported"]) w.

(** No artwork is highlighted. *)
Definition all_normal (arts : list Artwork.t) : Prop :=
  Forall (fun a => Artwork.isHovered a = false) arts.

(** The registry, the nodes and the scene of a state. *)
Definition gallery (st : Main.State)
    : list Artwork.t * Scene.Store * list Scene.ObjId :=
  (Main.artworks st, Main.store st, Main.scene st).

(** The three nodes [new Artwork(...)] leaves in the store. *)
Definition group_node (index total : nat) (radius : num)
    (frame artwork : Scene.ObjId) : Scene.Object3D :=
  let p := Vector3.set (Math_sin (Artwork.angle index total) * radius)
             (dec 16 1)
             (Math_cos (Artwork.angle index total) * radius) in
  {| Scene.position := p;
     Scene.lookAt := Some (Vector3.set (int 0) (dec 16 1) (int 0));
     Scene.scale := Vector3.set (int 1) (int 1) (int 1);
     Scene.matrixWorld :=
       {| Scene.pose_position := p; Scene.pose_lookAt := None;
          Scene.pose_scale := Vector3.set (int 1) (int 1) (int 1) |};
     Scene.geometry := None; Scene.color := None; Scene.emissive := None;
     Scene.userData := None; Scene.children := [frame; artwork] |}.

(** The frame: a dark grey box. *)
Definition frame_node : Scene.Object3D :=
  Scene.fresh_node (Some (Scene.BoxGeometry (dec 32 1) (dec 22 1) (dec 1 1)))
    (Some 0x333333%Z) (Some 0x000000%Z).

(** The picture: a plane just in front of the frame, tagged with the data
    of the artwork. *)
Definition picture_node (d : Scene.ArtworkData) : Scene.Object3D :=
  {| Scene.position := Vector3.set (int 0) (int 0) (dec 6 2);
     Scene.lookAt := None;
     Scene.scale := Vector3.set (int 1) (int 1) (int 1);
     Scene.matrixWorld := Scene.identity_pose;
     Scene.geometry := Some (Scene.PlaneGeometry (int 3) (int 2));
     Scene.color := Some 0xffffff%Z; Scene.emissive := Some 0x000000%Z;
     Scene.userData := Some {| Scene.type := "artwork"; Scene.data := d |};
     Scene.children := [] |}.

(** The artwork [new Artwork(...)] returns when the next free identity is
    [g]. *)
Definition artwork_at (d : Scene.ArtworkData) (index total : nat)
    (radius : num) (g : Scene.ObjId) : Artwork.t :=
  {| Artwork.data := d; Artwork.index := index; Artwork.total := total;
     Artwork.radius := radius;
     Artwork.group := g; Artwork.frame := S g; Artwork.artwork := S (S g);
     Artwork.isHovered := false;
     Artwork.originalScale := int 1; Artwork.highlightScale := dec 105 2;
     Artwork.highlightColor := 0xffffff%Z; Artwork.originalColor := 0x333333%Z |}.

(** What never changes of a node once it is in the scene: its tag and its
    children. *)
Definition skeleton (o : Scene.Object3D)
    : option Scene.UserData * list Scene.ObjId :=
  (Scene.userData o, Scene.children o).

(** What never changes of an artwork. *)
Definition identity (a : Artwork.t)
    : Scene.ArtworkData * Scene.ObjId * Scene.ObjId * Scene.ObjId :=
  (Artwork.data a, Artwork.group a, Artwork.frame a, Artwork.artwork a).


(** The part of a state the registry invariant speaks about. *)
Definition shape (st : Main.State) :=
  (identity <$> Main.artworks st,
   skeleton <$> Scene.objects (Main.store st)).

End Notions.

Section LayoutNotions.
Context {N : Number}.
Local Open Scope nat_scope.

(** The node [createArtworks] places under identity [o], for a manifest
    [items] whose first artwork has position [index] and group [g]: every
    artwork takes three consecutive identities, for its group, its frame and
    its picture. *)
Definition placed (items : list Scene.ArtworkData) (index total : nat)
    (g : Scene.ObjId) (o : Scene.ObjId) (node : Scene.Object3D) : Prop :=
  exists k d,
    items !! k = Some d
    /\ ((o = g + 3 * k
         /\ node = group_node (index + k) total (int 15) (S o) (S (S o)))
        \/ (o = g + 3 * k + 1 /\ node = frame_node)
        \/ (o = g + 3 * k + 2 /\ node = picture_node d)).

End LayoutNotions.

Section ExactNotions.
Local Open Scope R_scope.

Local Abbreviation Controller := (PlayerController.t (N := Real)).
Local Abbreviation Vec := (Vector3.t (N := Real)).

(** The two directions [update] builds from the yaw. *)
Definition facing (yaw : R) : Vec := Vector3.set (sin yaw) 0 (cos yaw).

Definition rightward (yaw : R) : Vec :=
  Vector3.set (sin (yaw + PI / 2)) 0 (cos (yaw + PI / 2)).

(** The vector [update] accumulates from the flags before it normalises. *)
Definition wish (c : Controller) : Vec :=
  let y := or0 (PlayerController.yaw c) in
  let v := Vector3.set 0 0 0 in
  let v := if PlayerController.moveForward c then Vector3.add v (facing y) else v in
  let v := if PlayerController.moveBackward c then Vector3.sub v (facing y) else v in
  let v := if PlayerController.moveLeft c then Vector3.sub v (rightward y) else v in
  let v := if PlayerController.moveRight c then Vector3.add v (rightward y) else v in
  v.

(** 1 for a flag that is set, 0 otherwise. *)
Definition weight (b : bool) : R := if b then 1 else 0.

(** The controller right after the pointer is captured, with one flag of
    the four set by hand. *)
Definition start : Controller :=
  PlayerController.set_isLocked true
    (PlayerController.new
       {| PlayerController.position := Vector3.new;
          PlayerController.lookAt := Vector3.new |}).

(** The height of the camera of a state's player. *)
Definition eye_height (st : Main.State (N := Real)) : option R :=
  (fun c => Vector3.y (PlayerController.position (PlayerController.camera c)))
    <$> Main.player st.

(** The angle of entity [i] of [n]. *)
Definition theta (i n : nat) : R := INR i / INR n * (2 * PI).

(** A ray cast that hits nothing, a page without pointer capture, and the
    gallery that starts in it. *)
Definition no_hits : Main.Raycaster (N := Real) := fun _ _ _ _ => [].

Definition bare_page : Dom.World :=
  {| Dom.canvas :=
       {| Dom.requestPointerLock := None; Dom.mozRequestPointerLock := None;
          Dom.webkitRequestPointerLock := None; Dom.canvas_listeners := [] |};
     Dom.document :=
       {| Dom.exitPointerLock := None; Dom.mozExitPointerLock := None;
          Dom.webkitExitPointerLock := None; Dom.pointerLockElement := None;
          Dom.document_listeners := [];
          Dom.blocker := Some "block"%string; Dom.crosshair := Some "none"%string;
          Dom.title := Some EmptyString; Dom.artist := Some EmptyString;
          Dom.info_panel := Some false; Dom.cursor := "default" |};
     Dom.promises := []; Dom.lock_requests := 0; Dom.exit_requests := 0;
     Dom.console_error := []; Dom.timers := []; Dom.next_timer := 1 |}.

Definition fresh_player : PlayerController.t (N := Real) :=
  PlayerController.new
    {| PlayerController.position := Vector3.new;
       PlayerController.lookAt := Vector3.new |}.

(** Walking forward and strafing at once, from the start. *)
Definition diagonal : PlayerController.t (N := Real) :=
  PlayerController.set_moveRight true (PlayerController.set_moveForward true start).

End ExactNotions.

Section Binary64Notions.
#[local] Set Warnings "-inexact-float".
Variables host_sin host_cos : float -> float.

(** [x || 0] on a double. *)
Definition float_or_zero (x : float) : float :=
  if float_truthy x then x else PrimFloat.zero.

(** A fresh controller in binary64, once the pointer is captured. *)
Definition captured_controller
    : PlayerController.t (N := Binary64 host_sin host_cos) :=
  PlayerController.set_isLocked true
    (PlayerController.new (N := Binary64 host_sin host_cos)
       {| PlayerController.position := Vector3.new;
          PlayerController.lookAt := Vector3.new |}).

(** A page with pointer capture and all its elements. *)
Definition gallery_page : Dom.World :=
  {| Dom.canvas :=
       {| Dom.requestPointerLock := Some Dom.StandardApi;
          Dom.mozRequestPointerLock := None;
          Dom.webkitRequestPointerLock := None; Dom.canvas_listeners := [] |};
     Dom.document :=
       {| Dom.exitPointerLock := Some Dom.StandardApi;
          Dom.mozExitPointerLock := None;
          Dom.webkitExitPointerLock := None; Dom.pointerLockElement := None;
          Dom.document_listeners := [];
          Dom.blocker := Some "block"%string; Dom.crosshair := Some "none"%string;
          Dom.title := Some EmptyString; Dom.artist := Some EmptyString;
          Dom.info_panel := Some false; Dom.cursor := "default" |};
     Dom.promises := []; Dom.lock_requests := 0; Dom.exit_requests := 0;
     Dom.console_error := []; Dom.timers := []; Dom.next_timer := 1 |}.

(** A ray that meets a piece of scenery (node 3), then the picture of the
    first artwork (node 12), then the picture of the second (node 15). *)
Definition three_hits : Main.Raycaster (N := Binary64 host_sin host_cos) :=
  fun _ _ _ _ =>
    [ Scene.Build_Intersection (N := Binary64 host_sin host_cos) 1%float 3;
      Scene.Build_Intersection (N := Binary64 host_sin host_cos) 2%float 12;
      Scene.Build_Intersection (N := Binary64 host_sin host_cos) 3%float 15 ].

(** A visit: the six artworks are created from node 10 on, the visitor
    clicks to capture the pointer, the browser confirms, the pointer moves,
    and the visitor clicks again. *)
Definition visit : Main.State (N := Binary64 host_sin host_cos) :=
  Main.run three_hits
    [ Main.Click (N := Binary64 host_sin host_cos) 0 1%float 1%float;
      Main.PointerLockChange (Some Dom.Canvas);
      Main.MouseMove (N := Binary64 host_sin host_cos)
        (Some 5%float) 400%float 300%float;
      Main.Click (N := Binary64 host_sin host_cos) 0 400%float 300%float ]
    (Main.init (N := Binary64 host_sin host_cos) Main.ARTWORKS 10 [0; 1; 2]
       (PlayerController.Build_Camera (N := Binary64 host_sin host_cos)
          Vector3.new Vector3.new)
       800%float 600%float gallery_page).

(** A controller in binary64 once the pointer is captured, the pointer has
    moved by 6 pixels (the yaw is then -0.012) and the W key is down. *)
Definition walker : PlayerController.t (N := Binary64 host_sin host_cos) :=
  (PlayerController.onKeyDown (N := Binary64 host_sin host_cos) "KeyW"
     gallery_page
     (PlayerController.onMouseMove (N := Binary64 host_sin host_cos)
        (Some 6%float) (captured_controller))).2.

(** The double nearest to the sine of -0.012, -0.011999712002073594, and
    its two neighbours; the double nearest to the cosine of -0.012,
    0.9999280008639958, and its two neighbours.  A [Math.sin] or [Math.cos]
    that is off by less than one unit in the last place returns one of the
    three. *)
Definition sines_of_the_turn : list float :=
  [ (-0x1.8934e14e1f1f5p-7)%float; (-0x1.8934e14e1f1f4p-7)%float;
    (-0x1.8934e14e1f1f3p-7)%float ].

Definition cosines_of_the_turn : list float :=
  [ 0x1.fff6901c218c0p-1%float; 0x1.fff6901c218c1p-1%float;
    0x1.fff6901c218c2p-1%float ].

End Binary64Notions.


(* ===================================================================== *)
(** ** Notions of the further statements *)
(* ===================================================================== *)

Section SessionNotions.
Context {N : Number}.

(** What the renderer and the movement read of a controller's aim. *)
Definition view (c : PlayerController.t) :=
  (PlayerController.camera c, PlayerController.direction c,
   PlayerController.target c, PlayerController.yaw c).

(** The page offers a way to request the pointer. *)
Definition capture_available (w : Dom.World) : Prop :=
  is_Some (Dom.or_else (Dom.requestPointerLock (Dom.canvas w))
             (Dom.or_else (Dom.mozRequestPointerLock (Dom.canvas w))
                (Dom.webkitRequestPointerLock (Dom.canvas w)))).

(** The page offers a way to release the pointer, or none. *)
Definition release_available (w : Dom.World) : Prop :=
  is_Some (Dom.or_else (Dom.exitPointerLock (Dom.document w))
             (Dom.or_else (Dom.mozExitPointerLock (Dom.document w))
                (Dom.webkitExitPointerLock (Dom.document w)))).

Definition release_unavailable (w : Dom.World) : Prop :=
  Dom.exitPointerLock (Dom.document w) = None
  /\ Dom.mozExitPointerLock (Dom.document w) = None
  /\ Dom.webkitExitPointerLock (Dom.document w) = None.

(** [document.pointerLockElement === this.domElement] *)
Definition holds_pointer (element : option Dom.ElementRef) : bool :=
  match element with
  | Some Dom.Canvas => true
  | _ => false
  end.

(** The closures that wait on the document for ['pointerlockchange']. *)
Definition waiting (st : Main.State) : list Dom.Listener :=
  Dom.document_listeners (Dom.document (Main.world st)).

(** The last of them is a closure of [unlock()]. *)
Definition unlock_waits (st : Main.State) : Prop :=
  exists ls p, waiting st = ls ++ [Dom.OnUnlock p].

(** The events by which the document reports a change of the pointer lock. *)
Definition is_lock_change (ev : Main.Event) : bool :=
  match ev with
  | Main.PointerLockChange _ => true
  | _ => false
  end.

(** The page has the three elements of the info panel. *)
Definition has_info_panel (w : Dom.World) : Prop :=
  is_Some (Dom.title (Dom.document w))
  /\ is_Some (Dom.artist (Dom.document w))
  /\ is_Some (Dom.info_panel (Dom.document w)).

(** What [showArtworkInfo] and its timer work on: the two texts, the
    panel, the timers that are pending, the next timer id, and the timer
    [state] remembers. *)
Definition billboard (st : Main.State) :=
  (Dom.title (Dom.document (Main.world st)),
   Dom.artist (Dom.document (Main.world st)),
   Dom.info_panel (Dom.document (Main.world st)),
   Dom.timers (Main.world st), Dom.next_timer (Main.world st),
   Main.infoTimeout st).

(** The same of a page alone. *)
Definition panel (w : Dom.World) :=
  (Dom.title (Dom.document w), Dom.artist (Dom.document w),
   Dom.info_panel (Dom.document w), Dom.timers w, Dom.next_timer w).

(** The timer [state] remembers is the one timer that is pending. *)
Definition one_timer (st : Main.State) : Prop :=
  (0 < Dom.next_timer (Main.world st))%nat
  /\ match Main.infoTimeout st with
     | Some id => Dom.timers (Main.world st) = [id]
                  /\ (0 < id < Dom.next_timer (Main.world st))%nat
     | None => Dom.timers (Main.world st) = []
     end.

(** What the gallery never changes of a node once it is made: where it
    stands, what it faces, its shape, its colour, its tag, its children. *)
Definition fixture (o : Scene.Object3D) :=
  (Scene.position o, Scene.lookAt o, Scene.geometry o, Scene.color o,
   Scene.userData o, Scene.children o).

(** An artwork looks as its hover flag says: its group is enlarged and its
    frame glows exactly when it is hovered. *)
Definition styled (s : Scene.Store) (a : Artwork.t) : Prop :=
  exists group frame,
    Scene.objects s !! Artwork.group a = Some group
    /\ Scene.objects s !! Artwork.frame a = Some frame
    /\ Scene.scale group
       = (if Artwork.isHovered a
          then Vector3.set (Artwork.highlightScale a) (Artwork.highlightScale a)
                 (Artwork.highlightScale a)
          else Vector3.set (int 1) (int 1) (int 1))
    /\ Scene.emissive frame
       = Some (if Artwork.isHovered a then 0x333333 else 0x000000)%Z.

(** No two artworks share a group or a frame, and no group is a frame. *)
Definition separate (arts : list Artwork.t) : Prop :=
  forall i j a b,
    arts !! i = Some a -> arts !! j = Some b ->
    Artwork.group a <> Artwork.frame b
    /\ (i <> j -> Artwork.group a <> Artwork.group b
                  /\ Artwork.frame a <> Artwork.frame b).

(** An artwork whose group and frame are none of those of a list. *)
Definition aloof (arts : list Artwork.t) (b : Artwork.t) : Prop :=
  forall a, a ∈ arts ->
    Artwork.group b <> Artwork.group a /\ Artwork.group b <> Artwork.frame a
    /\ Artwork.frame b <> Artwork.group a /\ Artwork.frame b <> Artwork.frame a.

End SessionNotions.

Section ExactSessionNotions.
Local Open Scope R_scope.

(** The camera looks from where it stands to the point one unit ahead in
    the direction of the yaw. *)
Definition aimed (c : PlayerController.t (N := Real)) : Prop :=
  PlayerController.lookAt (PlayerController.camera c)
  = Vector3.add (PlayerController.position (PlayerController.camera c))
      (facing (or0 (PlayerController.yaw c)))
  /\ PlayerController.direction c = facing (or0 (PlayerController.yaw c))
  /\ PlayerController.target c
     = PlayerController.lookAt (PlayerController.camera c).

(** A gallery without artworks around a controller, in a window of 800 by
    600 of a given page. *)
Definition room (c : PlayerController.t (N := Real)) (w : Dom.World)
    : Main.State (N := Real) :=
  {| Main.player := Some c; Main.artworks := [];
     Main.store := {| Scene.objects := ∅; Scene.next := 0 |};
     Main.scene := [];
     Main.mouse := {| Main.x := 0; Main.y := 0 |};
     Main.infoTimeout := None;
     Main.innerWidth := 800; Main.innerHeight := 600;
     Main.world := w |}.

(** A page with pointer capture whose info panel is missing. *)
Definition page_without_panel : Dom.World :=
  Dom.with_document
    (Dom.set_info (Some EmptyString) (Some EmptyString) None
       (Dom.document gallery_page))
    gallery_page.

(** The first artwork of the manifest, alone in a scene. *)
Definition lone_artwork : Artwork.t (N := Real) * Scene.Store (N := Real) :=
  Artwork.new (N := Real)
    {| Scene.image := "socrates.jpg"; Scene.title := "The Death of Socrates";
       Scene.artist := "Jacques-Louis David" |} 0 1 None
    {| Scene.objects := ∅; Scene.next := 0 |}.

End ExactSessionNotions.

Section Binary64SessionNotions.

(** A font in which every unit of a string is 12 pixels wide. *)
Definition twelve_pixels_each (s : string) : float :=
  PrimFloat.mul 12%float (float_of_Z (Z.of_nat (String.length s))).

End Binary64SessionNotions.

(* ===================================================================== *)
(** ** The highlight of an artwork *)
(* ===================================================================== *)

Section Highlight.
Context {N : Number}.

Lemma setHighlight_flag (flag : bool) (a : Artwork.t) (s : Scene.Store) :
  Artwork.isHovered (Artwork.setHighlight flag a s).1 = flag.
Proof.
  unfold Artwork.setHighlight.
  destruct flag, (Artwork.isHovered a) eqn:E; simpl; auto.
Qed.

(** C6.  [setHighlight] is idempotent: after [setHighlight(flag)], a second
    [setHighlight(flag)] leaves the artwork and every node of the scene as
    they are, so scale, emissive colour and hover flag are those of a single
    call. *)
Theorem setHighlight_idempotent (flag : bool) (a : Artwork.t) (s : Scene.Store) :
  Artwork.setHighlight flag (Artwork.setHighlight flag a s).1
                            (Artwork.setHighlight flag a s).2
  = Artwork.setHighlight flag a s.
Proof.
  pose proof (setHighlight_flag flag a s) as Hflag.
  destruct (Artwork.setHighlight flag a s) as [a1 s1]; simpl in *.
  unfold Artwork.setHighlight. rewrite Hflag.
  destruct flag; reflexivity.
Qed.

End Highlight.

(* ===================================================================== *)
(** ** The controller while unlocked, and a refused lock *)
(* ===================================================================== *)

Section Lifecycle.
Context {N : Number}.
Variable intersectObjects : Main.Raycaster.

Local Abbreviation step := (Main.step intersectObjects).
Local Abbreviation State := Main.State.

Lemma lock_controller (w : Dom.World) (c : PlayerController.t) :
  (PlayerController.lock w c).1.2 = c.
Proof.
  unfold PlayerController.lock. simpl.
  destruct (Dom.or_else _ _); reflexivity.
Qed.

Lemma unlock_stance (w : Dom.World) (c : PlayerController.t) :
  stance (PlayerController.unlock w c).1.2 = stance c.
Proof.
  unfold PlayerController.unlock. simpl.
  destruct (Dom.or_else _ _); reflexivity.
Qed.

Lemma onKeyDown_stance (code : string) (w : Dom.World) (c : PlayerController.t) :
  stance (PlayerController.onKeyDown code w c).2 = stance c.
Proof.
  unfold PlayerController.onKeyDown.
  repeat (match goal with |- context [PlayerController.is_code ?a ?b] =>
            destruct (PlayerController.is_code a b) end); try reflexivity.
  pose proof (unlock_stance w c) as H.
  destruct (PlayerController.unlock w c) as [[w' c'] p]. exact H.
Qed.

Lemma onKeyUp_stance (code : string) (c : PlayerController.t) :
  stance (PlayerController.onKeyUp code c) = stance c.
Proof.
  unfold PlayerController.onKeyUp.
  repeat (match goal with |- context [PlayerController.is_code ?a ?b] =>
            destruct (PlayerController.is_code a b) end); reflexivity.
Qed.

Lemma onPointerlockChange_stance (w : Dom.World) (c : PlayerController.t) :
  stance (PlayerController.onPointerlockChange w c).2 = stance c.
Proof.
  unfold PlayerController.onPointerlockChange.
  destruct (negb _); reflexivity.
Qed.

Lemma on_player_stance h (st : State) :
  (forall w c, stance (h w c).2 = stance c) ->
  player_stance (Main.on_player h st) = player_stance st.
Proof.
  intros Hh. unfold Main.on_player, player_stance.
  destruct (Main.player st) as [c|] eqn:E; [|by rewrite ?E].
  specialize (Hh (Main.world st) c).
  destruct (h (Main.world st) c) as [w' c']. simpl in *. by rewrite Hh.
Qed.

Lemma lock_catch_player (prefix : string) (st : State) :
  Main.player (Main.lock_catch prefix st) = Main.player st.
Proof.
  unfold Main.lock_catch.
  destruct (Main.player st) as [c|] eqn:E; [|done].
  pose proof (lock_controller (Main.world st) c) as H.
  destruct (PlayerController.lock (Main.world st) c) as [[w' c'] p].
  simpl in *. by subst.
Qed.

Lemma unlock_catch_stance (st : State) :
  player_stance (Main.unlock_catch st) = player_stance st.
Proof.
  unfold Main.unlock_catch, player_stance.
  destruct (Main.player st) as [c|] eqn:E; [|by rewrite ?E].
  pose proof (unlock_stance (Main.world st) c) as H.
  destruct (PlayerController.unlock (Main.world st) c) as [[w' c'] p].
  simpl in *. by rewrite H.
Qed.

Lemma showArtworkInfo_player (title artist : string) (st : State) :
  Main.player (Main.showArtworkInfo title artist st) = Main.player st.
Proof.
  unfold Main.showArtworkInfo.
  destruct (Dom.title (Dom.document (Main.world st))),
    (Dom.artist (Dom.document (Main.world st))),
    (Dom.info_panel (Dom.document (Main.world st))); try reflexivity.
  destruct (Main.infoTimeout st) as [[|id]|]; reflexivity.
Qed.

Lemma handleArtworkClick_player (cx cy : num) (st : State) :
  Main.player (Main.handleArtworkClick intersectObjects cx cy st) = Main.player st.
Proof.
  unfold Main.handleArtworkClick.
  destruct (Main.player st) as [c|] eqn:E; [|done].
  destruct (negb _); [done|].
  destruct (Main.click_pass _ _ _ _ _); [|done].
  destruct (Main.userData_data _ _); [|done].
  by rewrite showArtworkInfo_player.
Qed.

Lemma onPointerMove_player (cx cy : num) (st : State) :
  Main.player (Main.onPointerMove intersectObjects cx cy st) = Main.player st.
Proof.
  unfold Main.onPointerMove.
  destruct (Main.player st) as [c|] eqn:E; [|done].
  destruct (negb _); [done|].
  unfold Main.hover_pass.
  simpl. destruct (Main.reset_highlights _ _) as [arts s]. simpl.
  destruct (Main.hover_loop _ _ _) as [[found arts'] s']. simpl. exact E.
Qed.

Lemma run_listeners_stance (ls : list Dom.Listener) (st : State) :
  player_stance (foldl (fun st l => Main.run_listener l st) st ls)
  = player_stance st.
Proof.
  revert st. induction ls as [|l ls IH]; intros st; [reflexivity|].
  simpl. rewrite IH. destruct l; apply on_player_stance; reflexivity.
Qed.

Lemma step_stance_unless_moving (ev : Main.Event) (st : State) :
  match ev with
  | Main.Frame _ | Main.MouseMove _ _ _ => True
  | _ => player_stance (step ev st) = player_stance st
  end.
Proof.
  destruct ev; simpl; try exact I.
  - (* KeyDown *)
    set (st1 := Main.on_player (PlayerController.onKeyDown code) st).
    assert (H1 : player_stance st1 = player_stance st)
      by apply on_player_stance, onKeyDown_stance.
    set (st2 := if _ && _ then _ else _).
    assert (H2 : player_stance st2 = player_stance st).
    { subst st2. destruct (_ && _); [by rewrite unlock_catch_stance|done]. }
    destruct (Main.locked st2); [|done].
    rewrite on_player_stance; [done|apply onKeyDown_stance].
  - (* KeyUp *)
    rewrite !on_player_stance; [done| |]; intros; apply onKeyUp_stance.
  - (* Click *)
    set (st1 := Main.on_player _ st).
    assert (H1 : player_stance st1 = player_stance st).
    { apply on_player_stance. intros w c.
      pose proof (lock_controller w c) as H.
      destruct (PlayerController.lock w c) as [[w' c'] p]. simpl in *.
      by subst. }
    destruct (bool_decide _); [|done].
    destruct (negb _); unfold player_stance in *.
    + by rewrite lock_catch_player.
    + by rewrite handleArtworkClick_player.
  - (* ContextMenu *)
    unfold player_stance.
    destruct (Main.locked st).
    + by rewrite handleArtworkClick_player.
    + by rewrite lock_catch_player.
  - (* InstructionsClick *)
    unfold player_stance.
    destruct (_ && _); [by rewrite lock_catch_player|done].
  - (* PointerLockChange *)
    rewrite run_listeners_stance.
    change (player_stance (Main.set_world ?w ?s)) with (player_stance s).
    rewrite on_player_stance; [done|apply onPointerlockChange_stance].
  - (* CanvasPointerLockChange *)
    by rewrite run_listeners_stance.
  - (* PointerLockError *) done.
  - (* Resize *) done.
  - (* Timeout *) by destruct (bool_decide _).
Qed.

(** C8.  An unlocked controller stays where it is: [update] and
    [onMouseMove] return it unchanged whatever the frame time, the movement
    flags and the pointer movement, and no event the browser delivers moves
    its camera or turns its yaw. *)
Theorem unlocked_player_keeps_stance (c : PlayerController.t) :
  PlayerController.isLocked c = false ->
  (forall delta, PlayerController.update delta c = c)
  /\ (forall movementX, PlayerController.onMouseMove movementX c = c)
  /\ (forall ev st, Main.player st = Some c ->
        player_stance (step ev st) = Some (stance c)).
Proof.
  intros Hc. split; [|split].
  - intros delta. unfold PlayerController.update. by rewrite Hc.
  - intros mx. unfold PlayerController.onMouseMove. by rewrite Hc.
  - intros ev st Hst.
    assert (Hs : player_stance st = Some (stance c))
      by (unfold player_stance; by rewrite Hst).
    pose proof (step_stance_unless_moving ev st) as H.
    destruct ev; try (by rewrite H).
    + (* Frame *)
      simpl. unfold Main.animate, player_stance. rewrite Hst. simpl.
      unfold PlayerController.update. by rewrite Hc.
    + (* MouseMove *)
      simpl. unfold player_stance. rewrite onPointerMove_player.
      unfold Main.on_player. rewrite Hst. simpl.
      unfold PlayerController.onMouseMove. by rewrite Hc.
Qed.

End Lifecycle.

Section RefusedLock.
Context {N : Number}.
Variable intersectObjects : Main.Raycaster.

Lemma with_canvas_same (w : Dom.World) :
  Dom.requestPointerLock (Dom.canvas w) = None ->
  Dom.with_canvas (Dom.set_requestPointerLock None (Dom.canvas w)) w = w.
Proof.
  destruct w as [[r m k ls] d ps lr er ce ts nt]. simpl.
  intros ->. reflexivity.
Qed.

Lemma lock_unavailable (w : Dom.World) (c : PlayerController.t) :
  capture_unavailable w ->
  PlayerController.lock w c
  = (Dom.with_promises
       (Dom.promises w ++ [Dom.Rejected "Pointer Lock API not supported"]) w,
     c, length (Dom.promises w)).
Proof.
  intros (Hr & Hm & Hk). unfold PlayerController.lock. simpl.
  rewrite Hr, Hm, Hk. simpl.
  unfold Dom.settle. simpl.
  rewrite lookup_app_r, Nat.sub_diag by lia. simpl.
  rewrite insert_app_r_alt, Nat.sub_diag by lia. simpl.
  f_equal. f_equal.
  destruct w as [[r m k ls] d ps lr er ce ts nt]. simpl in *. by subst.
Qed.

Lemma click_listener_unavailable (st : Main.State) (c : PlayerController.t) :
  Main.player st = Some c ->
  capture_unavailable (Main.world st) ->
  Main.on_player
    (fun w c => let '(w, c, _) := PlayerController.lock w c in (w, c)) st
  = Main.set_world (refused (Main.world st)) (Main.set_player c st).
Proof.
  intros Hp Hw. unfold Main.on_player. rewrite Hp.
  by rewrite (lock_unavailable _ c Hw).
Qed.

Lemma lock_catch_unavailable (prefix : string) (st : Main.State)
    (c : PlayerController.t) :
  Main.player st = Some c ->
  capture_unavailable (Main.world st) ->
  Main.lock_catch prefix st
  = Main.set_world
      (Dom.log_error (prefix +:+ "Pointer Lock API not supported")
         (refused (Main.world st)))
      (Main.set_player c st).
Proof.
  intros Hp Hw. unfold Main.lock_catch. rewrite Hp.
  rewrite (lock_unavailable _ c Hw). unfold refused. simpl.
  by rewrite lookup_app_r, Nat.sub_diag by lia.
Qed.

(** C9.  Without any entry point to request the pointer, [lock()] returns a
    promise rejected with the error "Pointer Lock API not supported".  The
    controller is returned as it was, so it is still locked or unlocked as
    before; no listener is registered and no request reaches the browser: the
    page only gains the rejected promise.  A left click on the canvas of an
    unlocked gallery then logs the failure and leaves the controller
    untouched and unlocked. *)
Theorem lock_rejects_when_capture_unavailable
    (w : Dom.World) (c : PlayerController.t) :
  capture_unavailable w ->
  (exists p,
     PlayerController.lock w c = (refused w, c, p)
     /\ Dom.promises (refused w) !! p
        = Some (Dom.Rejected "Pointer Lock API not supported"))
  /\ (forall st x y,
        Main.player st = Some c -> Main.world st = w ->
        PlayerController.isLocked c = false ->
        Main.player (Main.step intersectObjects (Main.Click 0 x y) st) = Some c
        /\ Main.locked (Main.step intersectObjects (Main.Click 0 x y) st) = false
        /\ last (Dom.console_error
                   (Main.world (Main.step intersectObjects (Main.Click 0 x y) st)))
           = Some "Failed to lock pointer: Pointer Lock API not supported"%string).
Proof.
  intros Hw. split.
  - exists (length (Dom.promises w)). split; [by apply lock_unavailable|].
    unfold refused. simpl. by rewrite lookup_app_r, Nat.sub_diag by lia.
  - intros st x y Hp Hwst Hc. subst w.
    change (Main.step intersectObjects (Main.Click 0 x y) st)
      with (let st1 := Main.on_player
              (fun w c => let '(w, c, _) := PlayerController.lock w c in (w, c)) st in
            if negb (Main.locked st1)
            then Main.lock_catch "Failed to lock pointer: " st1
            else Main.handleArtworkClick intersectObjects x y st1).
    rewrite (click_listener_unavailable st c Hp Hw). cbv zeta.
    set (st1 := Main.set_world _ _).
    assert (Hl : Main.locked st1 = false) by exact Hc.
    rewrite Hl. simpl negb. cbv iota.
    rewrite (lock_catch_unavailable _ st1 c eq_refl Hw).
    split; [reflexivity|]. split; [exact Hc|].
    simpl. by rewrite last_snoc.
Qed.

End RefusedLock.

(* ===================================================================== *)
(** ** Mouse look *)
(* ===================================================================== *)

Section MouseLookExact.
Local Open Scope R_scope.

Lemma or_zero_real (x : R) : or_zero (N := Real) x = x.
Proof.
  unfold or_zero. simpl. destruct (Req_dec_T x 0); [by subst|reflexivity].
Qed.

Lemma or0_real_Some (x : R) : or0 (N := Real) (Some x) = x.
Proof. apply or_zero_real. Qed.

Lemma yaw_updateTarget (c : PlayerController.t (N := Real)) :
  PlayerController.yaw (PlayerController.updateTarget c) = PlayerController.yaw c.
Proof. reflexivity. Qed.

Lemma onMouseMove_locked_real (mx : option R) (c : PlayerController.t (N := Real)) :
  PlayerController.isLocked c = true ->
  PlayerController.yaw (PlayerController.onMouseMove mx c)
  = Some (or0 (PlayerController.yaw c)
          - or0 mx * PlayerController.rotationSpeed c).
Proof.
  intros H. unfold PlayerController.onMouseMove. rewrite H. reflexivity.
Qed.

Lemma onMouseMove_keeps_settings (mx : option R) (c : PlayerController.t (N := Real)) :
  PlayerController.isLocked (PlayerController.onMouseMove mx c)
  = PlayerController.isLocked c
  /\ PlayerController.rotationSpeed (PlayerController.onMouseMove mx c)
     = PlayerController.rotationSpeed c.
Proof.
  unfold PlayerController.onMouseMove.
  destruct (PlayerController.isLocked c) eqn:E; split; simpl; auto.
Qed.

(** In exact real arithmetic the yaw is a running sum: a pointer move by
    [d] followed by one by [-d] gives back the yaw it started from, as a
    number and as the value [this.yaw || 0] reads; while locked, the move in
    between does turn the yaw by [d] times the sensitivity. *)
Lemma pointer_delta_reversible_in_exact_arithmetic
    (c : PlayerController.t (N := Real)) (d : R) :
  let c1 := PlayerController.onMouseMove (Some d) c in
  let c2 := PlayerController.onMouseMove (Some (- d)) c1 in
  or0 (PlayerController.yaw c2) = or0 (PlayerController.yaw c)
  /\ (forall y, PlayerController.yaw c = Some y -> PlayerController.yaw c2 = Some y)
  /\ (PlayerController.isLocked c = true ->
      PlayerController.yaw c1
      = Some (or0 (PlayerController.yaw c) - d * PlayerController.rotationSpeed c)).
Proof.
  intros c1 c2.
  destruct (PlayerController.isLocked c) eqn:Hl.
  - assert (H1 : PlayerController.yaw c1
                 = Some (or0 (PlayerController.yaw c)
                         - d * PlayerController.rotationSpeed c)).
    { subst c1. rewrite onMouseMove_locked_real by done.
      by rewrite or0_real_Some. }
    destruct (onMouseMove_keeps_settings (Some d) c) as [Hl1 Hs1].
    fold c1 in Hl1, Hs1. rewrite Hl in Hl1.
    assert (H2 : PlayerController.yaw c2 = Some (or0 (PlayerController.yaw c))).
    { subst c2. rewrite onMouseMove_locked_real by done.
      rewrite H1, Hs1, !or0_real_Some. f_equal. simpl. lra. }
    split; [|split].
    + by rewrite H2, or0_real_Some.
    + intros y Hy. by rewrite H2, Hy, or0_real_Some.
    + done.
  - assert (E : c2 = c).
    { subst c2 c1. unfold PlayerController.onMouseMove. by rewrite Hl; simpl; rewrite Hl. }
    rewrite E. split; [done|]. split; [done|]. done.
Qed.

End MouseLookExact.

Section MouseLookBinary64.
#[local] Set Warnings "-inexact-float".
Variables host_sin host_cos : float -> float.

Local Abbreviation B64 := (Binary64 host_sin host_cos).

(** The decimal literals of the program are the doubles the language reads
    them as. *)
Lemma literals_binary64 :
  dec (N := B64) 2 3 = 0.002%float
  /\ dec (N := B64) 1 1 = 0.1%float
  /\ dec (N := B64) 16 1 = 1.6%float
  /\ dec (N := B64) 105 2 = 1.05%float
  /\ dec (N := B64) 6 2 = 0.06%float.
Proof. vm_compute. auto. Qed.

(** The yaw after pointer moves by 50, then 100, then -100 pixels. *)
Lemma yaw_after_moves_binary64 :
  let c1 := PlayerController.onMouseMove (N := B64) (Some 50%float)
              (captured_controller host_sin host_cos) in
  let c2 := PlayerController.onMouseMove (N := B64) (Some 100%float) c1 in
  let c3 := PlayerController.onMouseMove (N := B64) (Some (-100)%float) c2 in
  PlayerController.yaw c1 = Some (-0.1)%float
  /\ PlayerController.yaw c2 = Some (-0.30000000000000004)%float
  /\ PlayerController.yaw c3 = Some (-0.10000000000000003)%float.
Proof. vm_compute. auto. Qed.

(** The visit ends with the first artwork highlighted and shown, the yaw
    turned by five pixels, and one timer running for the info panel. *)
Lemma visit_outcome :
  (Artwork.index <$> highlighted (Main.artworks (visit host_sin host_cos))) = [0]
  /\ Dom.title (Dom.document (Main.world (visit host_sin host_cos)))
     = Some "The Death of Socrates"%string
  /\ Dom.artist (Dom.document (Main.world (visit host_sin host_cos)))
     = Some "Jacques-Louis David"%string
  /\ Dom.cursor (Dom.document (Main.world (visit host_sin host_cos)))
     = "pointer"%string
  /\ (PlayerController.yaw <$> Main.player (visit host_sin host_cos))
     = Some (Some (-0.01)%float)
  /\ Main.locked (visit host_sin host_cos) = true
  /\ Dom.timers (Main.world (visit host_sin host_cos)) = [1].
Proof. vm_compute. repeat split; reflexivity. Qed.

End MouseLookBinary64.

(** C7, as stated, fails in the arithmetic the program runs in, whatever
    the host takes for [Math.sin] and [Math.cos].  With the yaw at -0.1 (a
    pointer move by 50 from the start), a move by [d = 100] followed by one
    by [-d = -100] leaves the yaw at -0.10000000000000003. *)
Lemma pointer_delta_not_reversible_in_binary64 :
  ~ (exists (host_sin host_cos : float -> float),
       forall (c : PlayerController.t (N := Binary64 host_sin host_cos))
              (d : float),
         PlayerController.isLocked c = true ->
         PlayerController.yaw
           (PlayerController.onMouseMove (N := Binary64 host_sin host_cos)
              (Some (PrimFloat.opp d))
              (PlayerController.onMouseMove (N := Binary64 host_sin host_cos)
                 (Some d) c))
         = PlayerController.yaw c).
Proof.
  intros (host_sin & host_cos & H).
  pose proof (yaw_after_moves_binary64 host_sin host_cos) as (H1 & _ & H3).
  specialize (H (PlayerController.onMouseMove
                   (N := Binary64 host_sin host_cos) (Some 50%float)
                   (captured_controller host_sin host_cos))
                100%float eq_refl).
  cbv zeta in H1, H3.
  change (PrimFloat.opp 100) with (-100)%float in H.
  rewrite H3, H1 in H. discriminate H.
Qed.

(* ===================================================================== *)
(** ** Mouse look from rest, in binary64 *)
(* ===================================================================== *)

Section Binary64FromRest.

Lemma Prim2SF_zero : FloatOps.Prim2SF PrimFloat.zero = S754_zero false.
Proof. reflexivity. Qed.

Lemma SFcompare_refl_finite s m e :
  SFcompare (S754_finite s m e) (S754_finite s m e) = Some Eq.
Proof.
  simpl. rewrite Z.compare_refl, Pos.compare_cont_refl. destruct s; reflexivity.
Qed.

(** A double is truthy unless it is a zero or NaN. *)
Lemma float_truthy_spec (x : float) :
  float_truthy x =
  match FloatOps.Prim2SF x with
  | S754_finite _ _ _ | S754_infinity _ => true
  | _ => false
  end.
Proof.
  unfold float_truthy. rewrite !FloatAxioms.eqb_spec, Prim2SF_zero. unfold SFeqb.
  destruct (FloatOps.Prim2SF x) as [s|s| |s m e]; try (destruct s; reflexivity);
    try reflexivity.
  rewrite SFcompare_refl_finite. simpl. destruct s; reflexivity.
Qed.

(** Rounding does not look at the sign. *)
Lemma binary_round_aux_opp s m e l :
  binary_round_aux FloatOps.prec FloatOps.emax (negb s) m e l
  = SFopp (binary_round_aux FloatOps.prec FloatOps.emax s m e l).
Proof.
  unfold binary_round_aux.
  destruct (shr_fexp FloatOps.prec FloatOps.emax m e l) as [mrs e'].
  destruct (shr_fexp FloatOps.prec FloatOps.emax _ e' loc_Exact) as [mrs' e''].
  destruct (shr_m mrs'); try reflexivity.
  destruct (Z.leb e'' (FloatOps.emax - FloatOps.prec)); reflexivity.
Qed.

Lemma SFmul_opp_l (x y : spec_float) :
  SFmul FloatOps.prec FloatOps.emax (SFopp x) y = SFopp (SFmul FloatOps.prec FloatOps.emax x y).
Proof.
  destruct x as [sx|sx| |sx mx ex], y as [sy|sy| |sy my ey]; simpl;
    try reflexivity; try (destruct sx, sy; reflexivity).
  rewrite <- binary_round_aux_opp. f_equal. destruct sx, sy; reflexivity.
Qed.

Lemma SFsub_diag_finite s m e :
  SFsub FloatOps.prec FloatOps.emax (S754_finite s m e) (S754_finite s m e) = S754_zero false.
Proof. simpl. rewrite Z.sub_diag. reflexivity. Qed.

Lemma is_finite_spec (p : float) :
  PrimFloat.is_finite p = true ->
  (exists s m e, FloatOps.Prim2SF p = S754_finite s m e)
  \/ (exists s, FloatOps.Prim2SF p = S754_zero s).
Proof.
  unfold PrimFloat.is_finite, PrimFloat.is_nan, PrimFloat.is_infinity.
  rewrite !FloatAxioms.eqb_spec, FloatAxioms.abs_spec.
  change (FloatOps.Prim2SF PrimFloat.infinity) with (S754_infinity false).
  destruct (FloatOps.Prim2SF p) as [s|s| |s m e]; simpl.
  - eauto.
  - destruct s; simpl; discriminate.
  - discriminate.
  - eauto 6.
Qed.

Lemma float_or_zero_spec (x : float) :
  FloatOps.Prim2SF (float_or_zero x) =
  match FloatOps.Prim2SF x with
  | S754_finite _ _ _ | S754_infinity _ => FloatOps.Prim2SF x
  | _ => S754_zero false
  end.
Proof.
  unfold float_or_zero. rewrite float_truthy_spec.
  destruct (FloatOps.Prim2SF x) eqn:E; try reflexivity; exact E.
Qed.

(** From yaw 0, subtracting [d * rs] and then [(-d) * rs] gives 0 again, as
    long as the product is finite: negation is exact, and so is the
    difference of a double with itself. *)
Lemma float_cancel (d rs : float) :
  let p := PrimFloat.mul (float_or_zero d) rs in
  let y1 := PrimFloat.sub PrimFloat.zero p in
  let y2 := PrimFloat.sub (float_or_zero y1)
              (PrimFloat.mul (float_or_zero (PrimFloat.opp d)) rs) in
  PrimFloat.is_finite p = true -> y2 = PrimFloat.zero.
Proof.
  intros p y1 y2 Hfin. apply FloatAxioms.Prim2SF_inj. rewrite Prim2SF_zero.
  subst y2. rewrite FloatAxioms.sub_spec, FloatAxioms.mul_spec.
  assert (Hx' : FloatOps.Prim2SF (float_or_zero (PrimFloat.opp d))
                = SFopp (FloatOps.Prim2SF (float_or_zero d))
                \/ (FloatOps.Prim2SF (float_or_zero (PrimFloat.opp d)) = S754_zero false
                    /\ FloatOps.Prim2SF (float_or_zero d) = S754_zero false)).
  { rewrite !float_or_zero_spec, FloatAxioms.opp_spec.
    destruct (FloatOps.Prim2SF d) as [s|s| |s m e]; simpl; auto. }
  assert (Hp : FloatOps.Prim2SF p = FloatAxioms.SF64mul (FloatOps.Prim2SF (float_or_zero d)) (FloatOps.Prim2SF rs))
    by (subst p; apply FloatAxioms.mul_spec).
  assert (Hy1 : FloatOps.Prim2SF y1 = FloatAxioms.SF64sub (S754_zero false) (FloatOps.Prim2SF p))
    by (subst y1; rewrite FloatAxioms.sub_spec, Prim2SF_zero; reflexivity).
  rewrite float_or_zero_spec, Hy1.
  destruct (is_finite_spec p Hfin) as [(s & m & e & E)|(s & E)]; rewrite E in *.
  - destruct Hx' as [Hx'|[_ Hx]].
    + rewrite Hx'. unfold FloatAxioms.SF64mul in *. rewrite SFmul_opp_l, <- Hp. simpl SFopp.
      cbn [FloatAxioms.SF64sub SFsub]. apply SFsub_diag_finite.
    + rewrite Hx in Hp. unfold FloatAxioms.SF64mul in Hp.
      destruct (FloatOps.Prim2SF rs) as [sr|sr| |sr mr er]; simpl in Hp; discriminate.
  - assert (Hz : FloatAxioms.SF64sub (S754_zero false) (S754_zero s) = S754_zero false)
      by (destruct s; reflexivity).
    rewrite Hz.
    destruct Hx' as [Hx'|[Hx' Hx]].
    + rewrite Hx'. unfold FloatAxioms.SF64mul in *. rewrite SFmul_opp_l, <- Hp.
      destruct s; reflexivity.
    + rewrite Hx'. rewrite Hx in Hp. rewrite <- Hp. destruct s; reflexivity.
Qed.

Variables host_sin host_cos : float -> float.

Local Abbreviation B64 := (Binary64 host_sin host_cos).

(** In binary64, on a locked controller whose yaw reads 0, a pointer move by
    [d] followed by one by [-d] leaves the yaw at 0, whenever [d] times the
    sensitivity is finite. *)
Lemma pointer_delta_reversible_from_rest_binary64
    (c : PlayerController.t (N := B64)) (d : float) :
  PlayerController.isLocked c = true ->
  or0 (N := B64) (PlayerController.yaw c) = PrimFloat.zero ->
  PrimFloat.is_finite
    (PrimFloat.mul (or0 (N := B64) (Some d)) (PlayerController.rotationSpeed c))
  = true ->
  PlayerController.yaw
    (PlayerController.onMouseMove (N := B64) (Some (PrimFloat.opp d))
       (PlayerController.onMouseMove (N := B64) (Some d) c))
  = Some PrimFloat.zero.
Proof.
  intros Hl Hy Hfin.
  unfold PlayerController.onMouseMove at 2. rewrite Hl. cbv zeta. simpl negb.
  cbv iota.
  unfold PlayerController.onMouseMove. cbn [PlayerController.isLocked
    PlayerController.updateTarget PlayerController.set_yaw
    PlayerController.set_camera PlayerController.set_target
    PlayerController.set_direction PlayerController.yaw
    PlayerController.rotationSpeed].
  rewrite Hl. simpl negb. cbv iota.
  cbn [PlayerController.isLocked
    PlayerController.updateTarget PlayerController.set_yaw
    PlayerController.set_camera PlayerController.set_target
    PlayerController.set_direction PlayerController.yaw
    PlayerController.rotationSpeed].
  rewrite Hy. f_equal.
  exact (float_cancel d (PlayerController.rotationSpeed c) Hfin).
Qed.

End Binary64FromRest.

(** C7, as amended.  A pointer move by [d] followed by one by [-d] restores
    the yaw exactly in exact real arithmetic, from every yaw; in binary64 it
    does so from rest, where the yaw reads 0, as long as [d] times the
    sensitivity is finite.  From other yaws binary64 rounds the two
    subtractions. *)
Theorem pointer_delta_is_reversible_up_to_rounding :
  (forall (c : PlayerController.t (N := Real)) (d : R),
     let c1 := PlayerController.onMouseMove (Some d) c in
     let c2 := PlayerController.onMouseMove (Some (- d)%R) c1 in
     or0 (PlayerController.yaw c2) = or0 (PlayerController.yaw c)
     /\ (forall y, PlayerController.yaw c = Some y ->
                   PlayerController.yaw c2 = Some y)
     /\ (PlayerController.isLocked c = true ->
         PlayerController.yaw c1
         = Some (or0 (PlayerController.yaw c)
                 - d * PlayerController.rotationSpeed c)%R))
  /\ (forall (host_sin host_cos : float -> float)
             (c : PlayerController.t (N := Binary64 host_sin host_cos))
             (d : float),
        PlayerController.isLocked c = true ->
        or0 (N := Binary64 host_sin host_cos) (PlayerController.yaw c)
        = PrimFloat.zero ->
        PrimFloat.is_finite
          (PrimFloat.mul (or0 (N := Binary64 host_sin host_cos) (Some d))
             (PlayerController.rotationSpeed c)) = true ->
        PlayerController.yaw
          (PlayerController.onMouseMove (N := Binary64 host_sin host_cos)
             (Some (PrimFloat.opp d))
             (PlayerController.onMouseMove (N := Binary64 host_sin host_cos)
                (Some d) c))
        = Some PrimFloat.zero).
Proof.
  split.
  - exact pointer_delta_reversible_in_exact_arithmetic.
  - exact pointer_delta_reversible_from_rest_binary64.
Qed.

(** From rest, seven pixels to the right and back. *)
Lemma seven_pixels_and_back (host_sin host_cos : float -> float) :
  PlayerController.yaw
    (PlayerController.onMouseMove (N := Binary64 host_sin host_cos)
       (Some (-7)%float)
       (PlayerController.onMouseMove (N := Binary64 host_sin host_cos)
          (Some 7%float) (captured_controller host_sin host_cos)))
  = Some PrimFloat.zero.
Proof.
  apply (pointer_delta_reversible_from_rest_binary64 host_sin host_cos
           (captured_controller host_sin host_cos) 7%float);
    vm_compute; reflexivity.
Qed.

(* ===================================================================== *)
(** ** Walking, in exact arithmetic *)
(* ===================================================================== *)

Section WalkingExact.
Local Open Scope R_scope.

Local Abbreviation Controller := (PlayerController.t (N := Real)).
Local Abbreviation Vec := (Vector3.t (N := Real)).

Lemma vec_eq (a b : Vec) :
  Vector3.x a = Vector3.x b -> Vector3.y a = Vector3.y b ->
  Vector3.z a = Vector3.z b -> a = b.
Proof. destruct a, b; simpl; congruence. Qed.

Lemma or_one_real (x : R) : x <> 0 -> or_one (N := Real) x = x.
Proof.
  intros H. unfold or_one. simpl. by destruct (Req_dec_T x 0).
Qed.

Lemma gt_real_true (a b : R) : gt (Number := Real) a b = true <-> a > b.
Proof. simpl. destruct (Rgt_dec a b); split; intros; try done. Qed.

Lemma lengthSq_real (v : Vec) :
  Vector3.lengthSq v = (Vector3.x v)² + (Vector3.y v)² + (Vector3.z v)².
Proof. reflexivity. Qed.

Lemma lengthSq_nonneg (v : Vec) : 0 <= Vector3.lengthSq v.
Proof.
  rewrite lengthSq_real.
  pose proof (Rle_0_sqr (Vector3.x v)). pose proof (Rle_0_sqr (Vector3.y v)).
  pose proof (Rle_0_sqr (Vector3.z v)). lra.
Qed.

(** A vector of length one is its own normalisation. *)
Lemma normalize_unit (v : Vec) : Vector3.lengthSq v = 1 -> Vector3.normalize v = v.
Proof.
  intros H.
  change (Vector3.normalize v)
    with (Vector3.divideScalar v (or_one (R_sqrt.sqrt (Vector3.lengthSq v)))).
  rewrite H, sqrt_1, or_one_real by lra.
  destruct v as [a b c]. apply vec_eq; simpl; field.
Qed.

Lemma scaled_square (a b c l s : R) :
  0 < l -> l * l = a * a + b * b + c * c ->
  a * (1 / l) * s * (a * (1 / l) * s) + b * (1 / l) * s * (b * (1 / l) * s)
  + c * (1 / l) * s * (c * (1 / l) * s) = s * s.
Proof.
  intros Hl Hll.
  transitivity (s * s * ((a * a + b * b + c * c) / (l * l))).
  - field. lra.
  - rewrite <- Hll. field. lra.
Qed.

(** Normalising, then scaling by [s], gives a vector of length [|s|]. *)
Lemma length_normalize_scaled (v : Vec) (s : R) :
  0 < Vector3.lengthSq v ->
  Vector3.length (Vector3.multiplyScalar (Vector3.normalize v) s) = Rabs s.
Proof.
  intros H.
  remember (R_sqrt.sqrt (Vector3.lengthSq v)) as l eqn:El.
  assert (Hl : 0 < l) by (subst l; by apply sqrt_lt_R0).
  assert (Hll : l * l = Vector3.lengthSq v) by (subst l; apply sqrt_sqrt; lra).
  assert (E : Vector3.normalize v = Vector3.multiplyScalar v (1 / l)).
  { change (Vector3.normalize v)
      with (Vector3.divideScalar v (or_one (R_sqrt.sqrt (Vector3.lengthSq v)))).
    rewrite <- El, or_one_real by (apply Rgt_not_eq, Hl). reflexivity. }
  rewrite E.
  change (Vector3.length ?w) with (R_sqrt.sqrt (Vector3.lengthSq w)).
  rewrite <- sqrt_Rsqr_abs. f_equal.
  clear E El H. destruct v as [a b c]. unfold Vector3.lengthSq in *.
  simpl in *. unfold Rsqr. by apply scaled_square.
Qed.

Lemma facing_unit (yaw : R) : Vector3.lengthSq (facing yaw) = 1.
Proof.
  rewrite lengthSq_real. simpl. pose proof (sin2_cos2 yaw) as H.
  unfold Rsqr in *. lra.
Qed.

Lemma rightward_unit (yaw : R) : Vector3.lengthSq (rightward yaw) = 1.
Proof. apply (facing_unit (yaw + PI / 2)). Qed.

Lemma rightward_is_quarter_turn (yaw : R) :
  rightward yaw = Vector3.set (cos yaw) 0 (- sin yaw).
Proof.
  unfold rightward. rewrite sin_plus, cos_plus, sin_PI2, cos_PI2.
  apply vec_eq; simpl; lra.
Qed.

Lemma facing_rightward_orthogonal (yaw : R) :
  Vector3.x (facing yaw) * Vector3.x (rightward yaw)
  + Vector3.z (facing yaw) * Vector3.z (rightward yaw) = 0.
Proof. rewrite rightward_is_quarter_turn. simpl. lra. Qed.

(** [update] on a locked controller, with the two directions simplified. *)
Lemma update_locked (delta : R) (c : Controller) :
  PlayerController.isLocked c = true ->
  PlayerController.update delta c
  = if gt (Vector3.lengthSq (wish c)) 0
    then
      let v := Vector3.multiplyScalar (Vector3.normalize (wish c))
                 (PlayerController.moveSpeed c) in
      PlayerController.updateTarget
        (PlayerController.set_camera
           {| PlayerController.position :=
                Vector3.add (PlayerController.position (PlayerController.camera c)) v;
              PlayerController.lookAt :=
                PlayerController.lookAt (PlayerController.camera c) |}
           (PlayerController.set_velocity v c))
    else PlayerController.set_velocity (wish c) c.
Proof.
  intros Hl. unfold PlayerController.update. rewrite Hl. simpl negb. cbv iota.
  change (Vector3.set (Math_sin ?a) (int 0) (Math_cos ?a)) with (facing a).
  change (Vector3.set (Math_sin (?a + Math_PI / int 2)%js) (int 0)
            (Math_cos (?a + Math_PI / int 2)%js)) with (rightward a).
  rewrite !normalize_unit by (apply facing_unit || apply rightward_unit).
  reflexivity.
Qed.

End WalkingExact.

Section WalkingTheorems.
Local Open Scope R_scope.

Local Abbreviation Controller := (PlayerController.t (N := Real)).
Local Abbreviation Vec := (Vector3.t (N := Real)).

Lemma wish_components (c : Controller) :
  let a := weight (PlayerController.moveForward c)
           - weight (PlayerController.moveBackward c) in
  let b := weight (PlayerController.moveRight c)
           - weight (PlayerController.moveLeft c) in
  let y := or0 (PlayerController.yaw c) in
  wish c = Vector3.set (a * sin y + b * cos y) 0 (a * cos y - b * sin y).
Proof.
  intros a b y. subst a b. unfold wish. fold y.
  rewrite rightward_is_quarter_turn. unfold facing.
  destruct (PlayerController.moveForward c), (PlayerController.moveBackward c),
    (PlayerController.moveLeft c), (PlayerController.moveRight c);
    apply vec_eq; simpl; lra.
Qed.

Lemma lengthSq_wish (c : Controller) :
  Vector3.lengthSq (wish c)
  = (weight (PlayerController.moveForward c)
     - weight (PlayerController.moveBackward c))²
    + (weight (PlayerController.moveRight c)
       - weight (PlayerController.moveLeft c))².
Proof.
  rewrite wish_components. cbv zeta. rewrite lengthSq_real. simpl.
  pose proof (sin2_cos2 (or0 (PlayerController.yaw c))) as H.
  unfold Rsqr in *.
  generalize dependent (sin (or0 (PlayerController.yaw c))).
  generalize dependent (cos (or0 (PlayerController.yaw c))).
  intros co si H.
  destruct (PlayerController.moveForward c), (PlayerController.moveBackward c),
    (PlayerController.moveLeft c), (PlayerController.moveRight c);
    simpl; nra.
Qed.

(** The flags do not cancel out exactly when the wish is not the zero
    vector. *)
Lemma wish_nonzero (c : Controller) :
  xorb (PlayerController.moveForward c) (PlayerController.moveBackward c)
  || xorb (PlayerController.moveLeft c) (PlayerController.moveRight c) = true
  <-> 0 < Vector3.lengthSq (wish c).
Proof.
  rewrite lengthSq_wish. unfold Rsqr.
  destruct (PlayerController.moveForward c), (PlayerController.moveBackward c),
    (PlayerController.moveLeft c), (PlayerController.moveRight c);
    simpl; split; intros; try done; lra.
Qed.

Lemma update_moving (delta : R) (c : Controller) :
  PlayerController.isLocked c = true ->
  0 < Vector3.lengthSq (wish c) ->
  let v := Vector3.multiplyScalar (Vector3.normalize (wish c))
             (PlayerController.moveSpeed c) in
  PlayerController.velocity (PlayerController.update delta c) = v
  /\ PlayerController.position (PlayerController.camera (PlayerController.update delta c))
     = Vector3.add (PlayerController.position (PlayerController.camera c)) v.
Proof.
  intros Hl Hw v. rewrite update_locked by done.
  assert (Hg : gt (Vector3.lengthSq (wish c)) 0 = true)
    by by apply gt_real_true.
  rewrite Hg. split; reflexivity.
Qed.

(** C3, as amended.  In exact arithmetic, on a locked controller whose
    speed is not negative and whose flags do not cancel out, [update] moves
    the camera by a vector whose length is exactly the speed.  With only the
    forward flag, that vector is the speed times the unit facing vector.
    With the forward flag and one strafe flag, the accumulated vector has
    length [sqrt 2] and the displacement still has the length of the
    speed. *)
Theorem displacement_has_the_length_of_speed (delta : R) (c : Controller) :
  PlayerController.isLocked c = true ->
  0 <= PlayerController.moveSpeed c ->
  xorb (PlayerController.moveForward c) (PlayerController.moveBackward c)
  || xorb (PlayerController.moveLeft c) (PlayerController.moveRight c) = true ->
  let c' := PlayerController.update delta c in
  let displacement := PlayerController.velocity c' in
  PlayerController.position (PlayerController.camera c')
  = Vector3.add (PlayerController.position (PlayerController.camera c)) displacement
  /\ Vector3.length displacement = PlayerController.moveSpeed c
  /\ (PlayerController.moveForward c = true ->
      PlayerController.moveBackward c = false ->
      PlayerController.moveLeft c = false ->
      PlayerController.moveRight c = false ->
      displacement
      = Vector3.multiplyScalar (facing (or0 (PlayerController.yaw c)))
          (PlayerController.moveSpeed c))
  /\ (PlayerController.moveForward c = true ->
      PlayerController.moveBackward c = false ->
      PlayerController.moveLeft c <> PlayerController.moveRight c ->
      Vector3.length (wish c) = R_sqrt.sqrt 2).
Proof.
  intros Hl Hs Hf c' displacement.
  apply wish_nonzero in Hf.
  destruct (update_moving delta c Hl Hf) as [Hv Hp].
  subst displacement c'. rewrite Hv.
  split; [exact Hp|]. split; [|split].
  - rewrite length_normalize_scaled by done. by apply Rabs_pos_eq.
  - intros HF HB HL HR.
    assert (E : wish c = facing (or0 (PlayerController.yaw c))).
    { unfold wish. rewrite HF, HB, HL, HR. apply vec_eq; simpl; lra. }
    rewrite E, normalize_unit by apply facing_unit. reflexivity.
  - intros HF HB HLR.
    change (Vector3.length (wish c)) with (R_sqrt.sqrt (Vector3.lengthSq (wish c))).
    f_equal. rewrite lengthSq_wish, HF, HB. unfold Rsqr.
    destruct (PlayerController.moveLeft c), (PlayerController.moveRight c);
      try done; simpl; lra.
Qed.

Lemma update_moveLeft_only (delta : R) (c : Controller) :
  PlayerController.isLocked c = true ->
  PlayerController.moveLeft c = true ->
  PlayerController.moveForward c = false ->
  PlayerController.moveBackward c = false ->
  PlayerController.moveRight c = false ->
  PlayerController.position (PlayerController.camera (PlayerController.update delta c))
  = Vector3.sub (PlayerController.position (PlayerController.camera c))
      (Vector3.multiplyScalar (rightward (or0 (PlayerController.yaw c)))
         (PlayerController.moveSpeed c)).
Proof.
  intros Hl HL HF HB HR.
  assert (Hw : 0 < Vector3.lengthSq (wish c)).
  { apply wish_nonzero. by rewrite HL, HF, HB, HR. }
  destruct (update_moving delta c Hl Hw) as [_ Hp]. rewrite Hp.
  assert (E : wish c
              = Vector3.multiplyScalar (rightward (or0 (PlayerController.yaw c))) (-1)).
  { unfold wish. rewrite HF, HB, HL, HR. apply vec_eq; simpl; lra. }
  assert (Hu : Vector3.lengthSq (wish c) = 1).
  { rewrite lengthSq_wish, HL, HF, HB, HR. unfold Rsqr. simpl. lra. }
  rewrite normalize_unit by done. rewrite E.
  apply vec_eq; simpl; ring.
Qed.

(** C2, as amended.  In exact arithmetic, on a locked controller with only
    the [moveLeft] flag set, [update] takes the rightward vector (the facing turned by a quarter,
    [(sin (yaw + PI/2), 0, cos (yaw + PI/2))]) times the speed away from the
    camera position: the flag subtracts that vector. *)
Theorem moveLeft_subtracts_the_rightward_vector (delta : R) (c : Controller) :
  PlayerController.isLocked c = true ->
  PlayerController.moveLeft c = true ->
  PlayerController.moveForward c = false ->
  PlayerController.moveBackward c = false ->
  PlayerController.moveRight c = false ->
  PlayerController.position (PlayerController.camera (PlayerController.update delta c))
  = Vector3.sub (PlayerController.position (PlayerController.camera c))
      (Vector3.multiplyScalar (rightward (or0 (PlayerController.yaw c)))
         (PlayerController.moveSpeed c)).
Proof. apply update_moveLeft_only. Qed.

(** C2, as stated, fails.  At the start (camera at (0, 1.6, 5), yaw 0, speed
    0.1) the rightward vector is (1, 0, 0); with only [moveLeft] set, a frame
    puts the camera at x = -0.1, not at x = 0.1. *)
Lemma moveLeft_does_not_add_the_rightward_vector :
  let c := PlayerController.set_moveLeft true start in
  let c' := PlayerController.update 0 c in
  Vector3.x (PlayerController.position (PlayerController.camera c')) = - (1 / 10)
  /\ PlayerController.position (PlayerController.camera c')
     <> Vector3.add (PlayerController.position (PlayerController.camera c))
          (Vector3.multiplyScalar (rightward (or0 (PlayerController.yaw c)))
             (PlayerController.moveSpeed c)).
Proof.
  intros c c'.
  assert (E : PlayerController.position (PlayerController.camera c')
              = Vector3.sub (PlayerController.position (PlayerController.camera c))
                  (Vector3.multiplyScalar (rightward (or0 (PlayerController.yaw c)))
                     (PlayerController.moveSpeed c)))
    by by apply update_moveLeft_only.
  rewrite E. rewrite rightward_is_quarter_turn.
  change (or0 (PlayerController.yaw c)) with 0.
  change (PlayerController.moveSpeed c) with (1 / 10).
  change (PlayerController.position (PlayerController.camera c))
    with (Vector3.set (N := Real) 0 (16 / 10) 5).
  rewrite cos_0, sin_0.
  split.
  - simpl. lra.
  - intros H. apply (f_equal Vector3.x) in H. simpl in H. lra.
Qed.

Lemma wish_is_level (c : Controller) : Vector3.y (wish c) = 0.
Proof. by rewrite wish_components. Qed.

(** [update] keeps the height of the camera. *)
Lemma update_keeps_height (delta : R) (c : Controller) :
  Vector3.y (PlayerController.position (PlayerController.camera
               (PlayerController.update delta c)))
  = Vector3.y (PlayerController.position (PlayerController.camera c)).
Proof.
  destruct (PlayerController.isLocked c) eqn:Hl;
    [|by unfold PlayerController.update; rewrite Hl].
  rewrite update_locked by done.
  destruct (gt (Vector3.lengthSq (wish c)) 0); [|reflexivity].
  cbv zeta. simpl. rewrite wish_is_level. lra.
Qed.

End WalkingTheorems.

(* ===================================================================== *)
(** ** Walking in binary64 *)
(* ===================================================================== *)

Section WalkingBinary64.
#[local] Set Warnings "-inexact-float".

(** The pointer move by 6 pixels leaves the yaw at -0.012, and the speed is
    0.1. *)
Lemma walker_stance (host_sin host_cos : float -> float) :
  PlayerController.yaw (walker host_sin host_cos) = Some (-0.012)%float
  /\ PlayerController.moveSpeed (walker host_sin host_cos) = 0.1%float
  /\ PlayerController.isLocked (walker host_sin host_cos) = true
  /\ PlayerController.moveForward (walker host_sin host_cos) = true
  /\ PlayerController.moveBackward (walker host_sin host_cos) = false
  /\ PlayerController.moveLeft (walker host_sin host_cos) = false
  /\ PlayerController.moveRight (walker host_sin host_cos) = false.
Proof. vm_compute. repeat split; reflexivity. Qed.

(** The frame that follows moves the camera by a vector of length
    0.10000000000000002, whichever of the doubles next to the sine and the
    cosine the host returns. *)
Lemma walker_step_length (host_sin host_cos : float -> float) (delta : float) :
  host_sin (-0.012)%float ∈ sines_of_the_turn ->
  host_cos (-0.012)%float ∈ cosines_of_the_turn ->
  Vector3.length
    (PlayerController.velocity
       (PlayerController.update (N := Binary64 host_sin host_cos) delta
          (walker host_sin host_cos)))
  = 0.10000000000000002%float.
Proof.
  intros Hs Hc. vm_compute.
  set (s := host_sin _) in *. set (c := host_cos _) in *. clearbody s c.
  unfold sines_of_the_turn, cosines_of_the_turn in Hs, Hc.
  rewrite !elem_of_cons, elem_of_nil in Hs, Hc.
  destruct Hs as [->|[->|[->|[]]]]; destruct Hc as [->|[->|[->|[]]]];
    vm_compute; reflexivity.
Qed.

(** C3, as stated, fails in the arithmetic the program runs in.  With the
    yaw at -0.012 (a pointer move by 6 pixels from the start), the W key down
    and the speed 0.1 of the constructor, a frame moves the camera by a
    vector of length 0.10000000000000002: the two normalisations and the
    scaling round.  This is so for every host whose [Math.sin] and [Math.cos]
    are off by less than one unit in the last place at -0.012. *)
Lemma displacement_length_is_not_the_speed_in_binary64 :
  ~ (exists (host_sin host_cos : float -> float),
       host_sin (-0.012)%float ∈ sines_of_the_turn
       /\ host_cos (-0.012)%float ∈ cosines_of_the_turn
       /\ forall (delta : float)
                 (c : PlayerController.t (N := Binary64 host_sin host_cos)),
            PlayerController.isLocked c = true ->
            PrimFloat.leb 0%float (PlayerController.moveSpeed c) = true ->
            xorb (PlayerController.moveForward c) (PlayerController.moveBackward c)
            || xorb (PlayerController.moveLeft c) (PlayerController.moveRight c)
            = true ->
            Vector3.length
              (PlayerController.velocity
                 (PlayerController.update (N := Binary64 host_sin host_cos)
                    delta c))
            = PlayerController.moveSpeed c).
Proof.
  intros (host_sin & host_cos & Hs & Hc & H).
  specialize (H 0%float (walker host_sin host_cos) eq_refl eq_refl eq_refl).
  rewrite (walker_step_length host_sin host_cos 0%float Hs Hc) in H.
  destruct (walker_stance host_sin host_cos) as (_ & Hspeed & _).
  rewrite Hspeed in H. discriminate H.
Qed.

End WalkingBinary64.

Section EyeHeight.
Local Open Scope R_scope.
Variable intersectObjects : Main.Raycaster (N := Real).

Lemma eye_height_of_stance (st st' : Main.State (N := Real)) :
  player_stance st' = player_stance st -> eye_height st' = eye_height st.
Proof.
  unfold player_stance, eye_height, stance.
  destruct (Main.player st'), (Main.player st); simpl; congruence.
Qed.

Lemma onMouseMove_position (mx : option R) (c : PlayerController.t (N := Real)) :
  PlayerController.position (PlayerController.camera (PlayerController.onMouseMove mx c))
  = PlayerController.position (PlayerController.camera c).
Proof.
  unfold PlayerController.onMouseMove.
  destruct (PlayerController.isLocked c); reflexivity.
Qed.

Lemma step_keeps_eye_height (ev : Main.Event) (st : Main.State) :
  eye_height (Main.step intersectObjects ev st) = eye_height st.
Proof.
  pose proof (step_stance_unless_moving intersectObjects ev st) as H.
  destruct ev; try (by apply eye_height_of_stance).
  - (* Frame *)
    simpl. unfold Main.animate, eye_height.
    destruct (Main.player st) as [c|] eqn:E; simpl; [|by rewrite E].
    by rewrite update_keeps_height.
  - (* MouseMove *)
    simpl. unfold eye_height. rewrite onPointerMove_player.
    unfold Main.on_player.
    destruct (Main.player st) as [c|] eqn:E; simpl; [|by rewrite E].
    by rewrite onMouseMove_position.
Qed.

Lemma run_keeps_eye_height (evs : list Main.Event) (st : Main.State) :
  eye_height (Main.run intersectObjects evs st) = eye_height st.
Proof.
  revert st. induction evs as [|ev evs IH]; intros st; [reflexivity|].
  change (Main.run intersectObjects (ev :: evs) st)
    with (Main.run intersectObjects evs (Main.step intersectObjects ev st)).
  by rewrite IH, step_keeps_eye_height.
Qed.

(** C10.  In exact arithmetic, [update] leaves the y coordinate of the
    camera as it is, whatever the controller, and so does every event: from
    the start of the gallery on, after any events, the eye of the player is at
    height 1.6. *)
Theorem eye_height_never_changes :
  (forall delta c,
     Vector3.y (PlayerController.position (PlayerController.camera
                  (PlayerController.update (N := Real) delta c)))
     = Vector3.y (PlayerController.position (PlayerController.camera c)))
  /\ (forall items first scenery cam width height page evs,
        eye_height
          (Main.run intersectObjects evs
             (Main.init items first scenery cam width height page))
        = Some (16 / 10)).
Proof.
  split; [apply update_keeps_height|].
  intros. rewrite run_keeps_eye_height. reflexivity.
Qed.

End EyeHeight.

(* ===================================================================== *)
(** ** At most one artwork is highlighted *)
(* ===================================================================== *)

Section OneHighlight.
Context {N : Number}.
Variable intersectObjects : Main.Raycaster.

Lemma highlighted_all_normal (arts : list Artwork.t) :
  all_normal arts -> highlighted arts = [].
Proof.
  induction 1 as [|a arts Ha _ IH]; [reflexivity|].
  unfold highlighted in *. rewrite filter_cons_False; [exact IH|].
  by rewrite Ha.
Qed.

Lemma highlighted_insert (arts : list Artwork.t) (k : nat) (a : Artwork.t) :
  all_normal arts -> k < length arts ->
  highlighted (<[k := a]> arts) = if Artwork.isHovered a then [a] else [].
Proof.
  intros Hall. revert k. induction Hall as [|b arts Hb Hall IH]; intros k Hk.
  - simpl in Hk. lia.
  - destruct k as [|k]; simpl.
    + unfold highlighted. destruct (Artwork.isHovered a) eqn:Ha.
      * rewrite filter_cons_True by done. f_equal.
        by apply highlighted_all_normal.
      * rewrite filter_cons_False by by rewrite Ha.
        by apply highlighted_all_normal.
    + unfold highlighted in *. rewrite filter_cons_False by by rewrite Hb.
      apply IH. simpl in Hk. lia.
Qed.

Lemma reset_highlights_all_normal (arts : list Artwork.t) (s : Scene.Store) :
  all_normal (Main.reset_highlights arts s).1.
Proof.
  revert s. induction arts as [|a arts IH]; intros s; simpl; [constructor|].
  pose proof (setHighlight_flag false a s) as Ha.
  destruct (Artwork.setHighlight false a s) as [a' s']. simpl in Ha.
  specialize (IH s').
  destruct (Main.reset_highlights arts s') as [rest s'']. simpl in *.
  by constructor.
Qed.

(** What the loop of the hover pass does to the registry: nothing, or one
    [setHighlight(true)] on the artwork it reports. *)
Lemma hover_loop_registry (intersects : list Scene.Intersection)
    (arts : list Artwork.t) (s : Scene.Store) :
  match Main.hover_loop intersects arts s with
  | (None, arts', s') => arts' = arts /\ s' = s
  | (Some k, arts', s') =>
      exists a, arts !! k = Some a
                /\ arts' = <[k := (Artwork.setHighlight true a s).1]> arts
                /\ s' = (Artwork.setHighlight true a s).2
  end.
Proof.
  induction intersects as [|i rest IH]; simpl; [done|].
  destruct (Scene.is_artwork s (Scene.object i)); [|exact IH].
  destruct (list_find _ arts) as [[k a]|] eqn:Hf; [|exact IH].
  apply list_find_Some in Hf as (Hk & _ & _).
  destruct (Artwork.setHighlight true a s) as [a' s'] eqn:E.
  exists a. by rewrite E.
Qed.

Lemma hover_pass_highlighted (x y : num) (c : PlayerController.t)
    (st : Main.State) :
  match (Main.hover_pass intersectObjects x y c st).1 with
  | Some k =>
      exists a, Main.artworks (Main.hover_pass intersectObjects x y c st).2 !! k
                = Some a
                /\ highlighted
                     (Main.artworks (Main.hover_pass intersectObjects x y c st).2)
                   = [a]
  | None =>
      highlighted (Main.artworks (Main.hover_pass intersectObjects x y c st).2)
      = []
  end.
Proof.
  unfold Main.hover_pass. simpl.
  pose proof (reset_highlights_all_normal (Main.artworks st) (Main.store st)) as Hall.
  destruct (Main.reset_highlights _ _) as [arts s]. simpl in *.
  match goal with |- context [Main.hover_loop ?i arts s] =>
    pose proof (hover_loop_registry i arts s) as Hloop;
    destruct (Main.hover_loop i arts s) as [[[k|] arts'] s']
  end; simpl.
  - destruct Hloop as (a & Hk & -> & _).
    pose proof (setHighlight_flag true a s) as Hflag.
    assert (Hlt : k < length arts) by by eapply lookup_lt_Some.
    exists (Artwork.setHighlight true a s).1. split.
    + by rewrite list_lookup_insert_eq.
    + rewrite highlighted_insert by done. by rewrite Hflag.
  - destruct Hloop as [-> _]. by apply highlighted_all_normal.
Qed.

Lemma onPointerMove_highlighted (x y : num) (st : Main.State) :
  length (highlighted (Main.artworks st)) <= 1 ->
  length (highlighted (Main.artworks (Main.onPointerMove intersectObjects x y st))) <= 1.
Proof.
  intros H. unfold Main.onPointerMove.
  destruct (Main.player st) as [c|]; [|done].
  destruct (negb _); [done|].
  pose proof (hover_pass_highlighted x y c st) as Hp.
  destruct (Main.hover_pass intersectObjects x y c st).1.
  - destruct Hp as (a & _ & ->). simpl. lia.
  - rewrite Hp. simpl. lia.
Qed.

End OneHighlight.

Section GalleryFrame.
Context {N : Number}.
Variable intersectObjects : Main.Raycaster.

Lemma on_player_gallery h (st : Main.State) :
  gallery (Main.on_player h st) = gallery st.
Proof.
  unfold Main.on_player. destruct (Main.player st) as [c|]; [|done].
  by destruct (h (Main.world st) c).
Qed.

Lemma lock_catch_gallery (prefix : string) (st : Main.State) :
  gallery (Main.lock_catch prefix st) = gallery st.
Proof.
  unfold Main.lock_catch. destruct (Main.player st) as [c|]; [|done].
  by destruct (PlayerController.lock (Main.world st) c) as [[w' c'] p].
Qed.

Lemma unlock_catch_gallery (st : Main.State) :
  gallery (Main.unlock_catch st) = gallery st.
Proof.
  unfold Main.unlock_catch. destruct (Main.player st) as [c|]; [|done].
  by destruct (PlayerController.unlock (Main.world st) c) as [[w' c'] p].
Qed.

Lemma showArtworkInfo_gallery (title artist : string) (st : Main.State) :
  gallery (Main.showArtworkInfo title artist st) = gallery st.
Proof.
  unfold Main.showArtworkInfo.
  destruct (Dom.title (Dom.document (Main.world st))),
    (Dom.artist (Dom.document (Main.world st))),
    (Dom.info_panel (Dom.document (Main.world st))); try reflexivity.
  destruct (Main.infoTimeout st) as [[|id]|]; reflexivity.
Qed.

Lemma handleArtworkClick_gallery (x y : num) (st : Main.State) :
  gallery (Main.handleArtworkClick intersectObjects x y st) = gallery st.
Proof.
  unfold Main.handleArtworkClick.
  destruct (Main.player st) as [c|]; [|done].
  destruct (negb _); [done|].
  destruct (Main.click_pass _ _ _ _ _); [|done].
  destruct (Main.userData_data _ _); [|done].
  by rewrite showArtworkInfo_gallery.
Qed.

Lemma run_listeners_gallery (ls : list Dom.Listener) (st : Main.State) :
  gallery (foldl (fun st l => Main.run_listener l st) st ls) = gallery st.
Proof.
  revert st. induction ls as [|l ls IH]; intros st; [reflexivity|].
  simpl. rewrite IH. destruct l; apply on_player_gallery.
Qed.

(** Only a frame and a pointer move touch the gallery. *)
Lemma step_gallery (ev : Main.Event) (st : Main.State) :
  match ev with
  | Main.Frame _ =>
      gallery (Main.step intersectObjects ev st)
      = (Main.artworks st, Scene.render (Main.store st), Main.scene st)
  | Main.MouseMove _ x y =>
      exists st', gallery st' = gallery st
                  /\ Main.step intersectObjects ev st
                     = Main.onPointerMove intersectObjects x y st'
  | _ => gallery (Main.step intersectObjects ev st) = gallery st
  end.
Proof.
  destruct ev; simpl.
  - unfold Main.animate. by destruct (Main.player st).
  - set (st1 := Main.on_player (PlayerController.onKeyDown code) st).
    assert (H1 : gallery st1 = gallery st) by apply on_player_gallery.
    set (st2 := if _ && _ then _ else _).
    assert (H2 : gallery st2 = gallery st).
    { subst st2. destruct (_ && _); [by rewrite unlock_catch_gallery|done]. }
    destruct (Main.locked st2); [|done]. by rewrite on_player_gallery.
  - by rewrite !on_player_gallery.
  - eexists. split; [|reflexivity]. apply on_player_gallery.
  - set (st1 := Main.on_player _ st).
    assert (H1 : gallery st1 = gallery st) by apply on_player_gallery.
    destruct (bool_decide _); [|done].
    destruct (negb _).
    + by rewrite lock_catch_gallery.
    + by rewrite handleArtworkClick_gallery.
  - destruct (Main.locked st).
    + by rewrite handleArtworkClick_gallery.
    + by rewrite lock_catch_gallery.
  - destruct (_ && _); [by rewrite lock_catch_gallery|done].
  - rewrite run_listeners_gallery.
    change (gallery (Main.set_world ?w ?s)) with (gallery s).
    by rewrite on_player_gallery.
  - by rewrite run_listeners_gallery.
  - done.
  - done.
  - by destruct (bool_decide _).
Qed.

End GalleryFrame.

(* ===================================================================== *)
(** ** The registry of artworks *)
(* ===================================================================== *)

Section Registry.
Context {N : Number}.

Lemma new_artwork (d : Scene.ArtworkData) (index total : nat)
    (radius : option num) (s : Scene.Store) :
  let g := Scene.next s in
  let r := default (int 15) radius in
  Artwork.new d index total radius s
  = (artwork_at d index total r g,
     {| Scene.objects :=
          <[S (S g) := picture_node d]>
            (<[S g := frame_node]>
               (<[g := group_node index total r (S g) (S (S g))]>
                  (Scene.objects s)));
        Scene.next := S (S (S g)) |}).
Proof.
  intros g r. unfold Artwork.new, Scene.alloc, Scene.modify. simpl.
  fold g r. f_equal. f_equal.
  rewrite !alter_insert_eq.
  rewrite (alter_insert_ne _ g (S g)) by lia.
  rewrite (alter_insert_eq _ g).
  rewrite (alter_insert_ne _ g (S (S g))) by lia.
  rewrite (alter_insert_ne _ g (S g)) by lia.
  rewrite (alter_insert_eq _ g).
  reflexivity.
Qed.

End Registry.

Section RegistryLayout.
Context {N : Number}.
Local Open Scope nat_scope.

Lemma placed_cons (d : Scene.ArtworkData) (rest : list Scene.ArtworkData)
    (index total : nat) (g o : Scene.ObjId) (node : Scene.Object3D) :
  placed (d :: rest) index total g o node
  <-> (o = g /\ node = group_node index total (int 15) (S g) (S (S g)))
      \/ (o = S g /\ node = frame_node)
      \/ (o = S (S g) /\ node = picture_node d)
      \/ placed rest (S index) total (S (S (S g))) o node.
Proof.
  unfold placed. split.
  - intros ([|k] & d' & Hk & H); simpl in Hk.
    + injection Hk as <-.
      destruct H as [[-> ->]|[[-> ->]|[-> ->]]].
      * left. split; [lia|]. rewrite Nat.add_0_r.
        by replace (g + 3 * 0) with g by lia.
      * right; left. split; [lia|done].
      * right; right; left. split; [lia|done].
    + right; right; right. exists k, d'. split; [done|].
      destruct H as [[-> ->]|[[-> ->]|[-> ->]]].
      * left. split; [lia|]. by replace (index + S k) with (S index + k) by lia.
      * right; left. split; [lia|done].
      * right; right. split; [lia|done].
  - intros [[-> ->]|[[-> ->]|[[-> ->]|(k & d' & Hk & H)]]].
    + exists 0, d. split; [done|]. left. split; [lia|].
      by rewrite Nat.add_0_r.
    + exists 0, d. split; [done|]. right; left. split; [lia|done].
    + exists 0, d. split; [done|]. right; right. split; [lia|done].
    + exists (S k), d'. split; [done|].
      destruct H as [[-> ->]|[[-> ->]|[-> ->]]].
      * left. split; [lia|]. by replace (index + S k) with (S index + k) by lia.
      * right; left. split; [lia|done].
      * right; right. split; [lia|done].
Qed.

Lemma placed_ge items index total g o node :
  placed items index total g o node -> g <= o.
Proof. intros (k & d & _ & [[-> _]|[[-> _]|[-> _]]]); lia. Qed.

(** The state after the loop of [createArtworks]. *)
Lemma forEach_artwork_layout (items : list Scene.ArtworkData)
    (index total : nat) (st : Main.State) :
  let g := Scene.next (Main.store st) in
  let st' := Main.forEach_artwork items index total st in
  (forall o, is_Some (Scene.objects (Main.store st) !! o) -> o < g) ->
  Main.artworks st'
  = Main.artworks st
    ++ imap (fun k d => artwork_at d (index + k) total (int 15) (g + 3 * k)) items
  /\ Main.scene st' = Main.scene st ++ imap (fun k _ => g + 3 * k) items
  /\ Main.player st' = Main.player st
  /\ Main.world st' = Main.world st
  /\ (forall o node,
        Scene.objects (Main.store st') !! o = Some node
        <-> Scene.objects (Main.store st) !! o = Some node
            \/ placed items index total g o node).
Proof.
  revert index st. induction items as [|d rest IH]; intros index st g st' Hfresh.
  - subst st'. simpl. rewrite !app_nil_r. repeat split; try done.
    + by left.
    + intros [H|(k & d & Hk & _)]; [done|]. by rewrite lookup_nil in Hk.
  - subst st'. cbn [Main.forEach_artwork]. rewrite new_artwork. cbv zeta.
    fold g.
    set (st1 := Main.set_gallery _ _ _ st).
    assert (E1 : Main.artworks st1
                 = Main.artworks st ++ [artwork_at d index total (int 15) g])
      by reflexivity.
    assert (E2 : Main.scene st1 = Main.scene st ++ [g]) by reflexivity.
    assert (E3 : Scene.next (Main.store st1) = S (S (S g))) by reflexivity.
    assert (E4 : Scene.objects (Main.store st1)
                 = <[S (S g) := picture_node d]>
                     (<[S g := frame_node]>
                        (<[g := group_node index total (int 15) (S g) (S (S g))]>
                           (Scene.objects (Main.store st))))) by reflexivity.
    assert (Hfresh1 : forall o, is_Some (Scene.objects (Main.store st1) !! o)
                                -> o < Scene.next (Main.store st1)).
    { intros o. rewrite E3, E4.
      rewrite !lookup_insert_is_Some. intros [->|[_ [->|[_ [->|[_ H]]]]]];
        try lia. apply Hfresh in H. lia. }
    destruct (IH (S index) st1 Hfresh1) as (Ha & Hs & Hp & Hw & Ho).
    rewrite Ha, Hs, Hp, Hw, E1, E2, E3. clear Ha Hs Hp Hw.
    rewrite <- !app_assoc, !imap_cons.
    split; [|split; [|split; [|split]]]; try reflexivity.
    + f_equal. simpl. f_equal.
      * f_equal; lia.
      * apply imap_ext. intros k d' _. simpl. f_equal; lia.
    + f_equal. simpl. f_equal; [lia|].
      apply imap_ext. intros k d' _. simpl. lia.
    + intros o node. rewrite Ho, E3, E4, placed_cons.
      rewrite !lookup_insert_Some. split.
      * intros [[[<- <-]|[_ [[<- <-]|[_ [[<- <-]|[_ H]]]]]]|H]; auto 10.
      * intros [H|[(-> & ->)|[(-> & ->)|[(-> & ->)|H]]]].
        -- assert (o < g) by (apply Hfresh; by rewrite H).
           left. right. split; [lia|]. right. split; [lia|].
           right. split; [lia|done].
        -- left. right. split; [lia|]. right. split; [lia|]. by left.
        -- left. right. split; [lia|]. by left.
        -- left. by left.
        -- by right.
Qed.

End RegistryLayout.

Section InitialGallery.
Context {N : Number}.
Local Open Scope nat_scope.

Lemma init_layout (items : list Scene.ArtworkData) (first : Scene.ObjId)
    (scenery : list Scene.ObjId) (cam : PlayerController.Camera)
    (width height : num) (page : Dom.World) :
  let st := Main.init items first scenery cam width height page in
  Main.artworks st
  = imap (fun k d => artwork_at d k (length items) (int 15) (first + 3 * k)) items
  /\ Main.scene st = scenery ++ imap (fun k _ => first + 3 * k) items
  /\ Main.player st = Some (PlayerController.new cam)
  /\ Main.world st = page
  /\ (forall o node,
        Scene.objects (Main.store st) !! o = Some node
        <-> placed items 0 (length items) first o node).
Proof.
  intros st. subst st. unfold Main.init, Main.setupPlayer, Main.createArtworks.
  match goal with |- context [Main.forEach_artwork items 0 _ ?s] =>
    pose proof (forEach_artwork_layout items 0 (length items) s) as H
  end.
  cbv zeta in H. destruct H as (Ha & Hs & Hp & Hw & Ho).
  { intros o. simpl. rewrite lookup_empty. by intros [? ?]. }
  simpl in *. rewrite Ha, Hs. repeat split; try done.
  - intros H. apply Ho in H. rewrite lookup_empty in H. by destruct H.
  - intros H. apply Ho. by right.
Qed.



End InitialGallery.

Section Shape.
Context {N : Number}.
Variable intersectObjects : Main.Raycaster.
Local Open Scope nat_scope.

Lemma fmap_alter_unseen {A B : Type} (f : A -> B) (g : A -> A)
    (i : nat) (m : gmap nat A) :
  (forall x, f (g x) = f x) -> f <$> alter g i m = f <$> m.
Proof.
  intros H. apply map_eq. intros j. rewrite !lookup_fmap.
  destruct (decide (i = j)) as [->|Hne].
  - rewrite lookup_alter_eq. destruct (m !! j); simpl; [by rewrite H|done].
  - by rewrite lookup_alter_ne.
Qed.

Lemma setHighlight_unseen {B : Type} (f : Scene.Object3D -> B)
    (flag : bool) (a : Artwork.t) (s : Scene.Store) :
  (forall v o, f (Scene.set_scale v o) = f o) ->
  (forall c o, f (Scene.set_emissive c o) = f o) ->
  f <$> Scene.objects (Artwork.setHighlight flag a s).2 = f <$> Scene.objects s.
Proof.
  intros Hs He. unfold Artwork.setHighlight.
  destruct (flag && negb (Artwork.isHovered a)); simpl.
  { rewrite !fmap_alter_unseen; auto. }
  destruct (negb flag && Artwork.isHovered a); simpl; [|done].
  rewrite !fmap_alter_unseen; auto.
Qed.

Lemma setHighlight_identity (flag : bool) (a : Artwork.t) (s : Scene.Store) :
  identity (Artwork.setHighlight flag a s).1 = identity a.
Proof.
  unfold Artwork.setHighlight.
  destruct (flag && negb (Artwork.isHovered a)); [done|].
  by destruct (negb flag && Artwork.isHovered a).
Qed.

Lemma reset_highlights_unseen {B : Type} (f : Scene.Object3D -> B)
    (arts : list Artwork.t) (s : Scene.Store) :
  (forall v o, f (Scene.set_scale v o) = f o) ->
  (forall c o, f (Scene.set_emissive c o) = f o) ->
  identity <$> (Main.reset_highlights arts s).1 = identity <$> arts
  /\ f <$> Scene.objects (Main.reset_highlights arts s).2 = f <$> Scene.objects s.
Proof.
  intros Hs He. revert s. induction arts as [|a arts IH]; intros s; [done|].
  cbn [Main.reset_highlights].
  pose proof (setHighlight_identity false a s) as Hi.
  pose proof (setHighlight_unseen f false a s Hs He) as Ho.
  destruct (Artwork.setHighlight false a s) as [a' s']. cbn [fst snd] in *.
  destruct (IH s') as [IHa IHs].
  destruct (Main.reset_highlights arts s') as [rest s'']. cbn [fst snd] in *.
  split; [by rewrite !fmap_cons, Hi, IHa|by rewrite IHs].
Qed.

Lemma hover_loop_unseen {B : Type} (f : Scene.Object3D -> B)
    (intersects : list Scene.Intersection) (arts : list Artwork.t)
    (s : Scene.Store) :
  (forall v o, f (Scene.set_scale v o) = f o) ->
  (forall c o, f (Scene.set_emissive c o) = f o) ->
  identity <$> (Main.hover_loop intersects arts s).1.2 = identity <$> arts
  /\ f <$> Scene.objects (Main.hover_loop intersects arts s).2
     = f <$> Scene.objects s.
Proof.
  intros Hs He.
  pose proof (hover_loop_registry intersects arts s) as H.
  destruct (Main.hover_loop intersects arts s) as [[[k|] arts'] s']; simpl.
  - destruct H as (a & Hk & -> & ->). split.
    + rewrite list_fmap_insert, setHighlight_identity.
      apply list_insert_id. by rewrite list_lookup_fmap, Hk.
    + by apply setHighlight_unseen.
  - by destruct H as [-> ->].
Qed.

Lemma skeleton_set_scale v o : skeleton (Scene.set_scale v o) = skeleton o.
Proof. reflexivity. Qed.

Lemma skeleton_set_emissive c o : skeleton (Scene.set_emissive c o) = skeleton o.
Proof. reflexivity. Qed.



Lemma hover_pass_shape (x y : num) (c : PlayerController.t) (st : Main.State) :
  shape (Main.hover_pass intersectObjects x y c st).2 = shape st.
Proof.
  unfold Main.hover_pass, shape. simpl.
  destruct (reset_highlights_unseen skeleton (Main.artworks st) (Main.store st)
              skeleton_set_scale skeleton_set_emissive) as [Ha Hs].
  destruct (Main.reset_highlights _ _) as [arts s]. simpl in *.
  match goal with |- context [Main.hover_loop ?i arts s] =>
    destruct (hover_loop_unseen skeleton i arts s
                skeleton_set_scale skeleton_set_emissive) as [Ha' Hs'];
    destruct (Main.hover_loop i arts s) as [[found arts'] s']
  end.
  simpl in *. by rewrite Ha', Hs', Ha, Hs.
Qed.

Lemma onPointerMove_shape (x y : num) (st : Main.State) :
  shape (Main.onPointerMove intersectObjects x y st) = shape st.
Proof.
  unfold Main.onPointerMove.
  destruct (Main.player st) as [c|]; [|done].
  destruct (negb _); [done|]. apply hover_pass_shape.
Qed.

Lemma shape_of_gallery (st st' : Main.State) :
  gallery st' = gallery st -> shape st' = shape st.
Proof. unfold gallery, shape. by intros [= -> -> _]. Qed.

Lemma step_shape (ev : Main.Event) (st : Main.State) :
  shape (Main.step intersectObjects ev st) = shape st.
Proof.
  pose proof (step_gallery intersectObjects ev st) as H.
  destruct ev; try (by apply shape_of_gallery).
  - (* Frame *)
    pose proof (f_equal (fun g => g.1.1) H) as Ha.
    pose proof (f_equal (fun g => g.1.2) H) as Hs.
    unfold gallery in Ha, Hs. cbn [fst snd] in Ha, Hs.
    unfold shape. rewrite Ha, Hs. f_equal.
    unfold Scene.render. cbn [Scene.objects]. rewrite <- map_fmap_compose.
    apply map_fmap_ext. by intros i o _.
  - (* MouseMove *)
    destruct H as (st' & Hg & ->). rewrite onPointerMove_shape.
    by apply shape_of_gallery.
Qed.

Lemma run_shape (evs : list Main.Event) (st : Main.State) :
  shape (Main.run intersectObjects evs st) = shape st.
Proof.
  revert st. induction evs as [|ev evs IH]; intros st; [reflexivity|].
  change (Main.run intersectObjects (ev :: evs) st)
    with (Main.run intersectObjects evs (Main.step intersectObjects ev st)).
  by rewrite IH, step_shape.
Qed.

End Shape.

(* ===================================================================== *)
(** ** Hover and click resolve the same artwork *)
(* ===================================================================== *)

Section Picking.
Context {N : Number}.
Variable intersectObjects : Main.Raycaster.
Local Open Scope nat_scope.


Lemma identity_eq (a a' : Artwork.t) :
  identity a' = identity a ->
  Artwork.data a' = Artwork.data a /\ Artwork.group a' = Artwork.group a
  /\ Artwork.frame a' = Artwork.frame a /\ Artwork.artwork a' = Artwork.artwork a.
Proof. unfold identity. intros H. by simplify_eq. Qed.




End Picking.

Section PickingTheorem.
Context {N : Number}.
Variable intersectObjects : Main.Raycaster.
Local Open Scope nat_scope.






End PickingTheorem.

Section OneHighlightTheorem.
Context {N : Number}.
Variable intersectObjects : Main.Raycaster.
Local Open Scope nat_scope.

Lemma step_highlighted (ev : Main.Event) (st : Main.State) :
  length (highlighted (Main.artworks st)) <= 1 ->
  length (highlighted (Main.artworks (Main.step intersectObjects ev st))) <= 1.
Proof.
  intros H. pose proof (step_gallery intersectObjects ev st) as Hg.
  destruct ev;
    try (apply (f_equal (fun g => g.1.1)) in Hg; unfold gallery in Hg;
         cbn [fst snd] in Hg; by rewrite Hg).
  destruct Hg as (st' & Hg & ->).
  apply onPointerMove_highlighted.
  apply (f_equal (fun g => g.1.1)) in Hg. unfold gallery in Hg.
  cbn [fst snd] in Hg. by rewrite Hg.
Qed.

Lemma run_highlighted (evs : list Main.Event) (st : Main.State) :
  length (highlighted (Main.artworks st)) <= 1 ->
  length (highlighted (Main.artworks (Main.run intersectObjects evs st))) <= 1.
Proof.
  revert st. induction evs as [|ev evs IH]; intros st H; [done|].
  change (Main.run intersectObjects (ev :: evs) st)
    with (Main.run intersectObjects evs (Main.step intersectObjects ev st)).
  by apply IH, step_highlighted.
Qed.

Lemma init_all_normal (items : list Scene.ArtworkData) (first : Scene.ObjId)
    (scenery : list Scene.ObjId) (cam : PlayerController.Camera)
    (width height : num) (page : Dom.World) :
  all_normal (Main.artworks (Main.init items first scenery cam width height page)).
Proof.
  destruct (init_layout items first scenery cam width height page) as (-> & _).
  apply Forall_forall. intros a Ha.
  apply list_elem_of_lookup in Ha as (k & Hk).
  rewrite list_lookup_imap in Hk.
  destruct (items !! k); [|done]. simpl in Hk. by injection Hk as <-.
Qed.

(** C5.  At most one artwork is highlighted in every state the gallery can
    reach, and every event keeps it so.  A hover pass leaves exactly the
    artwork it reports highlighted, or none when it reports none: the reset
    turns every highlight off and the loop turns one on at most. *)
Theorem at_most_one_artwork_is_highlighted :
  (forall items first scenery cam width height page evs,
     length (highlighted
               (Main.artworks
                  (Main.run intersectObjects evs
                     (Main.init items first scenery cam width height page)))) <= 1)
  /\ (forall ev st,
        length (highlighted (Main.artworks st)) <= 1 ->
        length (highlighted (Main.artworks (Main.step intersectObjects ev st))) <= 1)
  /\ (forall x y c st,
        match (Main.hover_pass intersectObjects x y c st).1 with
        | Some k =>
            exists a,
              Main.artworks (Main.hover_pass intersectObjects x y c st).2 !! k
              = Some a
              /\ highlighted
                   (Main.artworks (Main.hover_pass intersectObjects x y c st).2)
                 = [a]
        | None =>
            highlighted
              (Main.artworks (Main.hover_pass intersectObjects x y c st).2) = []
        end).
Proof.
  split; [|split].
  - intros. apply run_highlighted.
    rewrite highlighted_all_normal by apply init_all_normal. simpl. lia.
  - apply step_highlighted.
  - apply hover_pass_highlighted.
Qed.

End OneHighlightTheorem.

(* ===================================================================== *)
(** ** Artworks on a circle *)
(* ===================================================================== *)

Section Circle.
Local Open Scope R_scope.

Lemma angle_theta (i n : nat) : Artwork.angle (N := Real) i n = theta i n.
Proof.
  unfold Artwork.angle, theta. simpl. rewrite !INR_IZR_INZ. lra.
Qed.

Lemma theta_0_of_6 : theta 0 6 = 0.
Proof.
  unfold theta. rewrite !INR_IZR_INZ.
  change (Z.of_nat 0) with 0%Z. change (Z.of_nat 6) with 6%Z. lra.
Qed.

Lemma theta_3_of_6 : theta 3 6 = PI.
Proof.
  unfold theta. rewrite !INR_IZR_INZ.
  change (Z.of_nat 3) with 3%Z. change (Z.of_nat 6) with 6%Z. lra.
Qed.

Lemma group_node_position (i n : nat) (r : R) (f p : Scene.ObjId) :
  Scene.position (group_node (N := Real) i n r f p)
  = Vector3.set (sin (theta i n) * r) (16 / 10) (cos (theta i n) * r)
  /\ Scene.lookAt (group_node (N := Real) i n r f p)
     = Some (Vector3.set 0 (16 / 10) 0).
Proof.
  unfold group_node. cbn [Scene.position Scene.lookAt].
  rewrite angle_theta. split; reflexivity.
Qed.

(** C1.  In exact arithmetic, [new Artwork(data, i, n, r)] puts the group
    of the artwork at angle [theta = (i/n) 2 PI] of the circle of radius [r], at
    [(sin theta * r, 1.6, cos theta * r)], and turns it to the centre of the
    circle at the same height, [(0, 1.6, 0)].  [createArtworks] does so for
    every entry of the manifest, with radius 15.  For the six artworks of the
    gallery, entity 0 stands at [(0, 1.6, 15)] and entity 3 at
    [(0, 1.6, -15)]. *)
Theorem artworks_stand_on_a_circle :
  (forall d i n (r : R) s,
     exists node,
       Scene.objects (Artwork.new (N := Real) d i n (Some r) s).2
         !! Artwork.group (Artwork.new (N := Real) d i n (Some r) s).1
       = Some node
       /\ Scene.position node
          = Vector3.set (sin (theta i n) * r) (16 / 10) (cos (theta i n) * r)
       /\ Scene.lookAt node = Some (Vector3.set 0 (16 / 10) 0))
  /\ (forall items first scenery cam width height page i d,
        items !! i = Some d ->
        exists a node,
          Main.artworks
            (Main.init (N := Real) items first scenery cam width height page) !! i
          = Some a
          /\ Artwork.data a = d
          /\ Scene.objects
               (Main.store (Main.init items first scenery cam width height page))
               !! Artwork.group a = Some node
          /\ Scene.position node
             = Vector3.set (sin (theta i (length items)) * 15) (16 / 10)
                 (cos (theta i (length items)) * 15)
          /\ Scene.lookAt node = Some (Vector3.set 0 (16 / 10) 0))
  /\ (forall first scenery cam width height page,
        exists a0 a3 n0 n3,
          Main.artworks
            (Main.init (N := Real) Main.ARTWORKS first scenery cam width height page)
          !! 0%nat = Some a0
          /\ Main.artworks
               (Main.init Main.ARTWORKS first scenery cam width height page)
             !! 3%nat = Some a3
          /\ Scene.objects
               (Main.store
                  (Main.init Main.ARTWORKS first scenery cam width height page))
               !! Artwork.group a0 = Some n0
          /\ Scene.objects
               (Main.store
                  (Main.init Main.ARTWORKS first scenery cam width height page))
               !! Artwork.group a3 = Some n3
          /\ Scene.position n0 = Vector3.set 0 (16 / 10) 15
          /\ Scene.position n3 = Vector3.set 0 (16 / 10) (- 15)).
Proof.
  assert (Hentity : forall items first scenery cam width height page i d,
    items !! i = Some d ->
    exists a node,
      Main.artworks
        (Main.init (N := Real) items first scenery cam width height page) !! i
      = Some a
      /\ Artwork.data a = d
      /\ Scene.objects
           (Main.store (Main.init items first scenery cam width height page))
           !! Artwork.group a = Some node
      /\ Scene.position node
         = Vector3.set (sin (theta i (length items)) * 15) (16 / 10)
             (cos (theta i (length items)) * 15)
      /\ Scene.lookAt node = Some (Vector3.set 0 (16 / 10) 0)).
  { intros items first scenery cam width height page i d Hi.
    destruct (init_layout items first scenery cam width height page)
      as (Ha & _ & _ & _ & Ho).
    exists (artwork_at d i (length items) (int 15) (first + 3 * i)%nat),
      (group_node (0 + i)%nat (length items) (int 15)
         (S (first + 3 * i)%nat) (S (S (first + 3 * i)%nat))).
    split; [by rewrite Ha, list_lookup_imap, Hi|].
    split; [reflexivity|].
    split; [apply Ho; exists i, d; split; [done|]; by left|].
    apply group_node_position. }
  split; [|split; [exact Hentity|]].
  - intros d i n r s. rewrite new_artwork. cbv zeta. cbn [fst snd default].
    exists (group_node (N := Real) i n r (S (Scene.next s)) (S (S (Scene.next s)))).
    split; [|apply group_node_position].
    cbn [Scene.objects Artwork.group artwork_at].
    rewrite !lookup_insert_ne by lia. by rewrite lookup_insert_eq.
  - intros first scenery cam width height page.
    destruct (Hentity Main.ARTWORKS first scenery cam width height page 0%nat _ eq_refl)
      as (a0 & n0 & H0 & _ & Hn0 & Hp0 & _).
    destruct (Hentity Main.ARTWORKS first scenery cam width height page 3%nat _ eq_refl)
      as (a3 & n3 & H3 & _ & Hn3 & Hp3 & _).
    exists a0, a3, n0, n3.
    split; [exact H0|]. split; [exact H3|].
    split; [exact Hn0|]. split; [exact Hn3|].
    rewrite Hp0, Hp3.
    change (length Main.ARTWORKS) with 6%nat.
    rewrite theta_0_of_6, theta_3_of_6, sin_0, cos_0, sin_PI, cos_PI.
    split; apply vec_eq;
      cbn [Vector3.x Vector3.y Vector3.z int mul div Real]; lra.
Qed.

End Circle.

(* ===================================================================== *)
(** ** The theorems at work *)
(* ===================================================================== *)

Section Instances.
Local Open Scope R_scope.

Lemma unlocked_player_keeps_stance_witness :
  PlayerController.isLocked fresh_player = false
  /\ ((forall delta, PlayerController.update delta fresh_player = fresh_player)
      /\ (forall movementX,
            PlayerController.onMouseMove movementX fresh_player = fresh_player)
      /\ (forall ev st, Main.player st = Some fresh_player ->
            player_stance (Main.step no_hits ev st) = Some (stance fresh_player))).
Proof.
  split; [reflexivity|].
  apply (unlocked_player_keeps_stance no_hits fresh_player). reflexivity.
Defined.

Lemma lock_rejects_when_capture_unavailable_witness :
  capture_unavailable bare_page
  /\ ((exists p,
         PlayerController.lock bare_page fresh_player
         = (refused bare_page, fresh_player, p)
         /\ Dom.promises (refused bare_page) !! p
            = Some (Dom.Rejected "Pointer Lock API not supported"))
      /\ (forall st x y,
            Main.player st = Some fresh_player -> Main.world st = bare_page ->
            PlayerController.isLocked fresh_player = false ->
            Main.player (Main.step no_hits (Main.Click 0 x y) st)
            = Some fresh_player
            /\ Main.locked (Main.step no_hits (Main.Click 0 x y) st) = false
            /\ last (Dom.console_error
                       (Main.world (Main.step no_hits (Main.Click 0 x y) st)))
               = Some "Failed to lock pointer: Pointer Lock API not supported"%string)).
Proof.
  split; [repeat split; reflexivity|].
  apply (lock_rejects_when_capture_unavailable no_hits bare_page fresh_player).
  repeat split; reflexivity.
Defined.

Lemma displacement_has_the_length_of_speed_witness :
  PlayerController.isLocked diagonal = true
  /\ 0 <= PlayerController.moveSpeed diagonal
  /\ xorb (PlayerController.moveForward diagonal) (PlayerController.moveBackward diagonal)
     || xorb (PlayerController.moveLeft diagonal) (PlayerController.moveRight diagonal)
     = true
  /\ PlayerController.position
       (PlayerController.camera (PlayerController.update 0 diagonal))
     = Vector3.add (PlayerController.position (PlayerController.camera diagonal))
         (PlayerController.velocity (PlayerController.update 0 diagonal))
  /\ Vector3.length (PlayerController.velocity (PlayerController.update 0 diagonal))
     = PlayerController.moveSpeed diagonal.
Proof.
  assert (Hs : 0 <= PlayerController.moveSpeed diagonal)
    by (change (PlayerController.moveSpeed diagonal) with (1 / 10); lra).
  split; [reflexivity|]. split; [exact Hs|]. split; [reflexivity|].
  split;
    apply (displacement_has_the_length_of_speed 0 diagonal eq_refl Hs eq_refl).
Defined.

Lemma moveLeft_subtracts_the_rightward_vector_witness :
  PlayerController.isLocked (PlayerController.set_moveLeft true start) = true
  /\ PlayerController.position
       (PlayerController.camera
          (PlayerController.update 0 (PlayerController.set_moveLeft true start)))
     = Vector3.sub
         (PlayerController.position
            (PlayerController.camera (PlayerController.set_moveLeft true start)))
         (Vector3.multiplyScalar
            (rightward (or0 (PlayerController.yaw (PlayerController.set_moveLeft true start))))
            (PlayerController.moveSpeed (PlayerController.set_moveLeft true start))).
Proof.
  split; [reflexivity|].
  apply (moveLeft_subtracts_the_rightward_vector 0
           (PlayerController.set_moveLeft true start));
    reflexivity.
Defined.

End Instances.

(* ===================================================================== *)
(** ** Keys *)
(* ===================================================================== *)

Section Keys.
Context {N : Number}.
Variable intersectObjects : Main.Raycaster.

Lemma not_escape (code : string) :
  code <> "Escape"%string -> PlayerController.is_code code ["Escape"%string] = false.
Proof.
  intros H. unfold PlayerController.is_code. apply bool_decide_eq_false.
  by intros ->%list_elem_of_singleton.
Qed.

Lemma onKeyDown_page (code : string) (w : Dom.World) (c : PlayerController.t) :
  code <> "Escape"%string ->
  (PlayerController.onKeyDown code w c).1 = w.
Proof.
  intros H. unfold PlayerController.onKeyDown. rewrite (not_escape code H).
  repeat (match goal with |- context [PlayerController.is_code ?a ?b] =>
            destruct (PlayerController.is_code a b) end); reflexivity.
Qed.

Lemma onKeyDown_twice (code : string) (w : Dom.World) (c : PlayerController.t) :
  code <> "Escape"%string ->
  PlayerController.onKeyDown code w (PlayerController.onKeyDown code w c).2
  = PlayerController.onKeyDown code w c.
Proof.
  intros H. unfold PlayerController.onKeyDown. rewrite (not_escape code H).
  repeat (match goal with |- context [PlayerController.is_code ?a ?b] =>
            destruct (PlayerController.is_code a b) end); reflexivity.
Qed.

Lemma onKeyUp_onKeyDown (code : string) (w : Dom.World) (c : PlayerController.t) :
  code <> "Escape"%string ->
  PlayerController.onKeyUp code (PlayerController.onKeyDown code w c).2
  = PlayerController.onKeyUp code c.
Proof.
  intros H. unfold PlayerController.onKeyDown, PlayerController.onKeyUp.
  rewrite (not_escape code H).
  repeat (match goal with |- context [PlayerController.is_code ?a ?b] =>
            destruct (PlayerController.is_code a b) end); reflexivity.
Qed.

Lemma onKeyUp_twice (code : string) (c : PlayerController.t) :
  PlayerController.onKeyUp code (PlayerController.onKeyUp code c)
  = PlayerController.onKeyUp code c.
Proof.
  unfold PlayerController.onKeyUp.
  repeat (match goal with |- context [PlayerController.is_code ?a ?b] =>
            destruct (PlayerController.is_code a b) end); reflexivity.
Qed.

Lemma step_KeyDown_plain (code key : string) (st : Main.State)
    (c : PlayerController.t) :
  Main.player st = Some c ->
  code <> "Escape"%string -> key <> "Escape"%string ->
  Main.step intersectObjects (Main.KeyDown code key) st
  = Main.set_player (PlayerController.onKeyDown code (Main.world st) c).2 st.
Proof.
  intros Hp Hcode Hkey.
  pose proof (onKeyDown_page code (Main.world st) c Hcode) as Hw.
  pose proof (onKeyDown_twice code (Main.world st) c Hcode) as Htw.
  set (c1 := (PlayerController.onKeyDown code (Main.world st) c).2) in *.
  assert (H1 : Main.on_player (PlayerController.onKeyDown code) st
               = Main.set_player c1 st).
  { unfold Main.on_player. rewrite Hp.
    rewrite (surjective_pairing (PlayerController.onKeyDown _ _ _)), Hw.
    by destruct st. }
  unfold Main.step. rewrite H1.
  rewrite (bool_decide_false (key = "Escape"%string)) by done.
  cbn [andb].
  destruct (Main.locked (Main.set_player c1 st)); [|done].
  unfold Main.on_player.
  change (Main.player (Main.set_player c1 st)) with (Some c1).
  change (Main.world (Main.set_player c1 st)) with (Main.world st).
  cbv beta iota.
  rewrite (surjective_pairing (PlayerController.onKeyDown _ _ _)), Htw, Hw.
  by destruct st.
Qed.

Lemma step_KeyUp_plain (code : string) (st : Main.State)
    (c : PlayerController.t) :
  Main.player st = Some c ->
  Main.step intersectObjects (Main.KeyUp code) st
  = Main.set_player (PlayerController.onKeyUp code c) st.
Proof.
  intros Hp. unfold Main.step, Main.on_player. rewrite Hp.
  change (Main.player (Main.set_world ?w (Main.set_player ?c ?s))) with (Some c).
  cbv beta iota. rewrite onKeyUp_twice. by destruct st.
Qed.

Lemma step_key_nobody (ev : Main.Event) (st : Main.State) :
  Main.player st = None ->
  match ev with
  | Main.KeyDown _ _ | Main.KeyUp _ => Main.step intersectObjects ev st = st
  | _ => True
  end.
Proof.
  intros Hp. destruct ev; try exact I.
  - unfold Main.step, Main.on_player, Main.locked, Main.unlock_catch.
    rewrite !Hp. by rewrite andb_false_r, Hp.
  - unfold Main.step, Main.on_player. by rewrite !Hp.
Qed.

(** X1.  Releasing a key undoes pressing it: for every key but Escape, a
    [keydown] followed by the [keyup] of the same key leaves the gallery
    exactly as the [keyup] alone does, whether or not the pointer is locked,
    although the [keydown] is handled by the controller's listener and again
    by the page's.  No movement flag stays set by a key that was released. *)
Theorem releasing_a_key_undoes_pressing_it
    (code key : string) (st : Main.State) :
  code <> "Escape"%string -> key <> "Escape"%string ->
  Main.step intersectObjects (Main.KeyUp code)
    (Main.step intersectObjects (Main.KeyDown code key) st)
  = Main.step intersectObjects (Main.KeyUp code) st.
Proof.
  intros Hcode Hkey.
  destruct (Main.player st) as [c|] eqn:Hp.
  - rewrite (step_KeyDown_plain code key st c Hp Hcode Hkey).
    rewrite (step_KeyUp_plain code (Main.set_player _ st) _ eq_refl).
    rewrite (step_KeyUp_plain code st c Hp).
    rewrite (onKeyUp_onKeyDown code _ c Hcode). by destruct st.
  - by rewrite (step_key_nobody (Main.KeyDown code key) st Hp).
Qed.

End Keys.

(* ===================================================================== *)
(** ** Walking and looking, further *)
(* ===================================================================== *)

(** A part of the controller that neither the movement flags nor the lock
    flag belong to is left alone by every event but a frame and a pointer
    move. *)
Section UntouchedByKeys.
Context {N : Number} {A : Type}.
Variable part : PlayerController.t -> A.
Hypothesis part_isLocked : forall b c, part (PlayerController.set_isLocked b c) = part c.
Hypothesis part_moveForward : forall b c, part (PlayerController.set_moveForward b c) = part c.
Hypothesis part_moveBackward : forall b c, part (PlayerController.set_moveBackward b c) = part c.
Hypothesis part_moveLeft : forall b c, part (PlayerController.set_moveLeft b c) = part c.
Hypothesis part_moveRight : forall b c, part (PlayerController.set_moveRight b c) = part c.

Lemma unlock_part (w : Dom.World) (c : PlayerController.t) :
  part (PlayerController.unlock w c).1.2 = part c.
Proof using All.
  unfold PlayerController.unlock. simpl.
  destruct (Dom.or_else _ _); simpl; by rewrite ?part_isLocked.
Qed.

Lemma onKeyDown_part (code : string) (w : Dom.World) (c : PlayerController.t) :
  part (PlayerController.onKeyDown code w c).2 = part c.
Proof using All.
  unfold PlayerController.onKeyDown.
  repeat (match goal with |- context [PlayerController.is_code ?a ?b] =>
            destruct (PlayerController.is_code a b) end);
    simpl; rewrite ?part_moveForward, ?part_moveBackward, ?part_moveLeft,
             ?part_moveRight; try reflexivity.
  pose proof (unlock_part w c) as H.
  destruct (PlayerController.unlock w c) as [[w' c'] p]. exact H.
Qed.

Lemma onKeyUp_part (code : string) (c : PlayerController.t) :
  part (PlayerController.onKeyUp code c) = part c.
Proof using All.
  unfold PlayerController.onKeyUp.
  repeat (match goal with |- context [PlayerController.is_code ?a ?b] =>
            destruct (PlayerController.is_code a b) end);
    by rewrite ?part_moveForward, ?part_moveBackward, ?part_moveLeft,
         ?part_moveRight.
Qed.

Lemma onPointerlockChange_part (w : Dom.World) (c : PlayerController.t) :
  part (PlayerController.onPointerlockChange w c).2 = part c.
Proof using All.
  unfold PlayerController.onPointerlockChange.
  destruct (negb _); simpl; by rewrite part_isLocked.
Qed.

Lemma on_player_part h (st : Main.State) :
  (forall w c, part (h w c).2 = part c) ->
  part <$> Main.player (Main.on_player h st) = part <$> Main.player st.
Proof using All.
  intros Hh. unfold Main.on_player.
  destruct (Main.player st) as [c|] eqn:E; [|by rewrite ?E].
  specialize (Hh (Main.world st) c).
  destruct (h (Main.world st) c) as [w' c']. simpl in *. by rewrite Hh.
Qed.

Lemma run_listeners_part (ls : list Dom.Listener) (st : Main.State) :
  part <$> Main.player (foldl (fun st l => Main.run_listener l st) st ls)
  = part <$> Main.player st.
Proof using All.
  revert st. induction ls as [|l ls IH]; intros st; [reflexivity|].
  simpl. rewrite IH.
  destruct l; apply on_player_part; intros; simpl; apply part_isLocked.
Qed.

Variable intersectObjects : Main.Raycaster.

Lemma step_part_unless_moving (ev : Main.Event) (st : Main.State) :
  match ev with
  | Main.Frame _ | Main.MouseMove _ _ _ => True
  | _ => part <$> Main.player (Main.step intersectObjects ev st)
         = part <$> Main.player st
  end.
Proof using All.
  destruct ev; simpl; try exact I.
  - (* KeyDown *)
    set (st1 := Main.on_player (PlayerController.onKeyDown code) st).
    assert (H1 : part <$> Main.player st1 = part <$> Main.player st)
      by apply on_player_part, onKeyDown_part.
    set (st2 := if _ && _ then _ else _).
    assert (H2 : part <$> Main.player st2 = part <$> Main.player st).
    { subst st2. destruct (_ && _); [|done]. rewrite <- H1.
      unfold Main.unlock_catch.
      destruct (Main.player st1) as [c|] eqn:E; [|by rewrite E].
      pose proof (unlock_part (Main.world st1) c) as H.
      destruct (PlayerController.unlock (Main.world st1) c) as [[w' c'] p].
      simpl in *. by rewrite H. }
    destruct (Main.locked st2); [|done].
    rewrite on_player_part; [done|apply onKeyDown_part].
  - (* KeyUp *)
    rewrite !on_player_part; [done| |]; intros; apply onKeyUp_part.
  - (* Click *)
    set (st1 := Main.on_player _ st).
    assert (H1 : part <$> Main.player st1 = part <$> Main.player st).
    { apply on_player_part. intros w c.
      pose proof (lock_controller w c) as H.
      destruct (PlayerController.lock w c) as [[w' c'] p]. simpl in *.
      by subst. }
    destruct (bool_decide _); [|done].
    destruct (negb _).
    + by rewrite lock_catch_player.
    + by rewrite handleArtworkClick_player.
  - (* ContextMenu *)
    destruct (Main.locked st).
    + by rewrite handleArtworkClick_player.
    + by rewrite lock_catch_player.
  - (* InstructionsClick *)
    destruct (_ && _); [by rewrite lock_catch_player|done].
  - (* PointerLockChange *)
    rewrite run_listeners_part.
    change (Main.player (Main.set_world ?w ?s)) with (Main.player s).
    rewrite on_player_part; [done|apply onPointerlockChange_part].
  - (* CanvasPointerLockChange *)
    by rewrite run_listeners_part.
  - (* PointerLockError *) done.
  - (* Resize *) done.
  - (* Timeout *) by destruct (bool_decide _).
Qed.

End UntouchedByKeys.

Section WalkingMore.
Local Open Scope R_scope.
Variable intersectObjects : Main.Raycaster (N := Real).

Local Abbreviation Controller := (PlayerController.t (N := Real)).
Local Abbreviation Vec := (Vector3.t (N := Real)).

Lemma update_keeps_controls (delta : R) (c : Controller) :
  PlayerController.isLocked (PlayerController.update delta c)
  = PlayerController.isLocked c
  /\ PlayerController.moveSpeed (PlayerController.update delta c)
     = PlayerController.moveSpeed c
  /\ PlayerController.yaw (PlayerController.update delta c)
     = PlayerController.yaw c
  /\ wish (PlayerController.update delta c) = wish c.
Proof.
  unfold PlayerController.update.
  destruct (negb _); [done|].
  destruct (gt _ _); done.
Qed.

Lemma walk_frames (deltas : list R) (st : Main.State) (c : Controller) :
  Main.player st = Some c ->
  PlayerController.isLocked c = true ->
  0 < Vector3.lengthSq (wish c) ->
  exists c',
    Main.player (Main.run intersectObjects (Main.Frame <$> deltas) st) = Some c'
    /\ PlayerController.isLocked c' = true
    /\ PlayerController.moveSpeed c' = PlayerController.moveSpeed c
    /\ PlayerController.yaw c' = PlayerController.yaw c
    /\ wish c' = wish c
    /\ PlayerController.position (PlayerController.camera c')
       = Vector3.add (PlayerController.position (PlayerController.camera c))
           (Vector3.multiplyScalar
              (Vector3.multiplyScalar (Vector3.normalize (wish c))
                 (PlayerController.moveSpeed c))
              (INR (length deltas))).
Proof.
  revert st c. induction deltas as [|delta deltas IH]; intros st c Hp Hl Hw.
  - exists c. repeat split; try done.
    destruct (PlayerController.position (PlayerController.camera c)).
    apply vec_eq; simpl; lra.
  - rewrite fmap_cons.
    change (Main.run intersectObjects (?ev :: ?evs) st)
      with (Main.run intersectObjects evs (Main.animate (N := Real) delta st)).
    destruct (update_keeps_controls delta c) as (Hl' & Hs' & Hy' & Hw').
    destruct (update_moving delta c Hl Hw) as [_ Hpos].
    destruct (IH (Main.animate (N := Real) delta st) (PlayerController.update (N := Real) delta c))
      as (c' & Hc' & Hl2 & Hs2 & Hy2 & Hw2 & Hpos2).
    { unfold Main.animate. by rewrite Hp. }
    { by rewrite Hl'. }
    { by rewrite Hw'. }
    exists c'. split; [done|]. split; [done|]. split; [congruence|].
    split; [congruence|]. split; [congruence|].
    rewrite Hpos2, Hpos, Hw', Hs'.
    change (length (delta :: deltas)) with (S (length deltas)).
    rewrite S_INR.
    destruct (PlayerController.position (PlayerController.camera c)).
    destruct (Vector3.normalize (wish c)).
    apply vec_eq; simpl; lra.
Qed.

(** X2.  In exact arithmetic.  Walking is paced by frames, not by time:
    while the pointer is locked and the keys held do not cancel, [n] frames
    move the camera by [n] times the same step, the speed along the
    normalised wish, whatever frame times [delta] the frames carry; the yaw
    is left as it is. *)
Theorem walking_is_paced_by_frames
    (deltas : list R) (st : Main.State) (c : Controller) :
  Main.player st = Some c ->
  PlayerController.isLocked c = true ->
  xorb (PlayerController.moveForward c) (PlayerController.moveBackward c)
  || xorb (PlayerController.moveLeft c) (PlayerController.moveRight c) = true ->
  exists c',
    Main.player (Main.run intersectObjects (Main.Frame <$> deltas) st) = Some c'
    /\ PlayerController.yaw c' = PlayerController.yaw c
    /\ PlayerController.position (PlayerController.camera c')
       = Vector3.add (PlayerController.position (PlayerController.camera c))
           (Vector3.multiplyScalar
              (Vector3.multiplyScalar (Vector3.normalize (wish c))
                 (PlayerController.moveSpeed c))
              (INR (length deltas))).
Proof.
  intros Hp Hl Hx. apply wish_nonzero in Hx.
  destruct (walk_frames deltas st c Hp Hl Hx) as (c' & H1 & _ & _ & H2 & _ & H3).
  by exists c'.
Qed.

(** X3.  In exact arithmetic.  Keys that cancel: when forward and backward
    are both down or both up, and left and right likewise, a frame leaves the
    camera where it is, and the velocity is zero. *)
Theorem opposite_keys_cancel (delta : R) (c : Controller) :
  PlayerController.isLocked c = true ->
  PlayerController.moveForward c = PlayerController.moveBackward c ->
  PlayerController.moveLeft c = PlayerController.moveRight c ->
  PlayerController.camera (PlayerController.update delta c)
  = PlayerController.camera c
  /\ PlayerController.velocity (PlayerController.update delta c)
     = Vector3.set 0 0 0.
Proof.
  intros Hl Hf Hs. rewrite update_locked by done.
  assert (Hg : gt (Vector3.lengthSq (wish c)) 0 = false).
  { apply not_true_is_false. intros Hg%gt_real_true%wish_nonzero.
    rewrite Hf, Hs, !xorb_nilpotent in Hg. done. }
  rewrite Hg. split; [reflexivity|].
  change (wish c = Vector3.set 0 0 0).
  rewrite wish_components. rewrite Hf, Hs. apply vec_eq; simpl; lra.
Qed.

(** X4.  In exact arithmetic.  Pointer deltas add up: a move by [a]
    followed by a move by [b] leaves the controller exactly as one move by
    [a + b] does. *)
Theorem pointer_deltas_add_up (a b : R) (c : Controller) :
  PlayerController.onMouseMove (Some b) (PlayerController.onMouseMove (Some a) c)
  = PlayerController.onMouseMove (Some (a + b)) c.
Proof.
  unfold PlayerController.onMouseMove.
  destruct (PlayerController.isLocked c) eqn:Hl; simpl negb; cbv iota;
    [|by rewrite Hl].
  change (PlayerController.isLocked (PlayerController.updateTarget ?x))
    with (PlayerController.isLocked x).
  change (PlayerController.isLocked (PlayerController.set_yaw ?y ?x))
    with (PlayerController.isLocked x).
  rewrite Hl. simpl negb. cbv iota zeta.
  rewrite !or0_real_Some.
  change (PlayerController.yaw (PlayerController.updateTarget ?x))
    with (PlayerController.yaw x).
  change (PlayerController.yaw (PlayerController.set_yaw ?y ?x)) with y.
  rewrite or0_real_Some.
  change (PlayerController.rotationSpeed (PlayerController.updateTarget ?x))
    with (PlayerController.rotationSpeed x).
  change (PlayerController.rotationSpeed (PlayerController.set_yaw ?y ?x))
    with (PlayerController.rotationSpeed x).
  assert (E : forall y r : R, y - a * r - b * r = y - (a + b) * r)
    by (intros; lra).
  cbn [sub mul Real]. rewrite E. reflexivity.
Qed.

End WalkingMore.

Section Aim.
Local Open Scope R_scope.
Variable intersectObjects : Main.Raycaster (N := Real).

Local Abbreviation Controller := (PlayerController.t (N := Real)).

Lemma aimed_view (c c' : Controller) : view c' = view c -> aimed c -> aimed c'.
Proof. unfold view, aimed. intros [= -> -> -> ->]. done. Qed.

Lemma updateTarget_aimed (c : Controller) : aimed (PlayerController.updateTarget c).
Proof.
  unfold aimed, PlayerController.updateTarget.
  change (Vector3.set (Math_sin ?a) (int 0) (Math_cos ?a)) with (facing a).
  rewrite normalize_unit by apply facing_unit. done.
Qed.

Lemma update_aimed (delta : R) (c : Controller) :
  aimed c -> aimed (PlayerController.update delta c).
Proof.
  intros H. unfold PlayerController.update.
  destruct (negb _); [done|].
  destruct (gt _ _); [apply updateTarget_aimed|].
  by apply (aimed_view c).
Qed.

Lemma onMouseMove_aimed (mx : option R) (c : Controller) :
  aimed c -> aimed (PlayerController.onMouseMove mx c).
Proof.
  intros H. unfold PlayerController.onMouseMove.
  destruct (negb _); [done|apply updateTarget_aimed].
Qed.

Lemma step_aimed (ev : Main.Event) (st : Main.State) :
  (forall c, Main.player st = Some c -> aimed c) ->
  forall c, Main.player (Main.step intersectObjects ev st) = Some c -> aimed c.
Proof.
  intros H c' Hc'.
  pose proof (step_part_unless_moving view
                ltac:(done) ltac:(done) ltac:(done) ltac:(done) ltac:(done)
                intersectObjects ev st) as Hv.
  destruct ev; cbv beta iota in Hv.
  all: try (rewrite Hc' in Hv; destruct (Main.player st) as [c|] eqn:E; [|done];
         cbn [fmap option_fmap option_map] in Hv;
         apply (aimed_view c); [congruence|by apply H]).
  - (* Frame *)
    simpl in Hc'. unfold Main.animate in Hc'.
    destruct (Main.player st) as [c|] eqn:E; simpl in Hc'; [|by rewrite E in Hc'].
    injection Hc' as <-. by apply update_aimed, H.
  - (* MouseMove *)
    cbn [Main.step] in Hc'. rewrite onPointerMove_player in Hc'.
    unfold Main.on_player in Hc'.
    destruct (Main.player st) as [c|] eqn:E; simpl in Hc'; [|by rewrite E in Hc'].
    injection Hc' as <-. by apply onMouseMove_aimed, H.
Qed.

Lemma run_aimed (evs : list Main.Event) (st : Main.State) :
  (forall c, Main.player st = Some c -> aimed c) ->
  forall c, Main.player (Main.run intersectObjects evs st) = Some c -> aimed c.
Proof.
  revert st. induction evs as [|ev evs IH]; intros st H; [done|].
  change (Main.run intersectObjects (ev :: evs) st)
    with (Main.run intersectObjects evs (Main.step intersectObjects ev st)).
  by apply IH, step_aimed.
Qed.

(** X5.  In exact arithmetic.  In every state a session reaches, the
    camera looks at the point one unit ahead of it in the direction of the
    yaw, (sin yaw, 0, cos yaw): it never looks up or down. *)
Theorem camera_looks_level_one_unit_ahead
    (items : list Scene.ArtworkData) (first : Scene.ObjId)
    (scenery : list Scene.ObjId) (cam : PlayerController.Camera (N := Real))
    (width height : R) (page : Dom.World) (evs : list Main.Event) :
  exists c,
    Main.player
      (Main.run intersectObjects evs
         (Main.init items first scenery cam width height page)) = Some c
    /\ PlayerController.lookAt (PlayerController.camera c)
       = Vector3.add (PlayerController.position (PlayerController.camera c))
           (Vector3.set (sin (or0 (PlayerController.yaw c))) 0
              (cos (or0 (PlayerController.yaw c))))
    /\ Vector3.y (PlayerController.lookAt (PlayerController.camera c))
       = Vector3.y (PlayerController.position (PlayerController.camera c)).
Proof.
  set (st0 := Main.init items first scenery cam width height page).
  pose proof (run_keeps_eye_height intersectObjects evs st0) as Hh.
  unfold eye_height in Hh.
  destruct (init_layout items first scenery cam width height page)
    as (_ & _ & Hp & _). fold st0 in Hp.
  rewrite Hp in Hh.
  destruct (Main.player (Main.run intersectObjects evs st0)) as [c|] eqn:E;
    [|done].
  exists c. split; [done|].
  assert (Ha : aimed c).
  { apply (run_aimed evs st0); [|done]. intros c0 Hc0.
    rewrite Hp in Hc0. injection Hc0 as <-. apply updateTarget_aimed. }
  destruct Ha as (Ha & _ & _). split; [exact Ha|].
  rewrite Ha. simpl. lra.
Qed.

End Aim.

(* ===================================================================== *)
(** ** Capturing and releasing the pointer *)
(* ===================================================================== *)

Section Release.
Context {N : Number}.
Variable intersectObjects : Main.Raycaster.

Lemma with_document_same (w : Dom.World) :
  Dom.exitPointerLock (Dom.document w) = None ->
  Dom.with_document (Dom.set_exitPointerLock None (Dom.document w)) w = w.
Proof.
  destruct w as [cv [x m k e ls b cr t a ip cu] ps lr er ce ts nt]. simpl.
  intros ->. reflexivity.
Qed.

Lemma unlock_unavailable (w : Dom.World) (c : PlayerController.t) :
  release_unavailable w ->
  PlayerController.unlock w c
  = (Dom.with_promises (Dom.promises w ++ [Dom.Fulfilled]) w,
     PlayerController.set_isLocked false c, length (Dom.promises w)).
Proof.
  intros (Hr & Hm & Hk). unfold PlayerController.unlock. simpl.
  rewrite Hr, Hm, Hk. simpl.
  unfold Dom.settle. simpl.
  rewrite lookup_app_r, Nat.sub_diag by lia. simpl.
  rewrite insert_app_r_alt, Nat.sub_diag by lia. simpl.
  f_equal. f_equal.
  destruct w as [cv [x m k e ls b cr t a ip cu] ps lr er ce ts nt].
  simpl in *. by subst.
Qed.

Lemma onKeyDown_Escape (w : Dom.World) (c : PlayerController.t) :
  PlayerController.onKeyDown "Escape" w c
  = let '(w, c, _) := PlayerController.unlock w c in (w, c).
Proof. reflexivity. Qed.

(** X6.  On a page without any way to release the pointer, Escape unlocks
    at once: the lock flag of the controller is cleared in the [keydown]
    itself, the page gains one promise, fulfilled, and nothing else changes;
    no listener is registered and no request reaches the browser. *)
Theorem escape_unlocks_at_once_without_release
    (key : string) (st : Main.State) (c : PlayerController.t) :
  Main.player st = Some c ->
  release_unavailable (Main.world st) ->
  Main.step intersectObjects (Main.KeyDown "Escape" key) st
  = Main.set_world
      (Dom.with_promises (Dom.promises (Main.world st) ++ [Dom.Fulfilled])
         (Main.world st))
      (Main.set_player (PlayerController.set_isLocked false c) st).
Proof.
  intros Hp Hw.
  assert (H1 : Main.on_player (PlayerController.onKeyDown "Escape") st
               = Main.set_world
                   (Dom.with_promises
                      (Dom.promises (Main.world st) ++ [Dom.Fulfilled])
                      (Main.world st))
                   (Main.set_player (PlayerController.set_isLocked false c) st)).
  { unfold Main.on_player. rewrite Hp, onKeyDown_Escape.
    by rewrite (unlock_unavailable _ c Hw). }
  unfold Main.step. rewrite H1.
  set (st1 := Main.set_world _ _).
  assert (Hl : Main.locked st1 = false) by reflexivity.
  rewrite Hl, andb_false_r. reflexivity.
Qed.


(** *** The closures that wait for the document's change of lock *)

Lemma settle_waiting (p : nat) (x : Dom.Settlement) (w : Dom.World) :
  Dom.document (Dom.settle p x w) = Dom.document w.
Proof.
  unfold Dom.settle. destruct (Dom.promises w !! p) as [[]|]; reflexivity.
Qed.

Lemma lock_document (w : Dom.World) (c : PlayerController.t) :
  Dom.document (PlayerController.lock w c).1.1 = Dom.document w.
Proof.
  unfold PlayerController.lock. simpl.
  destruct (Dom.or_else _ _); simpl; [reflexivity|].
  by rewrite settle_waiting.
Qed.

Lemma unlock_waiting (w : Dom.World) (c : PlayerController.t) :
  exists ps,
    Dom.document_listeners (Dom.document (PlayerController.unlock w c).1.1)
    = Dom.document_listeners (Dom.document w) ++ (Dom.OnUnlock <$> ps).
Proof.
  unfold PlayerController.unlock. simpl.
  destruct (Dom.or_else _ _); simpl.
  - by exists [length (Dom.promises w)].
  - exists []. rewrite settle_waiting. simpl. by rewrite app_nil_r.
Qed.

Lemma onKeyDown_waiting (code : string) (w : Dom.World) (c : PlayerController.t) :
  exists ps,
    Dom.document_listeners (Dom.document (PlayerController.onKeyDown code w c).1)
    = Dom.document_listeners (Dom.document w) ++ (Dom.OnUnlock <$> ps).
Proof.
  unfold PlayerController.onKeyDown.
  repeat (match goal with |- context [PlayerController.is_code ?a ?b] =>
            destruct (PlayerController.is_code a b) end);
    try (exists []; simpl; by rewrite app_nil_r).
  destruct (unlock_waiting w c) as [ps H]. exists ps.
  by destruct (PlayerController.unlock w c) as [[w' c'] p].
Qed.

Lemma on_player_waiting h (st : Main.State) :
  (forall w c, exists ps,
      Dom.document_listeners (Dom.document (h w c).1)
      = Dom.document_listeners (Dom.document w) ++ (Dom.OnUnlock <$> ps)) ->
  exists ps, waiting (Main.on_player h st) = waiting st ++ (Dom.OnUnlock <$> ps).
Proof.
  intros Hh. unfold Main.on_player, waiting.
  destruct (Main.player st) as [c|]; [|exists []; by rewrite app_nil_r].
  destruct (Hh (Main.world st) c) as [ps H]. exists ps.
  by destruct (h (Main.world st) c) as [w' c'].
Qed.

Lemma on_player_waiting_same h (st : Main.State) :
  (forall w c, Dom.document_listeners (Dom.document (h w c).1)
               = Dom.document_listeners (Dom.document w)) ->
  waiting (Main.on_player h st) = waiting st.
Proof.
  intros Hh. unfold Main.on_player, waiting.
  destruct (Main.player st) as [c|]; [|done].
  specialize (Hh (Main.world st) c).
  destruct (h (Main.world st) c) as [w' c']. simpl in *. by rewrite Hh.
Qed.

Lemma unlock_catch_waiting (st : Main.State) :
  exists ps, waiting (Main.unlock_catch st) = waiting st ++ (Dom.OnUnlock <$> ps).
Proof.
  unfold Main.unlock_catch, waiting.
  destruct (Main.player st) as [c|]; [|exists []; by rewrite app_nil_r].
  destruct (unlock_waiting (Main.world st) c) as [ps H]. exists ps.
  destruct (PlayerController.unlock (Main.world st) c) as [[w' c'] p].
  simpl in *. by destruct (Dom.promises w' !! p) as [[]|].
Qed.

Lemma lock_catch_waiting (prefix : string) (st : Main.State) :
  waiting (Main.lock_catch prefix st) = waiting st.
Proof.
  unfold Main.lock_catch, waiting.
  destruct (Main.player st) as [c|]; [|done].
  pose proof (lock_document (Main.world st) c) as H.
  destruct (PlayerController.lock (Main.world st) c) as [[w' c'] p].
  simpl in *. destruct (Dom.promises w' !! p) as [[]|]; simpl; by rewrite H.
Qed.

Lemma showArtworkInfo_waiting (title artist : string) (st : Main.State) :
  waiting (Main.showArtworkInfo title artist st) = waiting st.
Proof.
  unfold Main.showArtworkInfo.
  destruct (Dom.title (Dom.document (Main.world st))),
    (Dom.artist (Dom.document (Main.world st))),
    (Dom.info_panel (Dom.document (Main.world st))); try reflexivity.
  destruct (Main.infoTimeout st) as [[|id]|]; reflexivity.
Qed.

Lemma handleArtworkClick_waiting (x y : num) (st : Main.State) :
  waiting (Main.handleArtworkClick intersectObjects x y st) = waiting st.
Proof.
  unfold Main.handleArtworkClick.
  destruct (Main.player st) as [c|]; [|done].
  destruct (negb _); [done|].
  destruct (Main.click_pass _ _ _ _ _); [|done].
  destruct (Main.userData_data _ _); [|done].
  by rewrite showArtworkInfo_waiting.
Qed.

Lemma onPointerMove_waiting (x y : num) (st : Main.State) :
  waiting (Main.onPointerMove intersectObjects x y st) = waiting st.
Proof.
  unfold Main.onPointerMove.
  destruct (Main.player st) as [c|]; [|done].
  destruct (negb _); [done|].
  unfold Main.hover_pass.
  simpl. destruct (Main.reset_highlights _ _) as [arts s]. simpl.
  by destruct (Main.hover_loop _ _ _) as [[found arts'] s'].
Qed.

Lemma run_listeners_waiting (ls : list Dom.Listener) (st : Main.State) :
  waiting (foldl (fun st l => Main.run_listener l st) st ls) = waiting st.
Proof.
  revert st. induction ls as [|l ls IH]; intros st; [reflexivity|].
  simpl. rewrite IH.
  destruct l; apply on_player_waiting_same; intros; simpl;
    by rewrite settle_waiting.
Qed.

Lemma keydown_rest_waiting (code key : string) (st1 : Main.State) :
  exists ps,
    waiting
      (let st2 := if bool_decide (key = "Escape"%string) && Main.locked st1
                  then Main.unlock_catch st1 else st1 in
       if Main.locked st2
       then Main.on_player (PlayerController.onKeyDown code) st2 else st2)
    = waiting st1 ++ (Dom.OnUnlock <$> ps).
Proof.
  cbv zeta.
  assert (H2 : exists ps,
             waiting (if bool_decide (key = "Escape"%string) && Main.locked st1
                      then Main.unlock_catch st1 else st1)
             = waiting st1 ++ (Dom.OnUnlock <$> ps)).
  { destruct (_ && _); [apply unlock_catch_waiting|].
    exists []. by rewrite app_nil_r. }
  destruct H2 as [ps2 H2].
  set (st2 := if _ && _ then _ else _) in *.
  destruct (Main.locked st2); [|by exists ps2].
  destruct (on_player_waiting (PlayerController.onKeyDown code) st2
              (onKeyDown_waiting code)) as [ps3 H3].
  exists (ps2 ++ ps3). by rewrite H3, H2, fmap_app, app_assoc.
Qed.

Lemma step_waiting (ev : Main.Event) (st : Main.State) :
  is_lock_change ev = false ->
  exists ps,
    waiting (Main.step intersectObjects ev st)
    = waiting st ++ (Dom.OnUnlock <$> ps).
Proof.
  intros Hev.
  assert (Hsame : forall st', waiting st' = waiting st ->
            exists ps, waiting st' = waiting st ++ (Dom.OnUnlock <$> ps)).
  { intros st' ->. exists []. by rewrite app_nil_r. }
  destruct ev; try discriminate; cbn [Main.step].
  - (* Frame *)
    apply Hsame. unfold Main.animate. by destruct (Main.player st).
  - (* KeyDown *)
    destruct (on_player_waiting (PlayerController.onKeyDown code) st
                (onKeyDown_waiting code)) as [ps1 H1].
    destruct (keydown_rest_waiting code key
                (Main.on_player (PlayerController.onKeyDown code) st))
      as [ps2 H2].
    exists (ps1 ++ ps2). cbv zeta in H2. by rewrite H2, H1, fmap_app, app_assoc.
  - (* KeyUp *)
    apply Hsame. by rewrite !on_player_waiting_same.
  - (* MouseMove *)
    apply Hsame. rewrite onPointerMove_waiting.
    by rewrite on_player_waiting_same.
  - (* Click *)
    apply Hsame.
    set (st1 := Main.on_player _ st).
    assert (H1 : waiting st1 = waiting st).
    { apply on_player_waiting_same. intros w c.
      pose proof (lock_document w c) as H.
      destruct (PlayerController.lock w c) as [[w' c'] p]. simpl in *.
      by rewrite H. }
    destruct (bool_decide _); [|done].
    destruct (negb _).
    + by rewrite lock_catch_waiting.
    + by rewrite handleArtworkClick_waiting.
  - (* ContextMenu *)
    apply Hsame. destruct (Main.locked st).
    + by rewrite handleArtworkClick_waiting.
    + by rewrite lock_catch_waiting.
  - (* InstructionsClick *)
    apply Hsame. destruct (_ && _); [by rewrite lock_catch_waiting|done].
  - (* CanvasPointerLockChange *)
    apply Hsame. by rewrite run_listeners_waiting.
  - (* PointerLockError *) by apply Hsame.
  - (* Resize *) by apply Hsame.
  - (* Timeout *) apply Hsame. by destruct (bool_decide _).
Qed.

Lemma unlock_waits_grows (st st' : Main.State) (ps : list nat) :
  waiting st' = waiting st ++ (Dom.OnUnlock <$> ps) ->
  unlock_waits st -> unlock_waits st'.
Proof.
  intros Hps (ls & p & H). unfold unlock_waits. rewrite Hps, H.
  destruct ps as [|q ps _] using rev_ind.
  - exists ls, p. by rewrite app_nil_r.
  - exists (ls ++ [Dom.OnUnlock p] ++ (Dom.OnUnlock <$> ps)), q.
    by rewrite fmap_app, <- !app_assoc.
Qed.

Lemma step_keeps_unlock_waiting (ev : Main.Event) (st : Main.State) :
  is_lock_change ev = false -> unlock_waits st ->
  unlock_waits (Main.step intersectObjects ev st).
Proof.
  intros Hev Hw.
  destruct (step_waiting ev st Hev) as [ps Hps].
  by apply (unlock_waits_grows st _ ps).
Qed.

Lemma step_keeps_player (ev : Main.Event) (st : Main.State) :
  is_Some (Main.player st) -> is_Some (Main.player (Main.step intersectObjects ev st)).
Proof.
  intros [c Hc].
  pose proof (step_stance_unless_moving intersectObjects ev st) as H.
  destruct ev; cbv beta iota in H;
    try (unfold player_stance in H; rewrite Hc in H;
         by destruct (Main.player (Main.step _ _ _))).
  - cbn [Main.step]. unfold Main.animate. by rewrite Hc.
  - cbn [Main.step]. rewrite onPointerMove_player.
    unfold Main.on_player. by rewrite Hc.
Qed.

Lemma run_app (evs evs' : list Main.Event) (st : Main.State) :
  Main.run intersectObjects (evs ++ evs') st
  = Main.run intersectObjects evs' (Main.run intersectObjects evs st).
Proof. apply foldl_app. Qed.

Lemma run_keeps_unlock_waiting (evs : list Main.Event) (st : Main.State) :
  Forall (fun ev => is_lock_change ev = false) evs ->
  is_Some (Main.player st) -> unlock_waits st ->
  is_Some (Main.player (Main.run intersectObjects evs st))
  /\ unlock_waits (Main.run intersectObjects evs st).
Proof.
  revert st. induction evs as [|ev evs IH]; intros st Hevs Hp Hw; [done|].
  apply Forall_cons in Hevs as [Hev Hevs].
  change (Main.run intersectObjects (ev :: evs) st)
    with (Main.run intersectObjects evs (Main.step intersectObjects ev st)).
  apply IH; [done|by apply step_keeps_player|by apply step_keeps_unlock_waiting].
Qed.

Lemma escape_registers_unlock (key : string) (st : Main.State) :
  is_Some (Main.player st) -> release_available (Main.world st) ->
  unlock_waits (Main.step intersectObjects (Main.KeyDown "Escape" key) st).
Proof.
  intros [c Hc] [f Hf].
  destruct (keydown_rest_waiting "Escape" key
              (Main.on_player (PlayerController.onKeyDown "Escape") st))
    as [ps Hps].
  apply (unlock_waits_grows _ _ ps Hps).
  unfold unlock_waits, waiting, Main.on_player. rewrite Hc, onKeyDown_Escape.
  unfold PlayerController.unlock. simpl. rewrite Hf. simpl.
  by eexists _, _.
Qed.

Lemma lock_change_runs_unlock (element : option Dom.ElementRef) (st : Main.State) :
  is_Some (Main.player st) -> unlock_waits st ->
  Main.locked (Main.step intersectObjects (Main.PointerLockChange element) st)
  = false.
Proof.
  intros Hp (ls & p & Hls). cbn [Main.step].
  set (w1 := Dom.with_document _ (Main.world st)).
  set (st1 := Main.on_player _ (Main.set_world w1 st)).
  assert (H1 : waiting st1 = ls ++ [Dom.OnUnlock p]).
  { rewrite <- Hls. subst st1. rewrite on_player_waiting_same; [done|].
    intros w c. unfold PlayerController.onPointerlockChange.
    by destruct (negb _). }
  change (Dom.document_listeners (Dom.document (Main.world st1)))
    with (waiting st1).
  rewrite H1, foldl_app. simpl.
  set (st2 := foldl _ _ ls).
  assert (H2 : is_Some (Main.player st2)).
  { pose proof (run_listeners_stance ls
                  (Main.set_world
                     (Dom.with_document
                        (Dom.set_document_listeners []
                           (Dom.document (Main.world st1))) (Main.world st1))
                     st1)) as Hs.
    fold st2 in Hs. unfold player_stance in Hs.
    change (Main.player (Main.set_world ?w ?s)) with (Main.player s) in Hs.
    assert (H3 : is_Some (Main.player st1)).
    { subst st1. unfold Main.on_player.
      change (Main.player (Main.set_world w1 st)) with (Main.player st).
      destruct Hp as [c ->].
      by destruct (PlayerController.onPointerlockChange _ _). }
    destruct H3 as [c1 H3]. rewrite H3 in Hs.
    by destruct (Main.player st2). }
  destruct H2 as [c2 H2]. unfold Main.on_player, Main.locked. by rewrite H2.
Qed.

Lemma run_listeners_document (ls : list Dom.Listener) (st : Main.State) :
  Dom.document (Main.world (foldl (fun st l => Main.run_listener l st) st ls))
  = Dom.document (Main.world st).
Proof.
  revert st. induction ls as [|l ls IH]; intros st; [reflexivity|].
  simpl. rewrite IH.
  destruct l; simpl; unfold Main.on_player;
    (destruct (Main.player st); [|done]); simpl; apply settle_waiting.
Qed.

Lemma lock_change_element (element : option Dom.ElementRef) (st : Main.State) :
  Dom.pointerLockElement
    (Dom.document
       (Main.world (Main.step intersectObjects (Main.PointerLockChange element) st)))
  = element.
Proof.
  cbn [Main.step]. rewrite run_listeners_document.
  unfold Main.on_player.
  change (Main.player (Main.set_world ?w st)) with (Main.player st).
  destruct (Main.player st) as [c|]; [|reflexivity].
  unfold PlayerController.onPointerlockChange.
  by destruct (negb _).
Qed.

(** X7.  [unlock()] leaves a closure on the document that clears the lock
    flag at the next ['pointerlockchange'], whatever that change is.  So
    after Escape, on a page that can release the pointer, and after any
    events that are no such change, the next change leaves the controller
    unlocked, even when it reports that the canvas now holds the pointer. *)
Theorem a_lock_change_after_escape_leaves_the_player_unlocked
    (key : string) (evs : list Main.Event) (element : option Dom.ElementRef)
    (st : Main.State) :
  is_Some (Main.player st) ->
  release_available (Main.world st) ->
  Forall (fun ev => is_lock_change ev = false) evs ->
  let st' := Main.run intersectObjects
               (Main.KeyDown "Escape" key :: evs
                ++ [Main.PointerLockChange element]) st in
  Main.locked st' = false
  /\ Dom.pointerLockElement (Dom.document (Main.world st')) = element.
Proof.
  intros Hp Hr Hevs st'. subst st'.
  change (Main.run intersectObjects (?ev :: ?l) st)
    with (Main.run intersectObjects l (Main.step intersectObjects ev st)).
  rewrite run_app.
  set (st1 := Main.step intersectObjects (Main.KeyDown "Escape" key) st).
  destruct (run_keeps_unlock_waiting evs st1 Hevs) as [Hp2 Hw2].
  { by apply step_keeps_player. }
  { by apply escape_registers_unlock. }
  set (st2 := Main.run intersectObjects evs st1) in *.
  change (Main.run intersectObjects [Main.PointerLockChange element] st2)
    with (Main.step intersectObjects (Main.PointerLockChange element) st2).
  split; [by apply lock_change_runs_unlock|apply lock_change_element].
Qed.

(** X8.  With no such closure waiting, a ['pointerlockchange'] sets the
    lock flag to whether the canvas holds the pointer, and switches the
    blocker and the crosshair exactly when the flag changed: blocker hidden
    and crosshair shown when locked, the reverse when unlocked.  Elements the
    page lacks are skipped. *)
Theorem the_lock_flag_follows_the_lock_element
    (element : option Dom.ElementRef) (st : Main.State)
    (c : PlayerController.t) :
  Main.player st = Some c ->
  waiting st = [] ->
  let st' := Main.step intersectObjects (Main.PointerLockChange element) st in
  let held := holds_pointer element in
  let changed := negb (Bool.eqb (PlayerController.isLocked c) held) in
  Main.player st' = Some (PlayerController.set_isLocked held c)
  /\ Dom.blocker (Dom.document (Main.world st'))
     = (if changed
        then (fun _ => if held then "none" else "block")%string
             <$> Dom.blocker (Dom.document (Main.world st))
        else Dom.blocker (Dom.document (Main.world st)))
  /\ Dom.crosshair (Dom.document (Main.world st'))
     = (if changed
        then (fun _ => if held then "block" else "none")%string
             <$> Dom.crosshair (Dom.document (Main.world st))
        else Dom.crosshair (Dom.document (Main.world st))).
Proof.
  intros Hp Hw st' held changed. subst st'. cbn [Main.step].
  set (w1 := Dom.with_document _ (Main.world st)).
  set (st1 := Main.on_player _ (Main.set_world w1 st)).
  assert (H1 : waiting st1 = []).
  { clear changed. rewrite <- Hw. subst st1.
    rewrite on_player_waiting_same; [done|].
    intros w c0. unfold PlayerController.onPointerlockChange.
    by destruct (negb _). }
  change (Dom.document_listeners (Dom.document (Main.world st1)))
    with (waiting st1).
  rewrite H1. cbn [foldl].
  subst st1. unfold Main.on_player.
  change (Main.player (Main.set_world w1 st)) with (Main.player st).
  rewrite Hp. unfold PlayerController.onPointerlockChange.
  change (Dom.pointerLockElement (Dom.document (Main.world (Main.set_world w1 st))))
    with element.
  change (match element with Some Dom.Canvas => true | _ => false end) with held.
  fold changed. by destruct changed.
Qed.

(** *** A click on the canvas of an unlocked gallery *)

Lemma lock_available (w : Dom.World) (c : PlayerController.t) :
  capture_available w ->
  (PlayerController.lock w c).1.2 = c
  /\ (PlayerController.lock w c).2 = length (Dom.promises w)
  /\ capture_available (PlayerController.lock w c).1.1
  /\ Dom.promises (PlayerController.lock w c).1.1
     = Dom.promises w ++ [Dom.Pending]
  /\ Dom.lock_requests (PlayerController.lock w c).1.1
     = S (Dom.lock_requests w)
  /\ Dom.canvas_listeners (Dom.canvas (PlayerController.lock w c).1.1)
     = Dom.canvas_listeners (Dom.canvas w)
       ++ [Dom.OnLock (length (Dom.promises w))]
  /\ Dom.document (PlayerController.lock w c).1.1 = Dom.document w
  /\ Dom.console_error (PlayerController.lock w c).1.1 = Dom.console_error w.
Proof.
  intros [f Hf]. unfold PlayerController.lock, capture_available. simpl.
  rewrite Hf. simpl. by repeat split.
Qed.

(** X9.  A left click on the canvas of an unlocked gallery reaches [lock()]
    twice, through the controller's listener and through the page's: two
    requests go to the browser, two promises are pending, two closures wait
    on the canvas.  The controller is unchanged and nothing is logged. *)
Theorem one_click_asks_for_the_pointer_twice
    (x y : num) (st : Main.State) (c : PlayerController.t) :
  Main.player st = Some c ->
  PlayerController.isLocked c = false ->
  capture_available (Main.world st) ->
  let st' := Main.step intersectObjects (Main.Click 0 x y) st in
  let n := length (Dom.promises (Main.world st)) in
  Main.player st' = Some c
  /\ Dom.lock_requests (Main.world st') = S (S (Dom.lock_requests (Main.world st)))
  /\ Dom.promises (Main.world st')
     = Dom.promises (Main.world st) ++ [Dom.Pending; Dom.Pending]
  /\ Dom.canvas_listeners (Dom.canvas (Main.world st'))
     = Dom.canvas_listeners (Dom.canvas (Main.world st))
       ++ [Dom.OnLock n; Dom.OnLock (S n)]
  /\ Dom.console_error (Main.world st') = Dom.console_error (Main.world st).
Proof.
  intros Hp Hl Hw st' n. subst st'.
  change (Main.step intersectObjects (Main.Click 0 x y) st)
    with (let st1 := Main.on_player
            (fun w c => let '(w, c, _) := PlayerController.lock w c in (w, c)) st in
          if negb (Main.locked st1)
          then Main.lock_catch "Failed to lock pointer: " st1
          else Main.handleArtworkClick intersectObjects x y st1).
  cbv zeta.
  destruct (lock_available (Main.world st) c Hw)
    as (Hc1 & Hn1 & Hw1 & Hps1 & Hlr1 & Hcl1 & Hd1 & Hce1).
  set (st1 := Main.on_player _ st).
  assert (Hst1 : st1 = Main.set_world (PlayerController.lock (Main.world st) c).1.1
                         (Main.set_player c st)).
  { subst st1. unfold Main.on_player. rewrite Hp.
    destruct (PlayerController.lock (Main.world st) c) as [[w1 c1] p1].
    simpl in *. by subst. }
  rewrite Hst1.
  set (w1 := (PlayerController.lock (Main.world st) c).1.1) in *.
  assert (Hl1 : Main.locked (Main.set_world w1 (Main.set_player c st)) = false)
    by exact Hl.
  rewrite Hl1. simpl negb. cbv iota.
  unfold Main.lock_catch.
  change (Main.player (Main.set_world w1 (Main.set_player c st))) with (Some c).
  change (Main.world (Main.set_world w1 (Main.set_player c st))) with w1.
  cbv beta iota.
  destruct (lock_available w1 c Hw1)
    as (Hc2 & Hn2 & Hw2 & Hps2 & Hlr2 & Hcl2 & Hd2 & Hce2).
  destruct (PlayerController.lock w1 c) as [[w2 c2] p2]. simpl in *.
  subst c2 p2.
  assert (Hpend : Dom.promises w2 !! length (Dom.promises w1) = Some Dom.Pending).
  { rewrite Hps2. by rewrite lookup_app_r, Nat.sub_diag by lia. }
  rewrite Hpend. simpl.
  split; [done|]. split; [congruence|].
  split; [by rewrite Hps2, Hps1, <- app_assoc|].
  split; [|congruence].
  rewrite Hcl2, Hcl1, Hps1, <- app_assoc, length_app. simpl.
  subst n. by rewrite Nat.add_1_r.
Qed.

End Release.

(* ===================================================================== *)
(** ** The info panel and the cursor *)
(* ===================================================================== *)

Section InfoPanel.
Context {N : Number}.
Variable intersectObjects : Main.Raycaster.
Local Open Scope nat_scope.

Lemma settle_panel (p : nat) (x : Dom.Settlement) (w : Dom.World) :
  panel (Dom.settle p x w) = panel w.
Proof.
  unfold Dom.settle. destruct (Dom.promises w !! p) as [[]|]; reflexivity.
Qed.

Lemma lock_panel (w : Dom.World) (c : PlayerController.t) :
  panel (PlayerController.lock w c).1.1 = panel w.
Proof.
  unfold PlayerController.lock. simpl.
  destruct (Dom.or_else _ _); simpl; [reflexivity|].
  by rewrite settle_panel.
Qed.

Lemma unlock_panel (w : Dom.World) (c : PlayerController.t) :
  panel (PlayerController.unlock w c).1.1 = panel w.
Proof.
  unfold PlayerController.unlock. simpl.
  destruct (Dom.or_else _ _); simpl; [reflexivity|].
  by rewrite settle_panel.
Qed.

Lemma onKeyDown_panel (code : string) (w : Dom.World) (c : PlayerController.t) :
  panel (PlayerController.onKeyDown code w c).1 = panel w.
Proof.
  unfold PlayerController.onKeyDown.
  repeat (match goal with |- context [PlayerController.is_code ?a ?b] =>
            destruct (PlayerController.is_code a b) end); try reflexivity.
  pose proof (unlock_panel w c) as H.
  by destruct (PlayerController.unlock w c) as [[w' c'] p].
Qed.

Lemma on_player_billboard h (st : Main.State) :
  (forall w c, panel (h w c).1 = panel w) ->
  billboard (Main.on_player h st) = billboard st.
Proof.
  intros Hh. unfold Main.on_player.
  destruct (Main.player st) as [c|]; [|done].
  specialize (Hh (Main.world st) c).
  destruct (h (Main.world st) c) as [w' c']. simpl in *.
  unfold billboard, panel in *. simpl. by injection Hh as -> -> -> -> ->.
Qed.

Lemma lock_catch_billboard (prefix : string) (st : Main.State) :
  billboard (Main.lock_catch prefix st) = billboard st.
Proof.
  unfold Main.lock_catch.
  destruct (Main.player st) as [c|]; [|done].
  pose proof (lock_panel (Main.world st) c) as H.
  destruct (PlayerController.lock (Main.world st) c) as [[w' c'] p].
  simpl in *. unfold billboard, panel in *.
  destruct (Dom.promises w' !! p) as [[]|]; simpl;
    by injection H as -> -> -> -> ->.
Qed.

Lemma unlock_catch_billboard (st : Main.State) :
  billboard (Main.unlock_catch st) = billboard st.
Proof.
  unfold Main.unlock_catch.
  destruct (Main.player st) as [c|]; [|done].
  pose proof (unlock_panel (Main.world st) c) as H.
  destruct (PlayerController.unlock (Main.world st) c) as [[w' c'] p].
  simpl in *. unfold billboard, panel in *.
  destruct (Dom.promises w' !! p) as [[]|]; simpl;
    by injection H as -> -> -> -> ->.
Qed.

Lemma onPointerMove_billboard (x y : num) (st : Main.State) :
  billboard (Main.onPointerMove intersectObjects x y st) = billboard st.
Proof.
  unfold Main.onPointerMove.
  destruct (Main.player st) as [c|]; [|done].
  destruct (negb _); [done|].
  unfold Main.hover_pass.
  simpl. destruct (Main.reset_highlights _ _) as [arts s]. simpl.
  by destruct (Main.hover_loop _ _ _) as [[found arts'] s'].
Qed.

Lemma run_listeners_billboard (ls : list Dom.Listener) (st : Main.State) :
  billboard (foldl (fun st l => Main.run_listener l st) st ls) = billboard st.
Proof.
  revert st. induction ls as [|l ls IH]; intros st; [reflexivity|].
  simpl. rewrite IH.
  destruct l; apply on_player_billboard; intros; simpl; apply settle_panel.
Qed.

(** The click handlers either leave the billboard or call
    [showArtworkInfo]. *)
Lemma handleArtworkClick_billboard (x y : num) (st : Main.State) :
  billboard (Main.handleArtworkClick intersectObjects x y st) = billboard st
  \/ exists title artist st',
       billboard st' = billboard st
       /\ Main.handleArtworkClick intersectObjects x y st
          = Main.showArtworkInfo title artist st'.
Proof.
  unfold Main.handleArtworkClick.
  destruct (Main.player st) as [c|]; [|by left].
  destruct (negb _); [by left|].
  destruct (Main.click_pass _ _ _ _ _); [|by left].
  destruct (Main.userData_data _ _) as [d|]; [|by left].
  right. eexists _, _, _. split; [|reflexivity]. reflexivity.
Qed.

Lemma step_billboard (ev : Main.Event) (st : Main.State) :
  match ev with
  | Main.Timeout _ => True
  | Main.Click _ x y | Main.ContextMenu x y =>
      billboard (Main.step intersectObjects ev st) = billboard st
      \/ exists title artist st',
           billboard st' = billboard st
           /\ Main.step intersectObjects ev st
              = Main.showArtworkInfo title artist st'
  | _ => billboard (Main.step intersectObjects ev st) = billboard st
  end.
Proof.
  destruct ev; cbn [Main.step]; try exact I.
  - (* Frame *) unfold Main.animate. by destruct (Main.player st).
  - (* KeyDown *)
    set (st1 := Main.on_player (PlayerController.onKeyDown code) st).
    assert (H1 : billboard st1 = billboard st)
      by apply on_player_billboard, onKeyDown_panel.
    set (st2 := if _ && _ then _ else _).
    assert (H2 : billboard st2 = billboard st).
    { subst st2. destruct (_ && _); [by rewrite unlock_catch_billboard|done]. }
    destruct (Main.locked st2); [|done].
    rewrite on_player_billboard; [done|apply onKeyDown_panel].
  - (* KeyUp *) by rewrite !on_player_billboard.
  - (* MouseMove *)
    rewrite onPointerMove_billboard. by rewrite on_player_billboard.
  - (* Click *)
    set (st1 := Main.on_player _ st).
    assert (H1 : billboard st1 = billboard st).
    { apply on_player_billboard. intros w c.
      pose proof (lock_panel w c) as H.
      by destruct (PlayerController.lock w c) as [[w' c'] p]. }
    destruct (bool_decide _); [|by left].
    destruct (negb _).
    + left. by rewrite lock_catch_billboard.
    + destruct (handleArtworkClick_billboard clientX clientY st1)
        as [H|(t & a & st' & H & E)].
      * left. by rewrite H.
      * right. exists t, a, st'. split; [by rewrite H|done].
  - (* ContextMenu *)
    destruct (Main.locked st).
    + apply handleArtworkClick_billboard.
    + left. by rewrite lock_catch_billboard.
  - (* InstructionsClick *)
    destruct (_ && _); [by rewrite lock_catch_billboard|done].
  - (* PointerLockChange *)
    rewrite run_listeners_billboard.
    change (billboard (Main.set_world ?w ?s)) with
      (panel w, Main.infoTimeout s).
    set (st1 := Main.on_player _ _).
    assert (H1 : billboard st1 = billboard st).
    { subst st1. rewrite on_player_billboard; [done|].
      intros w c. unfold PlayerController.onPointerlockChange.
      by destruct (negb _). }
    unfold billboard, panel in *. simpl. by injection H1 as -> -> -> -> -> ->.
  - (* CanvasPointerLockChange *)
    by rewrite run_listeners_billboard.
  - (* PointerLockError *) done.
  - (* Resize *) done.
Qed.


Lemma one_timer_billboard (st st' : Main.State) :
  billboard st' = billboard st -> one_timer st -> one_timer st'.
Proof. unfold billboard, one_timer. by intros [= _ _ _ -> -> ->]. Qed.

Lemma has_info_panel_billboard (st st' : Main.State) :
  billboard st' = billboard st ->
  has_info_panel (Main.world st) -> has_info_panel (Main.world st').
Proof. unfold billboard, has_info_panel. by intros [= -> -> -> _ _ _]. Qed.

Lemma showArtworkInfo_missing (title artist : string) (st : Main.State) :
  ~ has_info_panel (Main.world st) ->
  Main.showArtworkInfo title artist st = st.
Proof.
  intros H. unfold Main.showArtworkInfo.
  destruct (Dom.title (Dom.document (Main.world st))) eqn:E1; [|done].
  destruct (Dom.artist (Dom.document (Main.world st))) eqn:E2; [|done].
  destruct (Dom.info_panel (Dom.document (Main.world st))) eqn:E3; [|done].
  destruct H. unfold has_info_panel. by rewrite E1, E2, E3.
Qed.

Lemma showArtworkInfo_one_timer (title artist : string) (st : Main.State) :
  one_timer st -> one_timer (Main.showArtworkInfo title artist st).
Proof.
  intros [Hn Ht]. unfold Main.showArtworkInfo.
  destruct (Dom.title (Dom.document (Main.world st))); [|done].
  destruct (Dom.artist (Dom.document (Main.world st))); [|done].
  destruct (Dom.info_panel (Dom.document (Main.world st))); [|done].
  destruct (Main.infoTimeout st) as [[|id]|]; unfold one_timer; simpl.
  - destruct Ht as [_ Ht]. lia.
  - split; [lia|]. destruct Ht as [-> _].
    rewrite filter_cons_False by (intros H; by apply H).
    rewrite filter_nil. split; [done|lia].
  - split; [lia|]. rewrite Ht. split; [done|lia].
Qed.

Lemma timeout_one_timer (id : nat) (st : Main.State) :
  one_timer st -> one_timer (Main.step intersectObjects (Main.Timeout id) st).
Proof.
  intros [Hn Ht]. cbn [Main.step].
  case_bool_decide as Hid; [|done].
  unfold one_timer. simpl. split; [done|].
  destruct (Main.infoTimeout st) as [id0|].
  - destruct Ht as [Ht _]. rewrite Ht in Hid |- *.
    apply list_elem_of_singleton in Hid as ->.
    by rewrite filter_cons_False by (intros H; by apply H).
  - rewrite Ht in Hid. by apply not_elem_of_nil in Hid.
Qed.

Lemma step_one_timer (ev : Main.Event) (st : Main.State) :
  one_timer st -> one_timer (Main.step intersectObjects ev st).
Proof.
  intros H. pose proof (step_billboard ev st) as Hb.
  destruct ev; cbv beta iota in Hb;
    try (by apply (one_timer_billboard st)).
  - destruct Hb as [Hb|(t & a & st' & Hb & ->)];
      [by apply (one_timer_billboard st)|].
    by apply showArtworkInfo_one_timer, (one_timer_billboard st).
  - destruct Hb as [Hb|(t & a & st' & Hb & ->)];
      [by apply (one_timer_billboard st)|].
    by apply showArtworkInfo_one_timer, (one_timer_billboard st).
  - by apply timeout_one_timer.
Qed.

Lemma run_one_timer (evs : list Main.Event) (st : Main.State) :
  one_timer st -> one_timer (Main.run intersectObjects evs st).
Proof.
  revert st. induction evs as [|ev evs IH]; intros st H; [done|].
  change (Main.run intersectObjects (ev :: evs) st)
    with (Main.run intersectObjects evs (Main.step intersectObjects ev st)).
  by apply IH, step_one_timer.
Qed.

Lemma forEach_artwork_infoTimeout (items : list Scene.ArtworkData)
    (index total : nat) (st : Main.State) :
  Main.infoTimeout (Main.forEach_artwork items index total st)
  = Main.infoTimeout st.
Proof.
  revert index st. induction items as [|d items IH]; intros index st; [done|].
  cbn [Main.forEach_artwork].
  destruct (Artwork.new d index total None (Main.store st)) as [a s].
  by rewrite IH.
Qed.

Lemma init_billboard (items : list Scene.ArtworkData) (first : Scene.ObjId)
    (scenery : list Scene.ObjId) (cam : PlayerController.Camera)
    (width height : num) (page : Dom.World) :
  billboard (Main.init items first scenery cam width height page)
  = (Dom.title (Dom.document page), Dom.artist (Dom.document page),
     Dom.info_panel (Dom.document page), Dom.timers page,
     Dom.next_timer page, None).
Proof.
  destruct (init_layout items first scenery cam width height page)
    as (_ & _ & _ & Hw & _).
  unfold billboard. rewrite Hw. do 5 f_equal.
  unfold Main.init, Main.setupPlayer, Main.createArtworks. simpl.
  by rewrite forEach_artwork_infoTimeout.
Qed.

Lemma one_timer_start (st : Main.State) t a p (n : nat) :
  billboard st = (t, a, p, [], n, None) -> 0 < n -> one_timer st.
Proof. unfold billboard, one_timer. by intros [= _ _ _ -> -> ->] Hn. Qed.

(** X10.  The info panel has at most one timer: in every state a session
    reaches from a page without pending timers, the timers that are pending
    are the one [state.infoTimeout] remembers, or none; and a timer that
    fires with any other id changes nothing, so that an earlier click cannot
    hide the panel of a later one. *)
Theorem at_most_one_info_timer_is_pending
    (items : list Scene.ArtworkData) (first : Scene.ObjId)
    (scenery : list Scene.ObjId) (cam : PlayerController.Camera)
    (width height : num) (page : Dom.World) (evs : list Main.Event) :
  Dom.timers page = [] ->
  0 < Dom.next_timer page ->
  let st := Main.run intersectObjects evs
              (Main.init items first scenery cam width height page) in
  Dom.timers (Main.world st)
  = match Main.infoTimeout st with Some id => [id] | None => [] end
  /\ (forall id, Main.infoTimeout st <> Some id ->
        Main.step intersectObjects (Main.Timeout id) st = st).
Proof.
  intros Ht Hn st.
  assert (H : one_timer st).
  { apply run_one_timer.
    pose proof (init_billboard items first scenery cam width height page) as Hb.
    rewrite Ht in Hb. by eapply one_timer_start. }
  destruct H as [_ H].
  assert (Hts : Dom.timers (Main.world st)
                = match Main.infoTimeout st with Some id => [id] | None => [] end).
  { destruct (Main.infoTimeout st); [by destruct H|done]. }
  split; [done|].
  intros id Hid. cbn [Main.step]. rewrite Hts.
  rewrite bool_decide_false; [done|].
  destruct (Main.infoTimeout st) as [id0|].
  - intros ->%list_elem_of_singleton. done.
  - apply not_elem_of_nil.
Qed.

(** X11.  On a page that lacks the title, the artist or the panel element,
    [showArtworkInfo] does nothing: in no session is a text written, the
    panel changed or a timer started. *)
Theorem a_page_without_the_panel_shows_nothing
    (items : list Scene.ArtworkData) (first : Scene.ObjId)
    (scenery : list Scene.ObjId) (cam : PlayerController.Camera)
    (width height : num) (page : Dom.World) (evs : list Main.Event) :
  ~ has_info_panel page ->
  Dom.timers page = [] ->
  billboard (Main.run intersectObjects evs
               (Main.init items first scenery cam width height page))
  = billboard (Main.init items first scenery cam width height page).
Proof.
  intros Hmiss Ht.
  set (st0 := Main.init items first scenery cam width height page).
  assert (Hstep : forall ev st,
            billboard st = billboard st0 ->
            billboard (Main.step intersectObjects ev st) = billboard st0).
  { intros ev st Hst.
    assert (Hmiss' : forall st', billboard st' = billboard st ->
              ~ has_info_panel (Main.world st')).
    { intros st' Hst' Hp. apply Hmiss.
      apply (has_info_panel_billboard st' st0) in Hp; [|congruence].
      destruct (init_layout items first scenery cam width height page)
        as (_ & _ & _ & Hw & _). fold st0 in Hw. by rewrite Hw in Hp. }
    pose proof (step_billboard ev st) as Hb.
    destruct ev; cbv beta iota in Hb; try congruence.
    - destruct Hb as [Hb|(t & a & st' & Hb & ->)]; [congruence|].
      rewrite showArtworkInfo_missing by by apply Hmiss'. congruence.
    - destruct Hb as [Hb|(t & a & st' & Hb & ->)]; [congruence|].
      rewrite showArtworkInfo_missing by by apply Hmiss'. congruence.
    - cbn [Main.step].
      assert (Hts : Dom.timers (Main.world st) = []).
      { unfold st0 in Hst. rewrite init_billboard in Hst.
        unfold billboard in Hst. injection Hst as _ _ _ -> _ _. done. }
      rewrite Hts. rewrite bool_decide_false; [done|apply not_elem_of_nil]. }
  assert (Hrun : forall evs st,
            billboard st = billboard st0 ->
            billboard (Main.run intersectObjects evs st) = billboard st0).
  { clear evs. intros evs.
    induction evs as [|ev evs IH]; intros st Hst; [done|].
    change (Main.run intersectObjects (ev :: evs) st)
      with (Main.run intersectObjects evs (Main.step intersectObjects ev st)).
    apply IH. by apply Hstep. }
  by apply Hrun.
Qed.

(** X12.  [showArtworkInfo] writes the title and the artist, 'Untitled'
    and 'Unknown Artist' standing in for empty ones, shows the panel and
    starts a timer; when that timer fires the panel is hidden, the texts
    stay, and the timer is forgotten. *)
Theorem the_info_panel_hides_when_its_timer_fires
    (title artist : string) (st : Main.State) :
  has_info_panel (Main.world st) ->
  let st1 := Main.showArtworkInfo title artist st in
  exists id,
    Main.infoTimeout st1 = Some id
    /\ Dom.title (Dom.document (Main.world st1))
       = Some (Main.or_string title "Untitled")
    /\ Dom.artist (Dom.document (Main.world st1))
       = Some (Main.or_string artist "Unknown Artist")
    /\ Dom.info_panel (Dom.document (Main.world st1)) = Some true
    /\ let st2 := Main.step intersectObjects (Main.Timeout id) st1 in
       Dom.info_panel (Dom.document (Main.world st2)) = Some false
       /\ Dom.title (Dom.document (Main.world st2))
          = Some (Main.or_string title "Untitled")
       /\ Dom.artist (Dom.document (Main.world st2))
          = Some (Main.or_string artist "Unknown Artist")
       /\ Main.infoTimeout st2 = None.
Proof.
  intros ([t Ht] & [a Ha] & [p Hp]) st1. subst st1.
  unfold Main.showArtworkInfo. rewrite Ht, Ha, Hp.
  destruct (Main.infoTimeout st) as [[|id]|]; simpl;
    eexists; (split; [reflexivity|]); repeat (split; [reflexivity|]);
    (rewrite bool_decide_true by left); done.
Qed.

(** X13.  After a pointer move with the pointer locked, the cursor is
    'pointer' when an artwork is highlighted and 'default' when none is. *)
Theorem the_cursor_tells_the_hover
    (movementX : option num) (x y : num) (st : Main.State)
    (c : PlayerController.t) :
  Main.player st = Some c ->
  PlayerController.isLocked c = true ->
  let st' := Main.step intersectObjects (Main.MouseMove movementX x y) st in
  Dom.cursor (Dom.document (Main.world st'))
  = match highlighted (Main.artworks st') with
    | [] => "default"%string
    | _ => "pointer"%string
    end.
Proof.
  intros Hp Hl st'. subst st'. cbn [Main.step].
  set (st1 := Main.on_player _ st).
  assert (Hp1 : Main.player st1
                = Some (PlayerController.onMouseMove movementX c)).
  { subst st1. unfold Main.on_player. by rewrite Hp. }
  assert (Hl1 : PlayerController.isLocked
                  (PlayerController.onMouseMove movementX c) = true).
  { unfold PlayerController.onMouseMove. by rewrite Hl. }
  unfold Main.onPointerMove. rewrite Hp1, Hl1. simpl negb. cbv iota.
  pose proof (hover_pass_highlighted intersectObjects x y
                (PlayerController.onMouseMove movementX c) st1) as Hh.
  assert (Hc : Dom.cursor (Dom.document (Main.world
                 (Main.hover_pass intersectObjects x y
                    (PlayerController.onMouseMove movementX c) st1).2))
               = match (Main.hover_pass intersectObjects x y
                          (PlayerController.onMouseMove movementX c) st1).1 with
                 | Some _ => "pointer"%string
                 | None => "default"%string
                 end).
  { unfold Main.hover_pass. simpl.
    destruct (Main.reset_highlights _ _) as [arts s]. simpl.
    by destruct (Main.hover_loop _ _ _) as [[found arts'] s']. }
  rewrite Hc.
  destruct (Main.hover_pass _ _ _ _ _).1 as [k|].
  - destruct Hh as (a & _ & ->). done.
  - by rewrite Hh.
Qed.

End InfoPanel.

(* ===================================================================== *)
(** ** What a session leaves alone *)
(* ===================================================================== *)

Section Fixtures.
Context {N : Number}.
Variable intersectObjects : Main.Raycaster.
Local Open Scope nat_scope.

Lemma hover_pass_unseen {B : Type} (f : Scene.Object3D -> B)
    (x y : num) (c : PlayerController.t) (st : Main.State) :
  (forall v o, f (Scene.set_scale v o) = f o) ->
  (forall e o, f (Scene.set_emissive e o) = f o) ->
  f <$> Scene.objects (Main.store (Main.hover_pass intersectObjects x y c st).2)
  = f <$> Scene.objects (Main.store st)
  /\ Main.scene (Main.hover_pass intersectObjects x y c st).2 = Main.scene st.
Proof.
  intros Hs He. unfold Main.hover_pass. simpl.
  destruct (reset_highlights_unseen f (Main.artworks st) (Main.store st) Hs He)
    as [_ H1].
  destruct (Main.reset_highlights _ _) as [arts s]. simpl in *.
  match goal with |- context [Main.hover_loop ?i arts s] =>
    destruct (hover_loop_unseen f i arts s Hs He) as [_ H2];
    destruct (Main.hover_loop i arts s) as [[found arts'] s']
  end.
  simpl in *. by rewrite H2, H1.
Qed.

Lemma step_unseen {B : Type} (f : Scene.Object3D -> B)
    (ev : Main.Event) (st : Main.State) :
  (forall v o, f (Scene.set_scale v o) = f o) ->
  (forall e o, f (Scene.set_emissive e o) = f o) ->
  (forall o, f (Scene.bake o) = f o) ->
  f <$> Scene.objects (Main.store (Main.step intersectObjects ev st))
  = f <$> Scene.objects (Main.store st)
  /\ Main.scene (Main.step intersectObjects ev st) = Main.scene st.
Proof.
  intros Hs He Hb.
  pose proof (step_gallery intersectObjects ev st) as H.
  assert (Hg : forall st', gallery st' = gallery st ->
            f <$> Scene.objects (Main.store st') = f <$> Scene.objects (Main.store st)
            /\ Main.scene st' = Main.scene st).
  { intros st'. unfold gallery. by intros [= _ -> ->]. }
  destruct ev; try (by apply Hg).
  - (* Frame *)
    cbv beta iota in H.
    pose proof (f_equal (fun g => g.1.2) H) as Hst.
    pose proof (f_equal (fun g => g.2) H) as Hsc.
    unfold gallery in Hst, Hsc. cbn [fst snd] in Hst, Hsc.
    rewrite Hst, Hsc. split; [|done].
    unfold Scene.render. cbn [Scene.objects]. rewrite <- map_fmap_compose.
    apply map_fmap_ext. intros i o _. apply Hb.
  - (* MouseMove *)
    destruct H as (st' & Hst' & ->).
    destruct (Hg st' Hst') as [<- <-].
    unfold Main.onPointerMove.
    destruct (Main.player st') as [c|]; [|done].
    destruct (negb _); [done|]. by apply hover_pass_unseen.
Qed.

Lemma run_unseen {B : Type} (f : Scene.Object3D -> B)
    (evs : list Main.Event) (st : Main.State) :
  (forall v o, f (Scene.set_scale v o) = f o) ->
  (forall e o, f (Scene.set_emissive e o) = f o) ->
  (forall o, f (Scene.bake o) = f o) ->
  f <$> Scene.objects (Main.store (Main.run intersectObjects evs st))
  = f <$> Scene.objects (Main.store st)
  /\ Main.scene (Main.run intersectObjects evs st) = Main.scene st.
Proof.
  intros Hs He Hb. revert st.
  induction evs as [|ev evs IH]; intros st; [done|].
  change (Main.run intersectObjects (ev :: evs) st)
    with (Main.run intersectObjects evs (Main.step intersectObjects ev st)).
  destruct (IH (Main.step intersectObjects ev st)) as [-> ->].
  by apply step_unseen.
Qed.

(** X14.  Whatever events arrive, the three nodes of every registered
    artwork (its group, its frame, its picture) keep their position, what
    they face, their shape, their colour, their tag and their children, and
    the registry holds the same artworks with the same nodes and data. *)
Theorem the_artworks_keep_their_layout
    (evs : list Main.Event) (st : Main.State) :
  Forall (fun a =>
            Forall (fun id =>
                      fixture <$> Scene.objects
                                    (Main.store (Main.run intersectObjects evs st))
                                  !! id
                      = fixture <$> Scene.objects (Main.store st) !! id)
              [Artwork.group a; Artwork.frame a; Artwork.artwork a])
    (Main.artworks st)
  /\ identity <$> Main.artworks (Main.run intersectObjects evs st)
     = identity <$> Main.artworks st.
Proof.
  destruct (run_unseen fixture evs st) as [H1 _]; try done.
  split.
  - apply Forall_forall. intros a _. apply Forall_forall. intros id _.
    by rewrite <- !lookup_fmap, H1.
  - pose proof (run_shape intersectObjects evs st) as H.
    apply (f_equal fst) in H. exact H.
Qed.

(** X15.  In every state a session reaches, [showInfo()] of the k-th
    registered artwork returns the title and the artist of the k-th entry of
    the manifest. *)
Theorem showInfo_returns_the_manifest_entry
    (items : list Scene.ArtworkData) (first : Scene.ObjId)
    (scenery : list Scene.ObjId) (cam : PlayerController.Camera)
    (width height : num) (page : Dom.World) (evs : list Main.Event) :
  Artwork.showInfo
    <$> Main.artworks
          (Main.run intersectObjects evs
             (Main.init items first scenery cam width height page))
  = (fun d => (Scene.title d, Scene.artist d)) <$> items.
Proof.
  set (st0 := Main.init items first scenery cam width height page).
  pose proof (run_shape intersectObjects evs st0) as H.
  apply (f_equal fst) in H. unfold shape in H. cbn [fst] in H.
  assert (E : forall arts : list Artwork.t,
            Artwork.showInfo <$> arts
            = (fun i : Scene.ArtworkData * Scene.ObjId * Scene.ObjId * Scene.ObjId =>
                 (Scene.title i.1.1.1, Scene.artist i.1.1.1))
                <$> (identity <$> arts)).
  { intros arts. rewrite <- list_fmap_compose. by apply list_fmap_ext. }
  rewrite (E (Main.artworks (Main.run intersectObjects evs st0))), H,
    <- (E (Main.artworks st0)).
  destruct (init_layout items first scenery cam width height page)
    as (Ha & _). fold st0 in Ha. rewrite Ha.
  rewrite fmap_imap. apply list_eq. intros i.
  rewrite list_lookup_imap, list_lookup_fmap. by destruct (items !! i).
Qed.

End Fixtures.

Section Ring.
Local Open Scope R_scope.
Variable intersectObjects : Main.Raycaster (N := Real).

Lemma fixture_position (o o' : Scene.Object3D (N := Real)) :
  fixture o' = fixture o ->
  Scene.position o' = Scene.position o /\ Scene.lookAt o' = Scene.lookAt o.
Proof. unfold fixture. by intros [= -> -> _ _ _ _]. Qed.

Lemma reachable_group (items : list Scene.ArtworkData) (first : Scene.ObjId)
    (scenery : list Scene.ObjId) (cam : PlayerController.Camera (N := Real))
    (width height : R) (page : Dom.World) (evs : list Main.Event)
    (i : nat) (a : Artwork.t) :
  let st := Main.run intersectObjects evs
              (Main.init items first scenery cam width height page) in
  Main.artworks st !! i = Some a ->
  (i < length items)%nat
  /\ exists node,
       Scene.objects (Main.store st) !! Artwork.group a = Some node
       /\ Scene.position node
          = Vector3.set (sin (theta i (length items)) * 15) (16 / 10)
              (cos (theta i (length items)) * 15)
       /\ Scene.lookAt node = Some (Vector3.set 0 (16 / 10) 0).
Proof.
  intros st Ha.
  set (st0 := Main.init items first scenery cam width height page) in *.
  destruct (init_layout items first scenery cam width height page)
    as (Ha0 & _ & _ & _ & Ho). fold st0 in Ha0, Ho.
  pose proof (run_shape intersectObjects evs st0) as Hsh.
  apply (f_equal fst) in Hsh. unfold shape in Hsh. cbn [fst] in Hsh.
  fold st in Hsh.
  apply (f_equal (fun l => l !! i)) in Hsh.
  rewrite !list_lookup_fmap, Ha, Ha0, list_lookup_imap in Hsh.
  destruct (items !! i) as [d|] eqn:Hi; [|done].
  split; [by eapply lookup_lt_Some|].
  cbn [fmap option_fmap option_map] in Hsh.
  assert (Hg : Artwork.group a = (first + 3 * i)%nat).
  { assert (Hid : identity a
                  = identity (artwork_at d i (length items) (int 15)
                                (first + 3 * i))) by congruence.
    by apply identity_eq in Hid as (_ & -> & _). }
  destruct (run_unseen intersectObjects fixture evs st0) as [Hf _]; try done.
  fold st in Hf.
  apply (f_equal (fun m => m !! (first + 3 * i)%nat)) in Hf.
  rewrite !lookup_fmap in Hf.
  assert (H0 : Scene.objects (Main.store st0) !! (first + 3 * i)%nat
               = Some (group_node (0 + i) (length items) (int 15)
                         (S (first + 3 * i)) (S (S (first + 3 * i))))).
  { apply Ho. exists i, d. split; [done|]. by left. }
  rewrite H0 in Hf. rewrite Hg.
  destruct (Scene.objects (Main.store st) !! (first + 3 * i)%nat) as [node|];
    [|done].
  exists node. split; [done|].
  cbn [fmap option_fmap option_map] in Hf.
  assert (Hfx : fixture node = fixture (group_node (N := Real) (0 + i) (length items)
                                 (int 15) (S (first + 3 * i))
                                 (S (S (first + 3 * i))))) by congruence.
  apply fixture_position in Hfx as [-> ->].
  apply group_node_position.
Qed.

Lemma theta_range (i n : nat) : (i < n)%nat -> 0 <= theta i n < 2 * PI.
Proof.
  intros Hi. unfold theta.
  assert (Hn : 0 < INR n) by (apply lt_0_INR; lia).
  assert (H0 : 0 <= INR i) by apply pos_INR.
  assert (H1 : INR i < INR n) by (by apply lt_INR).
  assert (Hq : 0 <= INR i / INR n < 1).
  { split.
    - apply Rmult_le_pos; [done|]. left. by apply Rinv_0_lt_compat.
    - apply (Rmult_lt_reg_r (INR n)); [done|]. field_simplify; lra. }
  pose proof PI_RGT_0. split; nra.
Qed.

Lemma theta_inj (i j n : nat) : (0 < n)%nat -> theta i n = theta j n -> i = j.
Proof.
  intros Hn H. unfold theta in H.
  assert (Hn' : 0 < INR n) by (apply lt_0_INR; lia).
  pose proof PI_RGT_0.
  apply INR_eq.
  assert (H2 : INR i / INR n = INR j / INR n) by nra.
  apply (f_equal (fun x => x * INR n)) in H2.
  field_simplify in H2; lra.
Qed.

Lemma same_angle (a b : R) :
  0 <= a < 2 * PI -> 0 <= b < 2 * PI ->
  sin a = sin b -> cos a = cos b -> a = b.
Proof.
  intros Ha Hb Hs Hc.
  assert (H1 : cos (a - b) = 1).
  { rewrite cos_minus, Hs, Hc. pose proof (sin2_cos2 b) as H.
    unfold Rsqr in H. lra. }
  assert (H2 : sin ((a - b) / 2) = 0).
  { pose proof (cos_2a_sin ((a - b) / 2)) as H.
    replace (2 * ((a - b) / 2)) with (a - b) in H by lra.
    rewrite H1 in H. nra. }
  destruct (Rtotal_order a b) as [Hlt|[Heq|Hgt]]; [|done|].
  - assert (H3 : 0 < sin ((b - a) / 2)) by (apply sin_gt_0; lra).
    replace ((b - a) / 2) with (- ((a - b) / 2)) in H3 by lra.
    rewrite sin_neg in H3. lra.
  - assert (H3 : 0 < sin ((a - b) / 2)) by (apply sin_gt_0; lra). lra.
Qed.

(** X16.  In exact arithmetic.  In every state a session reaches there are
    as many artworks as entries of the manifest, artwork [i] of [n] stands at
    (sin t * 15, 1.6, cos t * 15) with t = (i / n) 2 PI and faces the
    centre, and no two artworks stand in the same place. *)
Theorem the_artworks_stay_on_their_circle
    (items : list Scene.ArtworkData) (first : Scene.ObjId)
    (scenery : list Scene.ObjId) (cam : PlayerController.Camera (N := Real))
    (width height : R) (page : Dom.World) (evs : list Main.Event) :
  let st := Main.run intersectObjects evs
              (Main.init items first scenery cam width height page) in
  length (Main.artworks st) = length items
  /\ (forall i a,
        Main.artworks st !! i = Some a ->
        exists node,
          Scene.objects (Main.store st) !! Artwork.group a = Some node
          /\ Scene.position node
             = Vector3.set (sin (theta i (length items)) * 15) (16 / 10)
                 (cos (theta i (length items)) * 15)
          /\ Scene.lookAt node = Some (Vector3.set 0 (16 / 10) 0))
  /\ (forall i j a b na nb,
        Main.artworks st !! i = Some a -> Main.artworks st !! j = Some b ->
        Scene.objects (Main.store st) !! Artwork.group a = Some na ->
        Scene.objects (Main.store st) !! Artwork.group b = Some nb ->
        i <> j -> Scene.position na <> Scene.position nb).
Proof.
  intros st. split; [|split].
  - pose proof (run_shape intersectObjects evs
                  (Main.init items first scenery cam width height page)) as Hsh.
    apply (f_equal fst) in Hsh. unfold shape in Hsh. cbn [fst] in Hsh.
    apply (f_equal length) in Hsh. rewrite !length_fmap in Hsh.
    fold st in Hsh. rewrite Hsh.
    destruct (init_layout items first scenery cam width height page) as (-> & _).
    apply length_imap.
  - intros i a Ha. by apply reachable_group.
  - intros i j a b na nb Ha Hb Hna Hnb Hij Hpos.
    destruct (reachable_group items first scenery cam width height page evs i a Ha)
      as (Hi & na' & Hna' & Hpa & _).
    destruct (reachable_group items first scenery cam width height page evs j b Hb)
      as (Hj & nb' & Hnb' & Hpb & _).
    fold st in Hna', Hnb'.
    assert (na' = na) by congruence. assert (nb' = nb) by congruence.
    subst na' nb'. rewrite Hpa, Hpb in Hpos.
    injection Hpos as Hs Hc.
    apply Hij, (theta_inj i j (length items)); [lia|].
    apply same_angle; try (by apply theta_range); lra.
Qed.

End Ring.

(* ===================================================================== *)
(** ** The look of an artwork *)
(* ===================================================================== *)

Section HoverInOut.
Context {N : Number}.
Local Open Scope nat_scope.

Lemma lookup_modify (f : Scene.Object3D -> Scene.Object3D)
    (id k : Scene.ObjId) (s : Scene.Store) :
  Scene.objects (Scene.modify f id s) !! k
  = if decide (id = k) then f <$> Scene.objects s !! k
    else Scene.objects s !! k.
Proof.
  unfold Scene.modify. cbn [Scene.objects].
  destruct (decide (id = k)) as [->|Hne].
  - apply lookup_alter_eq.
  - by apply lookup_alter_ne.
Qed.

Lemma store_eq (s s' : Scene.Store) :
  Scene.next s' = Scene.next s ->
  (forall k, Scene.objects s' !! k = Scene.objects s !! k) ->
  s' = s.
Proof.
  destruct s as [m n], s' as [m' n']. simpl. intros -> H.
  f_equal. by apply map_eq.
Qed.

Lemma set_scale_back (v : Vector3.t) (o : Scene.Object3D) :
  Scene.set_scale (Scene.scale o) (Scene.set_scale v o) = o.
Proof. by destruct o. Qed.

Lemma set_emissive_back (e : Z) (o : Scene.Object3D) (e0 : Z) :
  Scene.emissive o = None \/ Scene.emissive o = Some e0 ->
  Scene.set_emissive e0 (Scene.set_emissive e o) = o.
Proof. destruct o as [p l sc mw g c em u ch]. simpl. by intros [->| ->]. Qed.

(** X17.  Hovering in and out: for an artwork that is not hovered, whose
    group has scale 1 and whose frame does not glow, [setHighlight(true)]
    followed by [setHighlight(false)] gives back the artwork and every node
    of the scene as they were. *)
Theorem hovering_in_and_out_restores_the_scene
    (a : Artwork.t) (s : Scene.Store) :
  Artwork.isHovered a = false ->
  (forall o, Scene.objects s !! Artwork.group a = Some o ->
             Scene.scale o = Vector3.set (int 1) (int 1) (int 1)) ->
  (forall o, Scene.objects s !! Artwork.frame a = Some o ->
             Scene.emissive o = None \/ Scene.emissive o = Some 0%Z) ->
  Artwork.setHighlight false (Artwork.setHighlight true a s).1
                             (Artwork.setHighlight true a s).2
  = (a, s).
Proof.
  intros Hh Hg Hf. unfold Artwork.setHighlight at 2 3. rewrite Hh. simpl.
  unfold Artwork.setHighlight. simpl.
  f_equal; [by destruct a; simpl in *; subst|].
  apply store_eq; [done|]. intros k.
  rewrite !lookup_modify.
  destruct (decide (Artwork.frame a = k)) as [Hfk|Hfk];
    destruct (decide (Artwork.group a = k)) as [Hgk|Hgk]; [| | |done].
  - subst k.
    destruct (Scene.objects s !! Artwork.frame a) as [o|] eqn:E; [|done].
    rewrite Hgk in Hg. specialize (Hg o E). specialize (Hf o eq_refl).
    simpl. f_equal.
    destruct o as [p l sc mw g c em u ch]. simpl in *. subst sc.
    by destruct Hf as [->| ->].
  - subst k.
    destruct (Scene.objects s !! Artwork.frame a) as [o|] eqn:E; [|done].
    simpl. f_equal. by apply set_emissive_back, Hf.
  - subst k.
    destruct (Scene.objects s !! Artwork.group a) as [o|] eqn:E; [|done].
    simpl. f_equal. rewrite <- (Hg o eq_refl). apply set_scale_back.
Qed.

End HoverInOut.

Section Styled.
Context {N : Number}.
Variable intersectObjects : Main.Raycaster.
Local Open Scope nat_scope.

Lemma setHighlight_elsewhere (flag : bool) (a : Artwork.t) (s : Scene.Store)
    (k : Scene.ObjId) :
  k <> Artwork.group a -> k <> Artwork.frame a ->
  Scene.objects (Artwork.setHighlight flag a s).2 !! k = Scene.objects s !! k.
Proof.
  intros Hg Hf. unfold Artwork.setHighlight.
  destruct (flag && negb (Artwork.isHovered a));
    [|destruct (negb flag && Artwork.isHovered a)]; cbn [snd]; [| |done];
    rewrite !lookup_modify; by rewrite !decide_False by done.
Qed.

Lemma setHighlight_styled_other (flag : bool) (a b : Artwork.t) (s : Scene.Store) :
  Artwork.group b <> Artwork.group a -> Artwork.group b <> Artwork.frame a ->
  Artwork.frame b <> Artwork.group a -> Artwork.frame b <> Artwork.frame a ->
  styled s b -> styled (Artwork.setHighlight flag a s).2 b.
Proof.
  intros H1 H2 H3 H4 (g & f & Hg & Hf & Hs & He).
  exists g, f. by rewrite !setHighlight_elsewhere by done.
Qed.

Lemma setHighlight_styled (flag : bool) (a : Artwork.t) (s : Scene.Store) :
  Artwork.group a <> Artwork.frame a ->
  styled s a ->
  styled (Artwork.setHighlight flag a s).2 (Artwork.setHighlight flag a s).1.
Proof.
  intros Hne (g & f & Hg & Hf & Hs & He). unfold Artwork.setHighlight.
  destruct (flag && negb (Artwork.isHovered a)) eqn:E1;
    [|destruct (negb flag && Artwork.isHovered a) eqn:E2]; cbn [fst snd].
  - exists (Scene.set_scale
              (Vector3.set (Artwork.highlightScale a) (Artwork.highlightScale a)
                 (Artwork.highlightScale a)) g),
           (Scene.set_emissive 0x333333 f).
    cbn [Artwork.group Artwork.frame Artwork.isHovered Artwork.highlightScale
         Artwork.set_isHovered].
    rewrite !lookup_modify.
    rewrite (decide_False (P := Artwork.frame a = Artwork.group a)) by done.
    rewrite !decide_True by done.
    rewrite (decide_False (P := Artwork.group a = Artwork.frame a)) by done.
    rewrite Hg, Hf. simpl. by rewrite He.
  - exists (Scene.set_scale (Vector3.set (int 1) (int 1) (int 1)) g),
           (Scene.set_emissive 0x000000 f).
    cbn [Artwork.group Artwork.frame Artwork.isHovered Artwork.highlightScale
         Artwork.set_isHovered].
    rewrite !lookup_modify.
    rewrite (decide_False (P := Artwork.frame a = Artwork.group a)) by done.
    rewrite !decide_True by done.
    rewrite (decide_False (P := Artwork.group a = Artwork.frame a)) by done.
    rewrite Hg, Hf. simpl. by rewrite He.
  - by exists g, f.
Qed.

Lemma separate_identity (arts arts' : list Artwork.t) :
  identity <$> arts' = identity <$> arts -> separate arts -> separate arts'.
Proof.
  intros Hid Hsep i j a' b' Ha' Hb'.
  pose proof (f_equal (fun l => l !! i) Hid) as Hi.
  pose proof (f_equal (fun l => l !! j) Hid) as Hj.
  cbv beta in Hi, Hj. rewrite !list_lookup_fmap in Hi, Hj.
  rewrite Ha' in Hi. rewrite Hb' in Hj.
  destruct (arts !! i) as [a|] eqn:Ea; [|by simpl in Hi].
  destruct (arts !! j) as [b|] eqn:Eb; [|by simpl in Hj].
  cbn [fmap option_fmap option_map] in Hi, Hj.
  assert (Hia : identity a' = identity a) by congruence.
  assert (Hib : identity b' = identity b) by congruence.
  apply identity_eq in Hia as (_ & -> & -> & _).
  apply identity_eq in Hib as (_ & -> & -> & _).
  by apply (Hsep i j).
Qed.

Lemma separate_tail (a : Artwork.t) (arts : list Artwork.t) :
  separate (a :: arts) -> separate arts.
Proof.
  intros H i j x y Hx Hy.
  destruct (H (S i) (S j) x y Hx Hy) as [H1 H2].
  split; [done|]. intros Hij. apply H2. lia.
Qed.

Lemma aloof_identity (arts : list Artwork.t) (b b' : Artwork.t) :
  identity b' = identity b -> aloof arts b -> aloof arts b'.
Proof.
  intros (_ & Hg & Hf & _)%identity_eq H a Ha. rewrite Hg, Hf. by apply H.
Qed.

Lemma separate_head (a : Artwork.t) (arts : list Artwork.t) :
  separate (a :: arts) ->
  Artwork.group a <> Artwork.frame a /\ aloof arts a
  /\ Forall (fun b => aloof [a] b) arts.
Proof.
  intros H. split; [|split].
  - by destruct (H 0 0 a a eq_refl eq_refl).
  - intros b [k Hk]%list_elem_of_lookup.
    destruct (H 0 (S k) a b eq_refl Hk) as [H1 H2].
    destruct (H (S k) 0 b a Hk eq_refl) as [H3 _].
    destruct H2 as [H4 H5]; [lia|]. done.
  - apply Forall_forall. intros b [k Hk]%list_elem_of_lookup x Hx.
    apply list_elem_of_singleton in Hx as ->.
    destruct (H 0 (S k) a b eq_refl Hk) as [H1 H2].
    destruct (H (S k) 0 b a Hk eq_refl) as [H3 _].
    destruct H2 as [H4 H5]; [lia|]. done.
Qed.

Lemma reset_highlights_styled (arts : list Artwork.t) (s : Scene.Store) :
  separate arts -> Forall (styled s) arts ->
  Forall (styled (Main.reset_highlights arts s).2)
    (Main.reset_highlights arts s).1
  /\ (forall b, aloof arts b -> styled s b ->
                styled (Main.reset_highlights arts s).2 b).
Proof.
  revert s. induction arts as [|a arts IH]; intros s Hsep Hst; [done|].
  apply Forall_cons in Hst as [Ha Hst].
  destruct (separate_head a arts Hsep) as (Hne & Hal & Hrest).
  cbn [Main.reset_highlights].
  pose proof (setHighlight_styled false a s Hne Ha) as Ha1.
  pose proof (setHighlight_identity false a s) as Hid.
  assert (Hothers : forall b, aloof [a] b -> styled s b ->
            styled (Artwork.setHighlight false a s).2 b).
  { intros b Hb Hsb. destruct (Hb a) as (H1 & H2 & H3 & H4); [by left|].
    by apply setHighlight_styled_other. }
  destruct (Artwork.setHighlight false a s) as [a1 s1]. cbn [fst snd] in *.
  destruct (IH s1) as [IH1 IH2]; [by eapply separate_tail| |].
  { apply Forall_forall. intros b Hb. rewrite Forall_forall in Hrest, Hst.
    apply Hothers; [by apply Hrest|by apply Hst]. }
  destruct (Main.reset_highlights arts s1) as [rest s2]. cbn [fst snd] in *.
  split.
  - apply Forall_cons. split; [|done].
    apply IH2; [|done]. by apply (aloof_identity arts a).
  - intros b Hb Hsb. apply IH2.
    + intros x Hx. apply Hb. by right.
    + apply Hothers; [|done]. intros x Hx.
      apply list_elem_of_singleton in Hx as ->. apply Hb. by left.
Qed.

Lemma hover_loop_styled (intersects : list Scene.Intersection)
    (arts : list Artwork.t) (s : Scene.Store) :
  separate arts -> Forall (styled s) arts ->
  Forall (styled (Main.hover_loop intersects arts s).2)
    (Main.hover_loop intersects arts s).1.2.
Proof.
  intros Hsep Hst.
  pose proof (hover_loop_registry intersects arts s) as H.
  destruct (Main.hover_loop intersects arts s) as [[[k|] arts'] s'];
    cbn [fst snd]; [|by destruct H as [-> ->]].
  destruct H as (a & Hk & -> & ->).
  rewrite Forall_lookup in Hst |- *.
  intros j b Hj.
  destruct (Hsep k k a a Hk Hk) as [Hne _].
  destruct (decide (k = j)) as [->|Hkj].
  - rewrite list_lookup_insert_eq in Hj by by eapply lookup_lt_Some.
    injection Hj as <-. apply setHighlight_styled; [done|by eapply Hst].
  - rewrite list_lookup_insert_ne in Hj by done.
    destruct (Hsep j k b a Hj Hk) as [H1 H2].
    destruct (Hsep k j a b Hk Hj) as [H3 _].
    destruct H2 as [H4 H5]; [done|].
    apply setHighlight_styled_other; try done. by eapply Hst.
Qed.

Lemma styled_render (s : Scene.Store) (a : Artwork.t) :
  styled s a -> styled (Scene.render s) a.
Proof.
  intros (g & f & Hg & Hf & Hs & He).
  exists (Scene.bake g), (Scene.bake f). unfold Scene.render. cbn [Scene.objects].
  by rewrite !lookup_fmap, Hg, Hf.
Qed.

Lemma hover_pass_styled (x y : num) (c : PlayerController.t) (st : Main.State) :
  separate (Main.artworks st) ->
  Forall (styled (Main.store st)) (Main.artworks st) ->
  Forall (styled (Main.store (Main.hover_pass intersectObjects x y c st).2))
    (Main.artworks (Main.hover_pass intersectObjects x y c st).2).
Proof.
  intros Hsep Hst. unfold Main.hover_pass. simpl.
  destruct (reset_highlights_styled (Main.artworks st) (Main.store st) Hsep Hst)
    as [H1 _].
  destruct (reset_highlights_unseen skeleton (Main.artworks st) (Main.store st)
              skeleton_set_scale skeleton_set_emissive) as [Hid _].
  destruct (Main.reset_highlights _ _) as [arts s]. cbn [fst snd] in *.
  match goal with |- context [Main.hover_loop ?i arts s] =>
    pose proof (hover_loop_styled i arts s
                  (separate_identity _ _ Hid Hsep) H1) as H2;
    destruct (Main.hover_loop i arts s) as [[found arts'] s']
  end.
  exact H2.
Qed.

Lemma step_styled (ev : Main.Event) (st : Main.State) :
  separate (Main.artworks st) ->
  Forall (styled (Main.store st)) (Main.artworks st) ->
  Forall (styled (Main.store (Main.step intersectObjects ev st)))
    (Main.artworks (Main.step intersectObjects ev st)).
Proof.
  intros Hsep Hst.
  pose proof (step_gallery intersectObjects ev st) as H.
  assert (Hg : forall st', gallery st' = gallery st ->
            separate (Main.artworks st')
            /\ Forall (styled (Main.store st')) (Main.artworks st')).
  { intros st'. unfold gallery. by intros [= -> -> _]. }
  destruct ev; try (by apply Hg).
  - (* Frame *)
    cbv beta iota in H.
    pose proof (f_equal (fun g => g.1.1) H) as Ha.
    pose proof (f_equal (fun g => g.1.2) H) as Hs.
    unfold gallery in Ha, Hs. cbn [fst snd] in Ha, Hs.
    rewrite Ha, Hs. eapply Forall_impl; [exact Hst|].
    intros a. apply styled_render.
  - (* MouseMove *)
    destruct H as (st' & Hst' & ->).
    destruct (Hg st' Hst') as [Hsep' Hst2].
    unfold Main.onPointerMove.
    destruct (Main.player st') as [c|]; [|done].
    destruct (negb _); [done|]. by apply hover_pass_styled.
Qed.

Lemma init_separate_styled (items : list Scene.ArtworkData) (first : Scene.ObjId)
    (scenery : list Scene.ObjId) (cam : PlayerController.Camera)
    (width height : num) (page : Dom.World) :
  let st := Main.init items first scenery cam width height page in
  separate (Main.artworks st)
  /\ Forall (styled (Main.store st)) (Main.artworks st).
Proof.
  intros st.
  destruct (init_layout items first scenery cam width height page)
    as (Ha & _ & _ & _ & Ho). fold st in Ha, Ho.
  split.
  - intros i j a b Hi Hj. rewrite Ha, list_lookup_imap in Hi, Hj.
    destruct (items !! i); [|done]. destruct (items !! j); [|done].
    cbn [fmap option_fmap option_map] in Hi, Hj.
    injection Hi as <-. injection Hj as <-. simpl. lia.
  - apply Forall_lookup. intros i a Hi. rewrite Ha, list_lookup_imap in Hi.
    destruct (items !! i) as [d|] eqn:Hd; [|done].
    cbn [fmap option_fmap option_map] in Hi. injection Hi as <-.
    exists (group_node (0 + i) (length items) (int 15)
              (S (first + 3 * i)) (S (S (first + 3 * i)))), frame_node.
    split; [apply Ho; exists i, d; split; [done|]; by left|].
    split; [|done].
    apply Ho. exists i, d. split; [done|]. right. left.
    split; [simpl; lia|done].
Qed.

(** X18.  What is drawn agrees with the hover flags: in every state a
    session reaches, the group of each artwork has the highlight scale and
    its frame the emissive colour 0x333333 when the artwork is hovered, and
    scale 1 and emissive colour 0 when it is not. *)
Theorem a_highlighted_artwork_is_enlarged_and_glows
    (items : list Scene.ArtworkData) (first : Scene.ObjId)
    (scenery : list Scene.ObjId) (cam : PlayerController.Camera)
    (width height : num) (page : Dom.World) (evs : list Main.Event) :
  let st := Main.run intersectObjects evs
              (Main.init items first scenery cam width height page) in
  Forall
    (fun a =>
       exists group frame,
         Scene.objects (Main.store st) !! Artwork.group a = Some group
         /\ Scene.objects (Main.store st) !! Artwork.frame a = Some frame
         /\ Scene.scale group
            = (if Artwork.isHovered a
               then Vector3.set (Artwork.highlightScale a)
                      (Artwork.highlightScale a) (Artwork.highlightScale a)
               else Vector3.set (int 1) (int 1) (int 1))
         /\ Scene.emissive frame
            = Some (if Artwork.isHovered a then 0x333333 else 0x000000)%Z)
    (Main.artworks st).
Proof.
  intros st.
  assert (H : forall evs st0,
            separate (Main.artworks st0) ->
            Forall (styled (Main.store st0)) (Main.artworks st0) ->
            Forall (styled (Main.store (Main.run intersectObjects evs st0)))
              (Main.artworks (Main.run intersectObjects evs st0))).
  { clear. intros evs. induction evs as [|ev evs IH]; intros st0 Hsep Hst; [done|].
    change (Main.run intersectObjects (ev :: evs) st0)
      with (Main.run intersectObjects evs (Main.step intersectObjects ev st0)).
    apply IH; [|by apply step_styled].
    pose proof (step_shape intersectObjects ev st0) as Hsh.
    apply (f_equal fst) in Hsh. by apply (separate_identity _ _ Hsh). }
  destruct (init_separate_styled items first scenery cam width height page)
    as [Hsep Hst].
  exact (H evs _ Hsep Hst).
Qed.

End Styled.

Section Dispose.
Context {N : Number}.
Local Open Scope nat_scope.

Lemma children_remove_child (child : Scene.ObjId) (o : Scene.Object3D) :
  Scene.children (Scene.remove_child child o)
  = match list_find (fun c => c = child) (Scene.children o) with
    | Some (index, _) => delete index (Scene.children o)
    | None => Scene.children o
    end.
Proof. reflexivity. Qed.

Lemma list_find_head (P : Scene.ObjId -> Prop) `{!forall x, Decision (P x)}
    (x : Scene.ObjId) (l : list Scene.ObjId) :
  list_find P (x :: l)
  = if decide (P x) then Some (0, x)
    else fmap (M := option) (prod_map S Datatypes.id) (list_find P l).
Proof. reflexivity. Qed.

Lemma dispose_group (a : Artwork.t) (s : Scene.Store) (o : Scene.Object3D) :
  Scene.objects s !! Artwork.group a = Some o ->
  Scene.objects (Artwork.dispose a s) !! Artwork.group a
  = Some (Scene.remove_child (Artwork.frame a)
            (Scene.remove_child (Artwork.artwork a) o)).
Proof.
  intros Ho. unfold Artwork.dispose.
  rewrite !lookup_modify, !decide_True by done. by rewrite Ho.
Qed.

Lemma dispose_elsewhere (a : Artwork.t) (s : Scene.Store) (k : Scene.ObjId) :
  k <> Artwork.group a ->
  Scene.objects (Artwork.dispose a s) !! k = Scene.objects s !! k.
Proof.
  intros Hk. unfold Artwork.dispose.
  by rewrite !lookup_modify, !decide_False by done.
Qed.

(** X19.  [dispose()] of an artwork just made empties its group: both
    meshes are removed, so that no node belongs to the artwork any more for
    the hover search, while the picture keeps its tag and its data; a second
    [dispose()] changes nothing. *)
Theorem a_disposed_artwork_owns_nothing
    (d : Scene.ArtworkData) (index total : nat) (radius : option num)
    (s : Scene.Store) :
  let a := (Artwork.new d index total radius s).1 in
  let s' := Artwork.dispose a (Artwork.new d index total radius s).2 in
  Scene.children_of s' (Artwork.getGroup a) = []
  /\ (forall object, Main.owns s' object a = false)
  /\ Scene.is_artwork s' (Artwork.artwork a) = true
  /\ Main.userData_data s' (Artwork.artwork a) = Some d
  /\ Artwork.dispose a s' = s'.
Proof.
  intros a s'. subst a s'. rewrite new_artwork. cbv zeta. cbn [fst snd].
  set (g := Scene.next s).
  set (a := artwork_at d index total (default (int 15) radius) g).
  set (s1 := {| Scene.objects := _; Scene.next := _ |}).
  assert (Hg : Scene.objects s1 !! g
               = Some (group_node index total (default (int 15) radius)
                         (S g) (S (S g)))).
  { subst s1. cbn [Scene.objects].
    rewrite !lookup_insert_ne by lia. by rewrite lookup_insert_eq. }
  assert (Hp : Scene.objects s1 !! S (S g) = Some (picture_node d)).
  { subst s1. cbn [Scene.objects]. by rewrite lookup_insert_eq. }
  pose proof (dispose_group a s1 _ Hg) as Hd.
  assert (Hch : Scene.children
                  (Scene.remove_child (Artwork.frame a)
                     (Scene.remove_child (Artwork.artwork a)
                        (group_node index total (default (int 15) radius)
                           (S g) (S (S g))))) = []).
  { rewrite !children_remove_child. cbn [group_node Scene.children].
    change (Artwork.artwork a) with (S (S g)).
    change (Artwork.frame a) with (S g).
    rewrite !list_find_head.
    rewrite (decide_False (P := S g = S (S g))) by lia.
    rewrite (decide_True (P := S (S g) = S (S g))) by done.
    cbn [fmap option_fmap option_map prod_map fst snd delete list_delete].
    rewrite list_find_head. by rewrite decide_True by done. }
  assert (Hc : Scene.children_of (Artwork.dispose a s1) (Artwork.getGroup a) = []).
  { unfold Scene.children_of. change (Artwork.getGroup a) with (Artwork.group a).
    by rewrite Hd, Hch. }
  split; [exact Hc|]. split; [|split; [|split]].
  - intros object. unfold Main.owns. by rewrite Hc.
  - unfold Scene.is_artwork.
    rewrite dispose_elsewhere by (simpl; lia).
    change (Artwork.artwork a) with (S (S g)). by rewrite Hp.
  - unfold Main.userData_data.
    rewrite dispose_elsewhere by (simpl; lia).
    change (Artwork.artwork a) with (S (S g)). by rewrite Hp.
  - apply store_eq; [done|]. intros k.
    destruct (decide (k = Artwork.group a)) as [->|Hk];
      [|by apply dispose_elsewhere].
    rewrite (dispose_group a _ _ Hd), Hd. f_equal.
    set (o := Scene.remove_child (Artwork.frame a) _) in *.
    destruct o as [p l sc mw ge c em u ch]. cbn [Scene.children] in Hch.
    by subst ch.
Qed.

End Dispose.

(* ===================================================================== *)
(** ** The pointer on the screen *)
(* ===================================================================== *)

Section Pointer.
Local Open Scope R_scope.

(** X20.  In exact arithmetic.  For a pointer inside the window, the
    normalised device coordinates both passes compute lie between -1 and 1;
    the top left corner of the window is (-1, 1), the bottom right corner
    (1, -1). *)
Theorem the_pointer_stays_within_the_device_square
    (clientX clientY : R) (st : Main.State (N := Real)) :
  0 < Main.innerWidth st -> 0 < Main.innerHeight st ->
  0 <= clientX <= Main.innerWidth st ->
  0 <= clientY <= Main.innerHeight st ->
  -1 <= Main.x (Main.pointer clientX clientY st) <= 1
  /\ -1 <= Main.y (Main.pointer clientX clientY st) <= 1
  /\ Main.pointer 0 0 st = {| Main.x := -1; Main.y := 1 |}
  /\ Main.pointer (Main.innerWidth st) (Main.innerHeight st) st
     = {| Main.x := 1; Main.y := -1 |}.
Proof.
  intros Hw Hh Hx Hy. unfold Main.pointer.
  cbn [Main.x Main.y add sub mul div neg int Real].
  assert (Hqx : 0 <= clientX / Main.innerWidth st <= 1).
  { split.
    - apply Rmult_le_pos; [lra|]. left. by apply Rinv_0_lt_compat.
    - apply (Rmult_le_reg_r (Main.innerWidth st)); [done|].
      unfold Rdiv. rewrite Rmult_assoc, Rinv_l by lra. lra. }
  assert (Hqy : 0 <= clientY / Main.innerHeight st <= 1).
  { split.
    - apply Rmult_le_pos; [lra|]. left. by apply Rinv_0_lt_compat.
    - apply (Rmult_le_reg_r (Main.innerHeight st)); [done|].
      unfold Rdiv. rewrite Rmult_assoc, Rinv_l by lra. lra. }
  assert (E : forall a b c e : R, a = c -> b = e ->
            Main.Build_Vector2 (N := Real) a b = Main.Build_Vector2 (N := Real) c e)
    by (intros; by subst).
  split; [lra|]. split; [lra|]. split; apply E; field; lra.
Qed.

End Pointer.

(* ===================================================================== *)
(** ** The lines of a thought bubble *)
(* ===================================================================== *)

Section ThoughtLines.
Context {N : Number}.
Variable lte : num -> num -> bool.
Variable measureText : string -> num.
Local Open Scope nat_scope.

Local Abbreviation wrap_loop := (GalleryVisitor.wrap_loop lte measureText).
Local Abbreviation wrap := (GalleryVisitor.wrap lte measureText).

Lemma split_nonempty (sep : Ascii.ascii) (text : string) :
  GalleryVisitor.split sep text <> [].
Proof.
  destruct text as [|c rest]; simpl; [done|].
  destruct (Ascii.eqb c sep); [done|].
  by destruct (GalleryVisitor.split sep rest).
Qed.

Lemma join_cons (sep line : string) (rest : list string) :
  rest <> [] ->
  GalleryVisitor.join sep (line :: rest)
  = (line +:+ sep +:+ GalleryVisitor.join sep rest)%string.
Proof. by destruct rest. Qed.

Lemma join_split (text : string) :
  GalleryVisitor.join " " (GalleryVisitor.split Ascii.Space text) = text.
Proof.
  induction text as [|c rest IH]; [reflexivity|].
  simpl GalleryVisitor.split.
  destruct (Ascii.eqb c Ascii.Space) eqn:E.
  - apply Ascii.eqb_eq in E. subst c.
    rewrite join_cons by apply split_nonempty. by rewrite IH.
  - pose proof (split_nonempty Ascii.Space rest) as Hne.
    destruct (GalleryVisitor.split Ascii.Space rest) as [|word words]; [done|].
    destruct words as [|w2 words].
    + simpl in *. by rewrite IH.
    + rewrite join_cons by done. rewrite join_cons in IH by done.
      by rewrite <- IH.
Qed.

Lemma wrap_loop_length (words : list string) (line : string) (lines : list string) :
  length lines < 3 ->
  length lines <= length (wrap_loop words line lines).2 <= 3.
Proof.
  revert line lines. induction words as [|word rest IH]; intros line lines Hl.
  - simpl. lia.
  - simpl. destruct (_ || _).
    + by apply IH.
    + unfold GalleryVisitor.maxLines. rewrite length_app. simpl.
      case_bool_decide as Hb.
      * simpl. rewrite length_app. simpl. lia.
      * specialize (IH word (lines ++ [line])). rewrite length_app in IH.
        simpl in IH. lia.
Qed.

(** X21.  A thought bubble never shows more than [maxLines] = 3 lines,
    whatever the text and whatever the font measures. *)
Theorem never_more_than_three_lines (text : string) :
  length (wrap text) <= GalleryVisitor.maxLines.
Proof.
  unfold GalleryVisitor.wrap, GalleryVisitor.maxLines.
  pose proof (wrap_loop_length (GalleryVisitor.split Ascii.Space text)
                EmptyString [] ltac:(simpl; lia)) as H.
  destruct (wrap_loop _ _ _) as [line lines]. simpl in H.
  destruct (_ && _) eqn:E.
  - apply andb_prop in E as [_ E]. apply bool_decide_eq_true in E.
    rewrite length_app. simpl. lia.
  - clear E. case_bool_decide; [|lia].
    destruct (last lines); [|lia].
    case_bool_decide; [|lia]. rewrite length_insert. lia.
Qed.


Lemma nonempty_spec (s : string) :
  GalleryVisitor.nonempty s = true <-> s <> EmptyString.
Proof.
  unfold GalleryVisitor.nonempty. case_bool_decide; simpl; split; try done.
Qed.

Lemma wrap_loop_fit (all words : list string) (line : string)
    (lines : list string) :
  let ok l := l ∈ all \/ lte (measureText l) GalleryVisitor.maxWidth = true in
  words ⊆ all ->
  (line = EmptyString \/ ok line) -> Forall ok lines ->
  ((wrap_loop words line lines).1 = EmptyString
   \/ ok (wrap_loop words line lines).1)
  /\ Forall ok (wrap_loop words line lines).2.
Proof.
  intros ok. revert line lines.
  induction words as [|word rest IH]; intros line lines Hall Hline Hlines.
  - done.
  - assert (Hword : word ∈ all) by (apply Hall; left).
    assert (Hrest : rest ⊆ all) by (intros w Hw; apply Hall; by right).
    simpl.
    destruct (lte (measureText _) _) eqn:Efit; simpl.
    + apply IH; [done| |done]. right. by right.
    + case_bool_decide as Hempty.
      * subst line. apply IH; [done| |done]. right. by left.
      * assert (Hok : ok line) by (by destruct Hline).
        assert (Hlines' : Forall ok (lines ++ [line]))
          by (apply Forall_app; split; [done|by constructor]).
        case_bool_decide.
        -- split; [right; by left|done].
        -- apply IH; [done| |done]. right. by left.
Qed.

Lemma elem_of_insert_inv {A : Type} (l : list A) (i : nat) (x y : A) :
  x ∈ <[i := y]> l -> x = y \/ x ∈ l.
Proof.
  intros [j Hj]%list_elem_of_lookup.
  destruct (decide (i = j)) as [->|Hne].
  - destruct (decide (j < length l)) as [Hlt|Hge].
    + rewrite list_lookup_insert_eq in Hj by done. left. congruence.
    + rewrite list_insert_ge in Hj by lia. right. by eapply list_elem_of_lookup_2.
  - rewrite list_lookup_insert_ne in Hj by done.
    right. by eapply list_elem_of_lookup_2.
Qed.

(** X22.  Every line of a thought bubble fits [maxWidth], unless it is a
    single word of the text, or the last line cut to 15 units and an
    ellipsis. *)
Theorem a_line_too_wide_is_a_single_word (text : string) :
  Forall
    (fun line =>
       line ∈ GalleryVisitor.split Ascii.Space text
       \/ lte (measureText line) GalleryVisitor.maxWidth = true
       \/ exists lastLine,
            line = (String.substring 0 15 lastLine +:+ "...")%string)
    (wrap text).
Proof.
  apply Forall_forall. intros line.
  unfold GalleryVisitor.wrap.
  pose proof (wrap_loop_fit (GalleryVisitor.split Ascii.Space text)
                (GalleryVisitor.split Ascii.Space text) EmptyString []
                ltac:(done) ltac:(by left) ltac:(constructor)) as [Hl Hls].
  destruct (wrap_loop _ _ _) as [l ls]. simpl in Hl, Hls.
  assert (Hin : forall x, x ∈ ls ->
            x ∈ GalleryVisitor.split Ascii.Space text
            \/ lte (measureText x) GalleryVisitor.maxWidth = true
            \/ exists lastLine, x = (String.substring 0 15 lastLine +:+ "...")%string).
  { intros x Hx. rewrite Forall_forall in Hls.
    destruct (Hls x Hx); [by left|right; by left]. }
  destruct (GalleryVisitor.nonempty l) eqn:El; simpl.
  - apply nonempty_spec in El.
    case_bool_decide.
    + intros [Hx| ->%list_elem_of_singleton]%elem_of_app; [by apply Hin|].
      destruct Hl as [|[|]]; [done|by left|right; by left].
    + case_bool_decide; [|apply Hin].
      destruct (last ls) as [lastLine|]; [|apply Hin].
      case_bool_decide; [|apply Hin].
      intros Hx. apply elem_of_insert_inv in Hx as [->|Hx]; [|by apply Hin].
      right. right. by exists lastLine.
  - case_bool_decide; [|apply Hin].
    destruct (last ls) as [lastLine|]; [|apply Hin].
    case_bool_decide; [|apply Hin].
    intros Hx. apply elem_of_insert_inv in Hx as [->|Hx]; [|by apply Hin].
    right. right. by exists lastLine.
Qed.

Lemma append_assoc (a b c : string) :
  ((a +:+ b) +:+ c = a +:+ (b +:+ c))%string.
Proof.
  induction a as [|x a IH]; [done|].
  change (String x ((a +:+ b) +:+ c) = String x (a +:+ (b +:+ c)))%string.
  by rewrite IH.
Qed.

Lemma join_merge (before after : list string) (x y : string) :
  GalleryVisitor.join " " (before ++ (x +:+ " " +:+ y)%string :: after)
  = GalleryVisitor.join " " (before ++ x :: y :: after).
Proof.
  induction before as [|b before IH].
  - simpl. destruct after as [|a after]; [done|].
    by rewrite !append_assoc.
  - rewrite <- !app_comm_cons.
    rewrite !join_cons by (by destruct before). by rewrite IH.
Qed.

Lemma wrap_loop_whole (words : list string) (line : string)
    (lines : list string) :
  Forall (fun word => word <> EmptyString) words ->
  line <> EmptyString ->
  length (wrap_loop words line lines).2 < GalleryVisitor.maxLines ->
  (wrap_loop words line lines).1 <> EmptyString
  /\ GalleryVisitor.join " "
       ((wrap_loop words line lines).2 ++ [(wrap_loop words line lines).1])
     = GalleryVisitor.join " " (lines ++ line :: words).
Proof.
  revert line lines.
  induction words as [|word rest IH]; intros line lines Hwords Hline.
  - done.
  - apply Forall_cons in Hwords as [Hword Hrest].
    simpl. apply nonempty_spec in Hline as Hne. rewrite Hne.
    destruct (_ || _).
    + intros Hlen.
      destruct (IH (line +:+ " " +:+ word)%string lines Hrest) as [H1 H2];
        [by destruct line|done|].
      split; [done|]. by rewrite H2, join_merge.
    + case_bool_decide as Hb.
      * simpl. unfold GalleryVisitor.maxLines in *. lia.
      * intros Hlen.
        destruct (IH word (lines ++ [line]) Hrest Hword Hlen) as [H1 H2].
        split; [done|]. rewrite H2. by rewrite <- app_assoc.
Qed.

(** X23.  When the text has no empty word (no leading, trailing or doubled
    space) and the loop closes fewer than three lines, so that it never
    breaks off, the lines drawn, joined by single spaces, are the text: no
    word is lost, split or reordered. *)
Theorem lines_give_back_the_text (text : string) :
  Forall (fun word => word <> EmptyString) (GalleryVisitor.split Ascii.Space text) ->
  length (wrap_loop (GalleryVisitor.split Ascii.Space text) EmptyString []).2
  < GalleryVisitor.maxLines ->
  GalleryVisitor.join " " (wrap text) = text.
Proof.
  intros Hwords Hlen.
  rewrite <- (join_split text) at 2.
  unfold GalleryVisitor.wrap.
  destruct (GalleryVisitor.split Ascii.Space text) as [|word rest] eqn:E;
    [by apply split_nonempty in E|].
  apply Forall_cons in Hwords as [Hword Hrest].
  simpl in Hlen |- *.
  rewrite orb_true_r in Hlen |- *.
  destruct (wrap_loop_whole rest word [] Hrest Hword Hlen) as [H1 H2].
  destruct (wrap_loop rest word []) as [l ls]. simpl in *.
  apply nonempty_spec in H1. rewrite H1. simpl.
  by rewrite bool_decide_true.
Qed.

End ThoughtLines.

(* ===================================================================== *)
(** ** Further instances *)
(* ===================================================================== *)

Section FurtherInstances.
Local Open Scope R_scope.

Lemma releasing_a_key_undoes_pressing_it_witness :
  "KeyW"%string <> "Escape"%string
  /\ "w"%string <> "Escape"%string
  /\ Main.step no_hits (Main.KeyUp "KeyW")
       (Main.step no_hits (Main.KeyDown "KeyW" "w") (room start gallery_page))
     = Main.step no_hits (Main.KeyUp "KeyW") (room start gallery_page).
Proof.
  split; [discriminate|]. split; [discriminate|].
  apply (releasing_a_key_undoes_pressing_it no_hits "KeyW" "w"
           (room start gallery_page)); discriminate.
Defined.

Lemma walking_is_paced_by_frames_witness :
  Main.player (room diagonal gallery_page) = Some diagonal
  /\ PlayerController.isLocked diagonal = true
  /\ xorb (PlayerController.moveForward diagonal)
          (PlayerController.moveBackward diagonal)
     || xorb (PlayerController.moveLeft diagonal)
             (PlayerController.moveRight diagonal) = true
  /\ exists c',
       Main.player
         (Main.run no_hits (Main.Frame (N := Real) <$> [0; 1; 2])
            (room diagonal gallery_page)) = Some c'
       /\ PlayerController.yaw c' = PlayerController.yaw diagonal
       /\ PlayerController.position (PlayerController.camera c')
          = Vector3.add (PlayerController.position (PlayerController.camera diagonal))
              (Vector3.multiplyScalar
                 (Vector3.multiplyScalar (Vector3.normalize (wish diagonal))
                    (PlayerController.moveSpeed diagonal))
                 (INR (length [0; 1; 2]))).
Proof.
  split; [reflexivity|]. split; [reflexivity|]. split; [reflexivity|].
  apply (walking_is_paced_by_frames no_hits [0; 1; 2]
           (room diagonal gallery_page) diagonal); reflexivity.
Defined.

Lemma opposite_keys_cancel_witness :
  let c := PlayerController.set_moveBackward true
             (PlayerController.set_moveForward true start) in
  PlayerController.isLocked c = true
  /\ PlayerController.moveForward c = PlayerController.moveBackward c
  /\ PlayerController.moveLeft c = PlayerController.moveRight c
  /\ PlayerController.camera (PlayerController.update 0 c)
     = PlayerController.camera c
  /\ PlayerController.velocity (PlayerController.update 0 c) = Vector3.set 0 0 0.
Proof.
  split; [reflexivity|]. split; [reflexivity|]. split; [reflexivity|].
  apply (opposite_keys_cancel 0
           (PlayerController.set_moveBackward true
              (PlayerController.set_moveForward true start)));
    reflexivity.
Defined.

Lemma escape_unlocks_at_once_without_release_witness :
  Main.player (room start bare_page) = Some start
  /\ release_unavailable (Main.world (room start bare_page))
  /\ Main.step no_hits (Main.KeyDown "Escape" "Escape") (room start bare_page)
     = Main.set_world
         (Dom.with_promises
            (Dom.promises (Main.world (room start bare_page)) ++ [Dom.Fulfilled])
            (Main.world (room start bare_page)))
         (Main.set_player (PlayerController.set_isLocked false start)
            (room start bare_page)).
Proof.
  split; [reflexivity|]. split; [by repeat split|].
  apply (escape_unlocks_at_once_without_release no_hits "Escape"
           (room start bare_page) start); [reflexivity|by repeat split].
Defined.

Lemma a_lock_change_after_escape_leaves_the_player_unlocked_witness :
  let st := room fresh_player gallery_page in
  let evs := [Main.Click (N := Real) 0 400 300] in
  is_Some (Main.player st)
  /\ release_available (Main.world st)
  /\ Forall (fun ev => is_lock_change ev = false) evs
  /\ Main.locked
       (Main.run no_hits
          (Main.KeyDown "Escape" "Escape" :: evs
           ++ [Main.PointerLockChange (Some Dom.Canvas)]) st) = false
  /\ Dom.pointerLockElement
       (Dom.document
          (Main.world
             (Main.run no_hits
                (Main.KeyDown "Escape" "Escape" :: evs
                 ++ [Main.PointerLockChange (Some Dom.Canvas)]) st)))
     = Some Dom.Canvas.
Proof.
  split; [by eexists|]. split; [by eexists|].
  split; [by repeat constructor|].
  apply (a_lock_change_after_escape_leaves_the_player_unlocked no_hits "Escape"
           [Main.Click (N := Real) 0 400 300] (Some Dom.Canvas)
           (room fresh_player gallery_page));
    [by eexists|by eexists|by repeat constructor].
Defined.

Lemma the_lock_flag_follows_the_lock_element_witness :
  let st := room fresh_player gallery_page in
  let st' := Main.step no_hits (Main.PointerLockChange (Some Dom.Canvas)) st in
  Main.player st = Some fresh_player
  /\ waiting st = []
  /\ Main.player st' = Some (PlayerController.set_isLocked true fresh_player)
  /\ Dom.blocker (Dom.document (Main.world st')) = Some "none"%string
  /\ Dom.crosshair (Dom.document (Main.world st')) = Some "block"%string.
Proof.
  split; [reflexivity|]. split; [reflexivity|].
  apply (the_lock_flag_follows_the_lock_element no_hits (Some Dom.Canvas)
           (room fresh_player gallery_page) fresh_player); reflexivity.
Defined.

Lemma one_click_asks_for_the_pointer_twice_witness :
  let st := room fresh_player gallery_page in
  let st' := Main.step no_hits (Main.Click 0 400 300) st in
  Main.player st = Some fresh_player
  /\ PlayerController.isLocked fresh_player = false
  /\ capture_available (Main.world st)
  /\ Main.player st' = Some fresh_player
  /\ Dom.lock_requests (Main.world st') = 2%nat
  /\ Dom.promises (Main.world st') = [Dom.Pending; Dom.Pending]
  /\ Dom.canvas_listeners (Dom.canvas (Main.world st'))
     = [Dom.OnLock 0; Dom.OnLock 1]
  /\ Dom.console_error (Main.world st') = [].
Proof.
  split; [reflexivity|]. split; [reflexivity|]. split; [by eexists|].
  apply (one_click_asks_for_the_pointer_twice no_hits 400 300
           (room fresh_player gallery_page) fresh_player);
    [reflexivity|reflexivity|by eexists].
Defined.

Lemma at_most_one_info_timer_is_pending_witness :
  let st := Main.run no_hits [Main.Timeout (N := Real) 1]
              (Main.init (N := Real) Main.ARTWORKS 0 []
                 {| PlayerController.position := Vector3.new;
                    PlayerController.lookAt := Vector3.new |}
                 800 600 gallery_page) in
  Dom.timers gallery_page = []
  /\ (0 < Dom.next_timer gallery_page)%nat
  /\ Dom.timers (Main.world st)
     = match Main.infoTimeout st with Some id => [id] | None => [] end
  /\ (forall id, Main.infoTimeout st <> Some id ->
        Main.step no_hits (Main.Timeout id) st = st).
Proof.
  split; [reflexivity|]. split; [simpl; lia|].
  apply (at_most_one_info_timer_is_pending no_hits Main.ARTWORKS 0 []
           {| PlayerController.position := Vector3.new;
              PlayerController.lookAt := Vector3.new |}
           800 600 gallery_page [Main.Timeout (N := Real) 1]);
    [reflexivity|simpl; lia].
Defined.

Lemma a_page_without_the_panel_shows_nothing_witness :
  let st0 := Main.init (N := Real) Main.ARTWORKS 0 []
               {| PlayerController.position := Vector3.new;
                  PlayerController.lookAt := Vector3.new |}
               800 600 page_without_panel in
  ~ has_info_panel page_without_panel
  /\ Dom.timers page_without_panel = []
  /\ billboard (Main.run no_hits [Main.ContextMenu (N := Real) 400 300] st0)
     = billboard st0.
Proof.
  assert (H : ~ has_info_panel page_without_panel)
    by (intros (_ & _ & [x Hx]); discriminate Hx).
  split; [exact H|]. split; [reflexivity|].
  apply (a_page_without_the_panel_shows_nothing no_hits Main.ARTWORKS 0 []
           {| PlayerController.position := Vector3.new;
              PlayerController.lookAt := Vector3.new |}
           800 600 page_without_panel [Main.ContextMenu (N := Real) 400 300] H);
    reflexivity.
Defined.

Lemma the_info_panel_hides_when_its_timer_fires_witness :
  let st := room start gallery_page in
  let st1 := Main.showArtworkInfo EmptyString "Claude Monet" st in
  has_info_panel (Main.world st)
  /\ exists id,
       Main.infoTimeout st1 = Some id
       /\ Dom.title (Dom.document (Main.world st1)) = Some "Untitled"%string
       /\ Dom.artist (Dom.document (Main.world st1)) = Some "Claude Monet"%string
       /\ Dom.info_panel (Dom.document (Main.world st1)) = Some true
       /\ let st2 := Main.step no_hits (Main.Timeout id) st1 in
          Dom.info_panel (Dom.document (Main.world st2)) = Some false
          /\ Dom.title (Dom.document (Main.world st2)) = Some "Untitled"%string
          /\ Dom.artist (Dom.document (Main.world st2))
             = Some "Claude Monet"%string
          /\ Main.infoTimeout st2 = None.
Proof.
  assert (H : has_info_panel (Main.world (room start gallery_page)))
    by (repeat split; by eexists).
  split; [exact H|].
  apply (the_info_panel_hides_when_its_timer_fires no_hits EmptyString
           "Claude Monet" (room start gallery_page) H).
Defined.

Lemma the_cursor_tells_the_hover_witness :
  let st := room start gallery_page in
  let st' := Main.step no_hits (Main.MouseMove (Some 5) 400 300) st in
  Main.player st = Some start
  /\ PlayerController.isLocked start = true
  /\ Dom.cursor (Dom.document (Main.world st'))
     = match highlighted (Main.artworks st') with
       | [] => "default"%string
       | _ => "pointer"%string
       end.
Proof.
  split; [reflexivity|]. split; [reflexivity|].
  apply (the_cursor_tells_the_hover no_hits (Some 5) 400 300
           (room start gallery_page) start); reflexivity.
Defined.

Lemma hovering_in_and_out_restores_the_scene_witness :
  let a := lone_artwork.1 in
  let s := lone_artwork.2 in
  Artwork.isHovered a = false
  /\ (forall o, Scene.objects s !! Artwork.group a = Some o ->
                Scene.scale o = Vector3.set (int 1) (int 1) (int 1))
  /\ (forall o, Scene.objects s !! Artwork.frame a = Some o ->
                Scene.emissive o = None \/ Scene.emissive o = Some 0%Z)
  /\ Artwork.setHighlight false (Artwork.setHighlight true a s).1
                                (Artwork.setHighlight true a s).2
     = (a, s).
Proof.
  assert (Hg : forall o,
            Scene.objects lone_artwork.2 !! Artwork.group lone_artwork.1 = Some o ->
            Scene.scale o = Vector3.set (int 1) (int 1) (int 1)).
  { intros o. unfold lone_artwork. rewrite new_artwork. cbn.
    rewrite !lookup_insert_ne by lia. rewrite lookup_insert_eq.
    by intros [= <-]. }
  assert (Hf : forall o,
            Scene.objects lone_artwork.2 !! Artwork.frame lone_artwork.1 = Some o ->
            Scene.emissive o = None \/ Scene.emissive o = Some 0%Z).
  { intros o. unfold lone_artwork. rewrite new_artwork. cbn.
    rewrite lookup_insert_ne by lia. rewrite lookup_insert_eq.
    intros [= <-]. by right. }
  split; [reflexivity|]. split; [exact Hg|]. split; [exact Hf|].
  apply (hovering_in_and_out_restores_the_scene lone_artwork.1 lone_artwork.2
           eq_refl Hg Hf).
Defined.

Lemma the_pointer_stays_within_the_device_square_witness :
  let st := room start gallery_page in
  0 < Main.innerWidth st
  /\ 0 < Main.innerHeight st
  /\ 0 <= 400 <= Main.innerWidth st
  /\ 0 <= 300 <= Main.innerHeight st
  /\ (-1 <= Main.x (Main.pointer 400 300 st) <= 1
      /\ -1 <= Main.y (Main.pointer 400 300 st) <= 1
      /\ Main.pointer 0 0 st = {| Main.x := -1; Main.y := 1 |}
      /\ Main.pointer (Main.innerWidth st) (Main.innerHeight st) st
         = {| Main.x := 1; Main.y := -1 |}).
Proof.
  assert (Hw : 0 < Main.innerWidth (room start gallery_page)) by (simpl; lra).
  assert (Hh : 0 < Main.innerHeight (room start gallery_page)) by (simpl; lra).
  assert (Hx : 0 <= 400 <= Main.innerWidth (room start gallery_page))
    by (simpl; lra).
  assert (Hy : 0 <= 300 <= Main.innerHeight (room start gallery_page))
    by (simpl; lra).
  split; [exact Hw|]. split; [exact Hh|]. split; [exact Hx|]. split; [exact Hy|].
  apply (the_pointer_stays_within_the_device_square 400 300
           (room start gallery_page) Hw Hh Hx Hy).
Defined.

End FurtherInstances.

Section FurtherInstancesBinary64.
Local Open Scope nat_scope.

Lemma lines_give_back_the_text_witness :
  let text := "I love the colors in this one."%string in
  Forall (fun word => word <> EmptyString)
    (GalleryVisitor.split Ascii.Space text)
  /\ length
       (GalleryVisitor.wrap_loop
          (N := Binary64 (fun x => x) (fun x => x))
          PrimFloat.leb twelve_pixels_each
          (GalleryVisitor.split Ascii.Space text) EmptyString []).2
     < GalleryVisitor.maxLines
  /\ GalleryVisitor.join " "
       (GalleryVisitor.wrap (N := Binary64 (fun x => x) (fun x => x))
          PrimFloat.leb twelve_pixels_each text)
     = text.
Proof.
  assert (Hw : Forall (fun word => word <> EmptyString)
                 (GalleryVisitor.split Ascii.Space
                    "I love the colors in this one."))
    by (vm_compute; repeat (constructor; [discriminate|]); constructor).
  assert (Hl : length
                 (GalleryVisitor.wrap_loop
                    (N := Binary64 (fun x => x) (fun x => x))
                    PrimFloat.leb twelve_pixels_each
                    (GalleryVisitor.split Ascii.Space
                       "I love the colors in this one.") EmptyString []).2
               < GalleryVisitor.maxLines)
    by (vm_compute; lia).
  split; [exact Hw|]. split; [exact Hl|].
  apply (lines_give_back_the_text (N := Binary64 (fun x => x) (fun x => x))
           PrimFloat.leb twelve_pixels_each
           "I love the colors in this one." Hw Hl).
Defined.

End FurtherInstancesBinary64.
